(** * convert-fgd-dem: mesh ingestion, mosaic assembly, reprojection and merge

    A shallow embedding of the C++ sources of the FGD DEM converter
    (fast_fgd_parser.hpp, xml_parser.cpp, dem.cpp, converter.cpp, geotiff.cpp)
    and the properties of the specification that are settled against it.

    Conventions of the embedding:
    - [double] and [float] values are Rocq's primitive binary64 floats; a
      [float] (binary32) value is a binary64 value that the cast
      [double_to_float] produced;
    - C++ [int] values are integers of [Z]; signed arithmetic is modelled
      where it does not overflow (overflow is undefined behaviour in C++);
      [size_t] arithmetic wraps modulo 2^64 and the wrap is written out;
    - text is a list of bytes ([const char*] ranges become suffixes);
    - an operation that throws, or that reads or writes out of the bounds of
      a buffer, yields [None]. *)

From Stdlib Require Import ZArith List Lia Bool.
From Stdlib Require Import Floats.
From Stdlib Require Import Strings.Byte.
From stdpp Require Import base option list gmap strings.

Local Open Scope Z_scope.

(** ** Numbers *)

Module Num.

Definition int_min : Z := -2147483648.
Definition int_max : Z := 2147483647.

Definition in_int_range (z : Z) : bool := (int_min <=? z) && (z <=? int_max).

(** [size_t] on the 64-bit targets of the build. *)
Definition size_modulus : Z := 2 ^ 64.

(** Conversion of an [int] argument to a [size_t] parameter. *)
Definition to_size_t (z : Z) : Z := z mod size_modulus.

(** The integer part of a finite binary64 value [(-1)^s * m * 2^e],
    rounded as [round_mag] rounds the magnitude of a value that has a
    fractional part. *)
Definition SF_to_Z (round_negative_exp : bool -> positive -> Z -> Z)
    (f : spec_float) : option Z :=
  match f with
  | S754_zero _ => Some 0
  | S754_finite s m e =>
      if 0 <=? e then Some ((if s then -1 else 1) * (Zpos m * 2 ^ e))
      else Some (round_negative_exp s m (- e))
  | S754_infinity _ => None
  | S754_nan => None
  end.

(** Truncation toward zero. *)
Definition trunc_frac (s : bool) (m : positive) (k : Z) : Z :=
  (if s then -1 else 1) * (Zpos m / 2 ^ k).

(** [std::floor]. *)
Definition floor_frac (s : bool) (m : positive) (k : Z) : Z :=
  (if s then - Zpos m else Zpos m) / 2 ^ k.

(** [std::ceil]. *)
Definition ceil_frac (s : bool) (m : positive) (k : Z) : Z :=
  - ((if s then Zpos m else - Zpos m) / 2 ^ k).

(** [std::round]: halfway cases away from zero. *)
Definition round_frac (s : bool) (m : positive) (k : Z) : Z :=
  (if s then -1 else 1) * ((Zpos m + 2 ^ (k - 1)) / 2 ^ k).

Definition to_int (z : option Z) : option Z :=
  match z with
  | Some z => if in_int_range z then Some z else None
  | None => None
  end.

(** [static_cast<int>(x)] for a double [x]: the value truncated toward zero;
    undefined (here [None]) when the truncated value is not an [int], and for
    infinities and NaN. *)
Definition double_to_int (x : float) : option Z :=
  to_int (SF_to_Z trunc_frac (Prim2SF x)).

(** [static_cast<int>(std::floor(x))]. *)
Definition floor_to_int (x : float) : option Z :=
  to_int (SF_to_Z floor_frac (Prim2SF x)).

(** [static_cast<int>(std::ceil(x))]. *)
Definition ceil_to_int (x : float) : option Z :=
  to_int (SF_to_Z ceil_frac (Prim2SF x)).

(** [static_cast<int>(std::round(x))]. *)
Definition round_to_int (x : float) : option Z :=
  to_int (SF_to_Z round_frac (Prim2SF x)).

(** Conversion of an [int] to [double] (exact). *)
Definition int_to_double (z : Z) : float :=
  if 0 <=? z then PrimFloat.of_uint63 (Uint63.of_Z z)
  else PrimFloat.opp (PrimFloat.of_uint63 (Uint63.of_Z (- z))).

(** [static_cast<float>(x)]: rounding of a binary64 value to binary32
    (24 bits of precision, exponents up to 128), to nearest even. *)
Definition double_to_float (x : float) : float :=
  match Prim2SF x with
  | S754_finite s m e => SF2Prim (binary_round 24 128 s m e)
  | _ => x
  end.

(** The no-data sentinel of the mesh grids and of the mosaic canvas. *)
Definition sentinel : float := (-9999)%float.

End Num.
Export Num.

(** ** The parsed document (fast_fgd_parser.hpp, [FastFGDParser::ParsedData]) *)

Record ParsedData : Type := mkParsedData {
  lower_corner_x : float;
  lower_corner_y : float;
  upper_corner_x : float;
  upper_corner_y : float;
  grid_low_x : Z;
  grid_low_y : Z;
  grid_high_x : Z;
  grid_high_y : Z;
  start_x : float;
  start_y : float;
  mesh_code : list byte;
  dem_type : list byte;
  elevation_list : list float;
  has_lower_corner : bool;
  has_upper_corner : bool;
  has_grid_envelope : bool;
  has_start_point : bool;
  has_mesh_code : bool;
  has_dem_type : bool;
  has_tuple_list : bool
}.

(** The default-constructed [ParsedData]. *)
Definition ParsedData_default : ParsedData :=
  {| lower_corner_x := 0; lower_corner_y := 0;
     upper_corner_x := 0; upper_corner_y := 0;
     grid_low_x := 0; grid_low_y := 0; grid_high_x := 0; grid_high_y := 0;
     start_x := 0; start_y := 0;
     mesh_code := []; dem_type := []; elevation_list := [];
     has_lower_corner := false; has_upper_corner := false;
     has_grid_envelope := false; has_start_point := false;
     has_mesh_code := false; has_dem_type := false;
     has_tuple_list := false |}.

(** ** The accessors of [XmlParser] (xml_parser.cpp) *)

Record TuplePoint : Type := mkTuplePoint { tp_x : float; tp_y : float }.

Record GridEnvelope : Type := mkGridEnvelope {
  low_x : Z; low_y : Z; high_x : Z; high_y : Z
}.

Record StartPoint : Type := mkStartPoint { sp_x : float; sp_y : float }.

Definition get_lower_corner (d : ParsedData) : option TuplePoint :=
  if has_lower_corner d
  then Some (mkTuplePoint (lower_corner_x d) (lower_corner_y d)) else None.

Definition get_upper_corner (d : ParsedData) : option TuplePoint :=
  if has_upper_corner d
  then Some (mkTuplePoint (upper_corner_x d) (upper_corner_y d)) else None.

Definition get_grid_envelope (d : ParsedData) : option GridEnvelope :=
  if has_grid_envelope d
  then Some (mkGridEnvelope (grid_low_x d) (grid_low_y d)
                            (grid_high_x d) (grid_high_y d))
  else None.

Definition get_start_point (d : ParsedData) : option StartPoint :=
  if has_start_point d
  then Some (mkStartPoint (start_x d) (start_y d)) else None.

(** The tuple list comes back as a vector holding one row, the elevations. *)
Definition get_tuple_list (d : ParsedData) : option (list (list float)) :=
  if has_tuple_list d then Some [elevation_list d] else None.

(** ** [FlatArray2D<double>] (flat_array_2d.hpp) *)

Module FlatArray2D.

Record t : Type := mk { data_ : list float; width_ : Z; height_ : Z }.

(** The largest number of elements a [std::vector] is created with; the heap
    itself is not bounded. A request above it throws [std::length_error]. *)
Definition vector_max_size : Z := 2 ^ 63 - 1.

(** [FlatArray2D(height, width, init_value)]: [height * width] is a [size_t]
    product. *)
Definition make (height width : Z) (init_value : float) : option t :=
  let h := to_size_t height in
  let w := to_size_t width in
  let n := (h * w) mod size_modulus in
  if n <=? vector_max_size
  then Some (mk (replicate (Z.to_nat n) init_value) w h)
  else None.

(** The index of [operator()(row, col)]: [row * width_ + col] in [size_t]. *)
Definition index (a : t) (row col : Z) : Z :=
  (to_size_t row * width_ a + to_size_t col) mod size_modulus.

(** [array(row, col) = v]: an unchecked [data_[...]], defined inside the
    buffer only. *)
Definition set (a : t) (row col : Z) (v : float) : option t :=
  let i := index a row col in
  if i <? Z.of_nat (length (data_ a))
  then Some (mk (<[Z.to_nat i := v]> (data_ a)) (width_ a) (height_ a))
  else None.

(** The elements [row(y) .. row(y) + width_) of the buffer. *)
Definition row_copy (a : t) (y : nat) : list float :=
  take (Z.to_nat (width_ a)) (drop (y * Z.to_nat (width_ a)) (data_ a)).

(** [to_2d_vector]: reserves [height_] rows, then copies row by row. *)
Definition to_2d_vector (a : t) : option (list (list float)) :=
  if negb (height_ a <=? vector_max_size) then None
  else if negb (height_ a * width_ a <=? Z.of_nat (length (data_ a))) then None
  else Some (row_copy a <$> seq 0 (Z.to_nat (height_ a))).

End FlatArray2D.

(** ** The grid builder (dem.cpp, [Dem::get_np_array]) *)

Section GridBuilder.

Variable elevation : list float.
Variable x_length : Z.

(** The inner loop,
    [for (x = current_start_x; x < x_length && index < elevation.size(); ++x)];
    [steps] counts the values of [x] below [x_length] that are left. *)
Fixpoint fill_row (steps : nat) (y x : Z) (index : nat) (a : FlatArray2D.t)
    : option (FlatArray2D.t * nat) :=
  match steps with
  | O => Some (a, index)
  | S k =>
      match elevation !! index with
      | None => Some (a, index)
      | Some v =>
          match FlatArray2D.set a y x v with
          | None => None
          | Some a' => fill_row k y (x + 1) (S index) a'
          end
      end
  end.

(** The outer loop,
    [for (y = start_y; y < y_length && index < elevation.size(); ++y)];
    after the first row [current_start_x] is 0. *)
Fixpoint fill_rows (steps : nat) (y current_start_x : Z) (index : nat)
    (a : FlatArray2D.t) : option FlatArray2D.t :=
  match steps with
  | O => Some a
  | S k =>
      if bool_decide (index < length elevation)%nat then
        match fill_row (Z.to_nat (x_length - current_start_x)) y
                       current_start_x index a with
        | None => None
        | Some (a', index') => fill_rows k (y + 1) 0 index' a'
        end
      else Some a
  end.

End GridBuilder.

(** [Dem::get_np_array] from the parsed document on. [Some []] is the empty
    array [{}] of the early returns. *)
Definition get_np_array_parsed (d : ParsedData) : option (list (list float)) :=
  match get_tuple_list d with
  | None => Some []
  | Some [] => Some []
  | Some (elevation :: _) =>
      match get_grid_envelope d, get_start_point d with
      | Some envelope, Some start =>
          let x_length := high_x envelope - low_x envelope + 1 in
          let y_length := high_y envelope - low_y envelope + 1 in
          match double_to_int (sp_x start), double_to_int (sp_y start) with
          | Some start_x, Some start_y =>
              match FlatArray2D.make y_length x_length sentinel with
              | None => None
              | Some array =>
                  match fill_rows elevation x_length
                          (Z.to_nat (y_length - start_y)) start_y start_x
                          0%nat array with
                  | None => None
                  | Some array' => FlatArray2D.to_2d_vector array'
                  end
              end
          | _, _ => None
          end
      | _, _ => Some []
      end
  end.

(** ** The single-pass document parser (fast_fgd_parser.hpp, simd_utils.hpp) *)

(** A [const char*] range [ptr, end) is the list of its bytes; advancing [ptr]
    drops bytes from the front. *)
Definition text : Type := list byte.

Definition byte_eqb (a b : byte) : bool := Byte.eqb a b.

(** [operator==] of two [std::string_view]s. *)
Fixpoint bytes_eqb (a b : text) : bool :=
  match a, b with
  | [], [] => true
  | x :: a', y :: b' => byte_eqb x y && bytes_eqb a' b'
  | _, _ => false
  end.

Definition is_space (b : byte) : bool :=
  byte_eqb b " "%byte || byte_eqb b x0a || byte_eqb b x0d || byte_eqb b x09.

(** [simd::skip_whitespace_simd], and the scalar loops of the same shape. *)
Fixpoint skip_whitespace (s : text) : text :=
  match s with
  | b :: s' => if is_space b then skip_whitespace s' else s
  | [] => []
  end.

(** The bytes before the first byte that satisfies [stop], and the range from
    that byte on: [while (p < end && !stop( *p )) ++p]. *)
Fixpoint span_until (stop : byte -> bool) (s : text) : text * text :=
  match s with
  | b :: s' =>
      if stop b then ([], s)
      else let '(content, rest) := span_until stop s' in (b :: content, rest)
  | [] => ([], [])
  end.

(** [simd::find_char_simd]: the range from the first [target] on, or
    [nullptr]. *)
Fixpoint find_char (target : byte) (s : text) : option text :=
  match s with
  | b :: s' => if byte_eqb b target then Some s else find_char target s'
  | [] => None
  end.

(** [FastFGDParser::starts_with]. *)
Fixpoint starts_with (s pattern : text) : bool :=
  match pattern, s with
  | [], _ => true
  | p :: pattern', b :: s' => byte_eqb b p && starts_with s' pattern'
  | _ :: _, [] => false
  end.

Definition is_lt (b : byte) : bool := byte_eqb b "<"%byte.

(** *** [std::from_chars] for [int] (base 10) *)

Definition digit_of (b : byte) : option Z :=
  let n := Z.of_N (Byte.to_N b) in
  if (48 <=? n) && (n <=? 57) then Some (n - 48) else None.

(** The value of the leading decimal digits, how many they are, and the
    range after them. *)
Fixpoint read_digits (s : text) (acc : Z) (count : nat) : Z * nat * text :=
  match s with
  | b :: s' =>
      match digit_of b with
      | Some dgt => read_digits s' (10 * acc + dgt) (S count)
      | None => (acc, count, s)
      end
  | [] => (acc, count, [])
  end.

(** An optional minus sign and at least one digit; [None] stands for an error
    code ([invalid_argument], or [result_out_of_range] outside [int]), in
    which case the output argument is left as it was. *)
Definition from_chars_int (s : text) : option (Z * text) :=
  let '(negative, s1) :=
    match s with
    | b :: s' => if byte_eqb b "-"%byte then (true, s') else (false, s)
    | [] => (false, [])
    end in
  let '(magnitude, count, rest) := read_digits s1 0 O in
  match count with
  | O => None
  | S _ =>
      let value := if negative then - magnitude else magnitude in
      if in_int_range value then Some (value, rest) else None
  end.

(** The assignments of [parse_all] to its [data], one per recognised tag. *)

(** [gml:lowerCorner]: the two output arguments, then [has_lower_corner = true]. *)
Definition set_lower_corner (d : ParsedData) (v1 v2 : float) : ParsedData :=
  {| lower_corner_x := v1; lower_corner_y := v2;
     upper_corner_x := upper_corner_x d;
     upper_corner_y := upper_corner_y d; grid_low_x := grid_low_x d;
     grid_low_y := grid_low_y d; grid_high_x := grid_high_x d;
     grid_high_y := grid_high_y d; start_x := start_x d;
     start_y := start_y d; mesh_code := mesh_code d;
     dem_type := dem_type d; elevation_list := elevation_list d;
     has_lower_corner := true; has_upper_corner := has_upper_corner d;
     has_grid_envelope := has_grid_envelope d;
     has_start_point := has_start_point d;
     has_mesh_code := has_mesh_code d; has_dem_type := has_dem_type d;
     has_tuple_list := has_tuple_list d |}.

(** [gml:upperCorner]. *)
Definition set_upper_corner (d : ParsedData) (v1 v2 : float) : ParsedData :=
  {| lower_corner_x := lower_corner_x d;
     lower_corner_y := lower_corner_y d; upper_corner_x := v1;
     upper_corner_y := v2; grid_low_x := grid_low_x d;
     grid_low_y := grid_low_y d; grid_high_x := grid_high_x d;
     grid_high_y := grid_high_y d; start_x := start_x d;
     start_y := start_y d; mesh_code := mesh_code d;
     dem_type := dem_type d; elevation_list := elevation_list d;
     has_lower_corner := has_lower_corner d; has_upper_corner := true;
     has_grid_envelope := has_grid_envelope d;
     has_start_point := has_start_point d;
     has_mesh_code := has_mesh_code d; has_dem_type := has_dem_type d;
     has_tuple_list := has_tuple_list d |}.

(** [gml:low]: no flag is set. *)
Definition set_grid_low (d : ParsedData) (v1 v2 : Z) : ParsedData :=
  {| lower_corner_x := lower_corner_x d;
     lower_corner_y := lower_corner_y d;
     upper_corner_x := upper_corner_x d;
     upper_corner_y := upper_corner_y d; grid_low_x := v1;
     grid_low_y := v2; grid_high_x := grid_high_x d;
     grid_high_y := grid_high_y d; start_x := start_x d;
     start_y := start_y d; mesh_code := mesh_code d;
     dem_type := dem_type d; elevation_list := elevation_list d;
     has_lower_corner := has_lower_corner d;
     has_upper_corner := has_upper_corner d;
     has_grid_envelope := has_grid_envelope d;
     has_start_point := has_start_point d;
     has_mesh_code := has_mesh_code d; has_dem_type := has_dem_type d;
     has_tuple_list := has_tuple_list d |}.

(** [gml:high]: sets [has_grid_envelope]. *)
Definition set_grid_high (d : ParsedData) (v1 v2 : Z) : ParsedData :=
  {| lower_corner_x := lower_corner_x d;
     lower_corner_y := lower_corner_y d;
     upper_corner_x := upper_corner_x d;
     upper_corner_y := upper_corner_y d; grid_low_x := grid_low_x d;
     grid_low_y := grid_low_y d; grid_high_x := v1; grid_high_y := v2;
     start_x := start_x d; start_y := start_y d; mesh_code := mesh_code d;
     dem_type := dem_type d; elevation_list := elevation_list d;
     has_lower_corner := has_lower_corner d;
     has_upper_corner := has_upper_corner d; has_grid_envelope := true;
     has_start_point := has_start_point d;
     has_mesh_code := has_mesh_code d; has_dem_type := has_dem_type d;
     has_tuple_list := has_tuple_list d |}.

(** [gml:startPoint]. *)
Definition set_start_point (d : ParsedData) (v1 v2 : float) : ParsedData :=
  {| lower_corner_x := lower_corner_x d;
     lower_corner_y := lower_corner_y d;
     upper_corner_x := upper_corner_x d;
     upper_corner_y := upper_corner_y d; grid_low_x := grid_low_x d;
     grid_low_y := grid_low_y d; grid_high_x := grid_high_x d;
     grid_high_y := grid_high_y d; start_x := v1; start_y := v2;
     mesh_code := mesh_code d; dem_type := dem_type d;
     elevation_list := elevation_list d;
     has_lower_corner := has_lower_corner d;
     has_upper_corner := has_upper_corner d;
     has_grid_envelope := has_grid_envelope d; has_start_point := true;
     has_mesh_code := has_mesh_code d; has_dem_type := has_dem_type d;
     has_tuple_list := has_tuple_list d |}.

(** [mesh]. *)
Definition set_mesh_code (d : ParsedData) (code : list byte) : ParsedData :=
  {| lower_corner_x := lower_corner_x d;
     lower_corner_y := lower_corner_y d;
     upper_corner_x := upper_corner_x d;
     upper_corner_y := upper_corner_y d; grid_low_x := grid_low_x d;
     grid_low_y := grid_low_y d; grid_high_x := grid_high_x d;
     grid_high_y := grid_high_y d; start_x := start_x d;
     start_y := start_y d; mesh_code := code; dem_type := dem_type d;
     elevation_list := elevation_list d;
     has_lower_corner := has_lower_corner d;
     has_upper_corner := has_upper_corner d;
     has_grid_envelope := has_grid_envelope d;
     has_start_point := has_start_point d; has_mesh_code := true;
     has_dem_type := has_dem_type d; has_tuple_list := has_tuple_list d |}.

(** [type]. *)
Definition set_dem_type (d : ParsedData) (type : list byte) : ParsedData :=
  {| lower_corner_x := lower_corner_x d;
     lower_corner_y := lower_corner_y d;
     upper_corner_x := upper_corner_x d;
     upper_corner_y := upper_corner_y d; grid_low_x := grid_low_x d;
     grid_low_y := grid_low_y d; grid_high_x := grid_high_x d;
     grid_high_y := grid_high_y d; start_x := start_x d;
     start_y := start_y d; mesh_code := mesh_code d; dem_type := type;
     elevation_list := elevation_list d;
     has_lower_corner := has_lower_corner d;
     has_upper_corner := has_upper_corner d;
     has_grid_envelope := has_grid_envelope d;
     has_start_point := has_start_point d;
     has_mesh_code := has_mesh_code d; has_dem_type := true;
     has_tuple_list := has_tuple_list d |}.

(** [gml:tupleList]. *)
Definition set_tuple_list (d : ParsedData) (elevations : list float) : ParsedData :=
  {| lower_corner_x := lower_corner_x d;
     lower_corner_y := lower_corner_y d;
     upper_corner_x := upper_corner_x d;
     upper_corner_y := upper_corner_y d; grid_low_x := grid_low_x d;
     grid_low_y := grid_low_y d; grid_high_x := grid_high_x d;
     grid_high_y := grid_high_y d; start_x := start_x d;
     start_y := start_y d; mesh_code := mesh_code d;
     dem_type := dem_type d; elevation_list := elevations;
     has_lower_corner := has_lower_corner d;
     has_upper_corner := has_upper_corner d;
     has_grid_envelope := has_grid_envelope d;
     has_start_point := has_start_point d;
     has_mesh_code := has_mesh_code d; has_dem_type := has_dem_type d;
     has_tuple_list := true |}.

Section Parser.

(** [std::from_chars] for [double] on the range it is given: the value and
    the range after the parsed prefix, or [None] for an error code. It is the
    standard library's; the parser is modelled for any behaviour of it. *)
Variable from_chars_double : text -> option (float * text).

(** [FastFGDParser::parse_double_pair]: returns [content_end] and the two
    output arguments. *)
Definition parse_double_pair (s : text) (val1 val2 : float)
    : text * float * float :=
  let s := skip_whitespace s in
  let '(content, content_end) := span_until is_lt s in
  match from_chars_double content with
  | None => (content_end, val1, val2)
  | Some (v1, p1) =>
      match from_chars_double (skip_whitespace p1) with
      | None => (content_end, v1, val2)
      | Some (v2, _) => (content_end, v1, v2)
      end
  end.

(** [FastFGDParser::parse_int_pair]. *)
Definition parse_int_pair (s : text) (val1 val2 : Z) : text * Z * Z :=
  let s := skip_whitespace s in
  let '(content, content_end) := span_until is_lt s in
  match from_chars_int content with
  | None => (content_end, val1, val2)
  | Some (v1, p1) =>
      match from_chars_int (skip_whitespace p1) with
      | None => (content_end, v1, val2)
      | Some (v2, _) => (content_end, v1, v2)
      end
  end.

(** Removal of trailing white space: [while (content_end > content_start &&
    is_space(content_end[-1])) --content_end]. *)
Definition trim_right (s : text) : text :=
  reverse (skip_whitespace (reverse s)).

(** [FastFGDParser::parse_simple_text]: returns the untrimmed end of the
    content and the trimmed content. *)
Definition parse_simple_text (s : text) : text * text :=
  let s := skip_whitespace s in
  let '(content, content_end) := span_until is_lt s in
  (content_end, trim_right content).

(** The two survey types of sea cells, in UTF-8: U+6D77 U+6C34 U+9762
    (sea surface) and U+6D77 U+6C34 U+5E95 U+9762 (sea floor). *)
Definition sea_surface : text :=
  [xe6; xb5; xb7; xe6; xb0; xb4; xe9; x9d; xa2].
Definition sea_floor : text :=
  [xe6; xb5; xb7; xe6; xb0; xb4; xe5; xba; x95; xe9; x9d; xa2].

(** [is_sea_type]. *)
Definition is_sea_type (type : text) : bool :=
  bytes_eqb type sea_surface || bytes_eqb type sea_floor.

(** The value a record pushes, from its type and the outcome of
    [from_chars] on its value: the body of both tuple list loops after
    [parse_ok] is known. *)
Definition record_value (sea_at_zero : bool) (type : text)
    (parsed : option (float * text)) : float :=
  match parsed with
  | Some (value, _) =>
      if sea_at_zero && PrimFloat.leb value sentinel && is_sea_type type
      then 0%float else value
  | None => sentinel
  end.

Definition is_newline (b : byte) : bool := byte_eqb b x0a.

Definition is_comma (b : byte) : bool := byte_eqb b ","%byte.

Definition skip_newline (s : text) : text :=
  match s with
  | b :: s' => if is_newline b then s' else s
  | [] => []
  end.

(** The loop of [FastFGDParser::parse_tuple_list]. [span_until is_comma] is
    the search for the comma: the type is the range before it, and an empty
    rest is the [nullptr] of [find_char]. Every iteration consumes a comma at
    least, [fuel] bounds the iterations, and [None] is a run that did not
    finish within it. *)
Fixpoint parse_tuple_list_loop (sea_at_zero : bool) (fuel : nat) (s : text)
    (elevation_list : list float) : option (text * list float) :=
  match fuel with
  | O => None
  | S fuel' =>
      match s with
      | [] => Some (s, elevation_list)
      | b :: _ =>
          if is_lt b then Some (s, elevation_list)
          else
            match span_until is_comma s with
            | (_, []) => Some (s, elevation_list)
            | (type, _ :: value_start) =>
                let '(value, value_end) :=
                  span_until (fun c => is_newline c || is_lt c) value_start in
                let v := record_value sea_at_zero type (from_chars_double value) in
                parse_tuple_list_loop sea_at_zero fuel' (skip_newline value_end)
                  (elevation_list ++ [v])
            end
      end
  end.

(** [FastFGDParser::parse_tuple_list]: the end pointer and the elevations. *)
Definition parse_tuple_list (s : text) (elevation_list : list float)
    (sea_at_zero : bool) : option (text * list float) :=
  let s := skip_whitespace s in
  parse_tuple_list_loop sea_at_zero (S (length s)) s elevation_list.

Definition tag (name : string) : text := String.list_byte_of_string name.

(** One iteration of the loop of [parse_all] after [ptr] was moved past a
    ['<']: the tag dispatch. The result is the new [ptr], the data, and
    whether the loop is left by its early [break]. *)
Definition dispatch (sea_at_zero : bool) (s : text) (data : ParsedData)
    : option (text * ParsedData * bool) :=
  if starts_with s (tag "gml:lowerCorner>") then
    let '(p, v1, v2) :=
      parse_double_pair (drop 16 s) (lower_corner_x data) (lower_corner_y data) in
    Some (p, set_lower_corner data v1 v2, false)
  else if starts_with s (tag "gml:upperCorner>") then
    let '(p, v1, v2) :=
      parse_double_pair (drop 16 s) (upper_corner_x data) (upper_corner_y data) in
    Some (p, set_upper_corner data v1 v2, false)
  else if starts_with s (tag "gml:low>") then
    let '(p, v1, v2) :=
      parse_int_pair (drop 8 s) (grid_low_x data) (grid_low_y data) in
    Some (p, set_grid_low data v1 v2, false)
  else if starts_with s (tag "gml:high>") then
    let '(p, v1, v2) :=
      parse_int_pair (drop 9 s) (grid_high_x data) (grid_high_y data) in
    Some (p, set_grid_high data v1 v2, false)
  else if starts_with s (tag "gml:startPoint>") then
    let '(p, v1, v2) :=
      parse_double_pair (drop 15 s) (start_x data) (start_y data) in
    Some (p, set_start_point data v1 v2, false)
  else if starts_with s (tag "mesh>") then
    let '(p, code) := parse_simple_text (drop 5 s) in
    Some (p, set_mesh_code data code, false)
  else if starts_with s (tag "type>") then
    let '(p, type) := parse_simple_text (drop 5 s) in
    Some (p, set_dem_type data type, false)
  else if starts_with s (tag "gml:tupleList>") then
    match parse_tuple_list (drop 14 s) (elevation_list data) sea_at_zero with
    | None => None
    | Some (p, elevations) =>
        let data := set_tuple_list data elevations in
        Some (p, data,
              has_lower_corner data && has_upper_corner data &&
              has_grid_envelope data && has_start_point data)
    end
  else Some (s, data, false).

(** The scanning loop of [parse_all]: find the next ['<'], skip it,
    dispatch. Every iteration consumes that ['<']. *)
Fixpoint parse_all_loop (sea_at_zero : bool) (fuel : nat) (s : text)
    (data : ParsedData) : option ParsedData :=
  match fuel with
  | O => None
  | S fuel' =>
      match find_char "<"%byte s with
      | None => Some data
      | Some at_lt =>
          match dispatch sea_at_zero (drop 1 at_lt) data with
          | None => None
          | Some (_, data', true) => Some data'
          | Some (s', data', false) =>
              parse_all_loop sea_at_zero fuel' s' data'
          end
      end
  end.

(** [FastFGDParser::parse_all]. Its [std::optional] result is [Some] on its
    only [return]; the outer [option] of the model is [None] for a run that
    does not reach that [return]. The reservation of the elevation vector
    before the loop does not change the result and is left out. *)
Definition parse_all (xml : text) (sea_at_zero : bool)
    : option (option ParsedData) :=
  match parse_all_loop sea_at_zero (S (length xml)) xml ParsedData_default with
  | Some data => Some (Some data)
  | None => None
  end.

(** *** [FastTupleListParser::parse] (fast_tuple_list_parser.hpp) *)

Fixpoint tuple_parse_loop (sea_at_zero : bool) (fuel : nat) (s : text)
    (elevation_list : list float) : option (list float) :=
  match fuel with
  | O => None
  | S fuel' =>
      match s with
      | [] => Some elevation_list
      | _ :: _ =>
          match span_until is_comma s with
          | (_, []) => Some elevation_list
          | (type, _ :: value_start) =>
              let '(value, value_end) := span_until is_newline value_start in
              let v := record_value sea_at_zero type (from_chars_double value) in
              tuple_parse_loop sea_at_zero fuel' (skip_newline value_end)
                (elevation_list ++ [v])
          end
      end
  end.

Definition FastTupleListParser_parse (s : text) (sea_at_zero : bool)
    : option (list float) :=
  let s := skip_newline s in
  tuple_parse_loop sea_at_zero (S (length s)) s [].

(** *** [XmlParser::Impl::Impl] (xml_parser.cpp) *)

Inductive constructed : Type :=
  | Constructed (data : ParsedData)
  | Thrown.

(** The constructor parses with [sea_at_zero = true] and throws when
    [parse_all] returns [std::nullopt]. *)
Definition XmlParser_new (xml_content : text) : option constructed :=
  match parse_all xml_content true with
  | Some (Some parsed) => Some (Constructed parsed)
  | Some None => Some Thrown
  | None => None
  end.

End Parser.

(** [Dem::get_np_array]: the parser is constructed on the document, then the
    grid is built; [None] when the constructor throws. *)
Definition get_np_array (from_chars_double : text -> option (float * text))
    (xml_content : text) : option (list (list float)) :=
  match XmlParser_new from_chars_double xml_content with
  | Some (Constructed data) => get_np_array_parsed data
  | Some Thrown => None
  | None => None
  end.

(** *** A reference instance of [std::from_chars] for [double]

    Plain decimal literals: an optional minus sign, digits with an optional
    fraction, an optional exponent, rounded to the nearest binary64 value;
    an overflow to infinity or an underflow to zero is the error
    [result_out_of_range]. The special values and other formats of the
    standard function are not recognised here. The examples below run the
    parser with this instance. *)

Definition is_exponent_mark (b : byte) : bool :=
  byte_eqb b "e"%byte || byte_eqb b "E"%byte.

(** The exponent part, when it has digits: its value and the range after. *)
Definition read_exponent (s : text) : Z * text :=
  match s with
  | b :: s' =>
      if is_exponent_mark b then
        let '(negative, s1) :=
          match s' with
          | c :: s'' =>
              if byte_eqb c "-"%byte then (true, s'')
              else if byte_eqb c "+"%byte then (false, s'')
              else (false, s')
          | [] => (false, [])
          end in
        let '(value, count, rest) := read_digits s1 0 O in
        match count with
        | O => (0, s)
        | S _ => (if negative then - value else value, rest)
        end
      else (0, s)
  | [] => (0, [])
  end.

(** The binary64 value nearest to [(-1)^negative * mantissa * 10^exponent]. *)
Definition decimal_to_double (negative : bool) (mantissa exponent : Z)
    : spec_float :=
  match mantissa with
  | Zpos m =>
      if 0 <=? exponent
      then binary_normalize 53 1024
             ((if negative then -1 else 1) * (mantissa * 10 ^ exponent)) 0 negative
      else SFdiv 53 1024 (S754_finite negative m 0)
             (S754_finite false (Z.to_pos (10 ^ (- exponent))) 0)
  | _ => S754_zero negative
  end.

Definition from_chars_decimal (s : text) : option (float * text) :=
  let '(negative, s1) :=
    match s with
    | b :: s' => if byte_eqb b "-"%byte then (true, s') else (false, s)
    | [] => (false, [])
    end in
  let '(int_part, int_count, s2) := read_digits s1 0 O in
  let '(mantissa, frac_count, s3) :=
    match s2 with
    | b :: s' =>
        if byte_eqb b "."%byte then read_digits s' int_part O
        else (int_part, O, s2)
    | [] => (int_part, O, [])
    end in
  match (int_count + frac_count)%nat with
  | O => None
  | S _ =>
      let '(exponent, rest) := read_exponent s3 in
      let value := decimal_to_double negative mantissa
                     (exponent - Z.of_nat frac_count) in
      match value with
      | S754_infinity _ => None
      | S754_nan => None
      | S754_zero _ =>
          if mantissa =? 0 then Some (SF2Prim value, rest) else None
      | S754_finite _ _ _ => Some (SF2Prim value, rest)
      end
  end.

(** ** Mesh metadata and global bounds (dem.hpp, dem.cpp) *)

Module Metadata.

Record t : Type := mk {
  mesh_code : text;
  file_name : text;
  type : text;
  lower_corner_x : float;
  lower_corner_y : float;
  upper_corner_x : float;
  upper_corner_y : float;
  x_length : Z;
  y_length : Z;
  start_x : float;
  start_y : float
}.

End Metadata.

Record BoundsLatLng : Type := mkBounds {
  min_lat : float; max_lat : float; min_lng : float; max_lng : float
}.

(** [Dem::format_metadata]: members without a parsed value keep their
    value-initialised zero. *)
Definition format_metadata (d : ParsedData) (code : text) : Metadata.t :=
  let lower := get_lower_corner d in
  let upper := get_upper_corner d in
  let envelope := get_grid_envelope d in
  let start := get_start_point d in
  {| Metadata.mesh_code := code;
     Metadata.file_name := [];
     Metadata.type := if has_dem_type d then dem_type d else [];
     Metadata.lower_corner_x := from_option tp_x 0%float lower;
     Metadata.lower_corner_y := from_option tp_y 0%float lower;
     Metadata.upper_corner_x := from_option tp_x 0%float upper;
     Metadata.upper_corner_y := from_option tp_y 0%float upper;
     Metadata.x_length := from_option (fun e => high_x e - low_x e + 1) 0 envelope;
     Metadata.y_length := from_option (fun e => high_y e - low_y e + 1) 0 envelope;
     Metadata.start_x := from_option sp_x 0%float start;
     Metadata.start_y := from_option sp_y 0%float start |}.

(** [std::min] and [std::max] on doubles. *)
Definition fmin (a b : float) : float := if PrimFloat.ltb b a then b else a.
Definition fmax (a b : float) : float := if PrimFloat.ltb a b then b else a.

(** [std::numeric_limits<double>::max()] and [lowest()]. *)
Definition DBL_MAX : float := 0x1.fffffffffffffp+1023%float.
Definition DBL_LOWEST : float := (- DBL_MAX)%float.

(** [Dem::store_bounds_latlng]: the value-initialised bounds stay when there
    is no mesh. *)
Definition store_bounds_latlng (meta_data_list : list Metadata.t)
    : BoundsLatLng :=
  match meta_data_list with
  | [] => mkBounds 0 0 0 0
  | _ :: _ =>
      foldl (fun b metadata =>
               mkBounds (fmin (min_lat b) (Metadata.lower_corner_x metadata))
                        (fmax (max_lat b) (Metadata.upper_corner_x metadata))
                        (fmin (min_lng b) (Metadata.lower_corner_y metadata))
                        (fmax (max_lng b) (Metadata.upper_corner_y metadata)))
            (mkBounds DBL_MAX DBL_LOWEST DBL_MAX DBL_LOWEST)
            meta_data_list
  end.

(** ** The mosaic assembler (converter.cpp) *)

(** The pixel sizes of a mesh: its corner spans over its grid dimensions. *)
Definition pixel_size_x (m : Metadata.t) : float :=
  ((Metadata.upper_corner_y m - Metadata.lower_corner_y m)
   / int_to_double (Metadata.x_length m))%float.

Definition pixel_size_y (m : Metadata.t) : float :=
  ((Metadata.lower_corner_x m - Metadata.upper_corner_x m)
   / int_to_double (Metadata.y_length m))%float.

(** [Converter::calc_image_size]; [None] where a cast to [int] is undefined. *)
Definition calc_image_size (bounds : BoundsLatLng)
    (meta_data_list : list Metadata.t) : option (Z * Z) :=
  match meta_data_list with
  | [] => Some (0, 0)
  | m0 :: _ =>
      match round_to_int
              (PrimFloat.abs ((max_lng bounds - min_lng bounds) / pixel_size_x m0)),
            round_to_int
              (PrimFloat.abs ((max_lat bounds - min_lat bounds) / pixel_size_y m0))
      with
      | Some x_length, Some y_length => Some (x_length, y_length)
      | _, _ => None
      end
  end.

(** The clip adjustments of one row copy: the source start, the destination
    start and the copy length that reach [memcpy]. *)
Definition clip (column_start x_len total_x src_size : Z) : Z * Z * Z :=
  let src_start := 0 in
  let dst_start := column_start in
  let copy_len := x_len in
  let '(src_start, copy_len, dst_start) :=
    if dst_start <? 0 then (- dst_start, copy_len + dst_start, 0)
    else (src_start, copy_len, dst_start) in
  let copy_len :=
    if total_x <? dst_start + copy_len then total_x - dst_start else copy_len in
  let src_available := src_size - src_start in
  let copy_len := if src_available <? copy_len then src_available else copy_len in
  (src_start, dst_start, copy_len).

(** [std::memcpy(&dst[dst_start], &src[src_start], copy_len * sizeof(double))]
    for a positive [copy_len]: defined when both ranges lie inside their
    vectors. *)
Definition memcpy (dst : list float) (dst_start : Z) (src : list float)
    (src_start copy_len : Z) : option (list float) :=
  if (0 <=? dst_start) && (dst_start + copy_len <=? Z.of_nat (length dst)) &&
     (0 <=? src_start) && (src_start + copy_len <=? Z.of_nat (length src))
  then Some (take (Z.to_nat dst_start) dst
             ++ take (Z.to_nat copy_len) (drop (Z.to_nat src_start) src)
             ++ drop (Z.to_nat (dst_start + copy_len)) dst)
  else None.

Section Placement.

Variables total_x total_y : Z.
Variables row_start column_start x_len y_len : Z.

(** The body of the row loop for source row [y]. *)
Definition place_row (y : Z) (src : list float)
    (combined_array : list (list float)) : option (list (list float)) :=
  let target_row := row_start + y in
  if (target_row <? 0) || (total_y <=? target_row) then Some combined_array
  else
    let '(src_start, dst_start, copy_len) :=
      clip column_start x_len total_x (Z.of_nat (length src)) in
    if 0 <? copy_len then
      match combined_array !! Z.to_nat target_row with
      | None => None
      | Some dst =>
          match memcpy dst dst_start src src_start copy_len with
          | None => None
          | Some dst' => Some (<[Z.to_nat target_row := dst']> combined_array)
          end
      end
    else Some combined_array.

(** The row loop, [for (y = 0; y < y_len && y < np_array.size(); ++y)], from
    row [y] on; [np_array] holds the source rows that are left. *)
Fixpoint place_rows (y : Z) (np_array : list (list float))
    (combined_array : list (list float)) : option (list (list float)) :=
  match np_array with
  | [] => Some combined_array
  | src :: np_array' =>
      if y <? y_len then
        match place_row y src combined_array with
        | None => None
        | Some combined_array' => place_rows (y + 1) np_array' combined_array'
        end
      else Some combined_array
  end.

End Placement.

(** The placement of one mesh: its pixel offsets from the lower left corner
    of the bounds, then the row loop. *)
Definition place_mesh (bounds : BoundsLatLng) (size_x size_y : float)
    (total_x total_y : Z) (metadata : Metadata.t) (np_array : list (list float))
    (combined_array : list (list float)) : option (list (list float)) :=
  let lat_distance := (Metadata.lower_corner_x metadata - min_lat bounds)%float in
  let lon_distance := (Metadata.lower_corner_y metadata - min_lng bounds)%float in
  match round_to_int (lon_distance / size_x),
        round_to_int (lat_distance / (- size_y)) with
  | Some x_coordinate, Some y_coordinate =>
      let x_len := Metadata.x_length metadata in
      let y_len := Metadata.y_length metadata in
      let row_start := total_y - (y_coordinate + y_len) in
      let column_start := x_coordinate in
      place_rows total_x total_y row_start column_start x_len y_len
                 0 np_array combined_array
  | _, _ => None
  end.

(** The mesh loop, [for (i = 0; i < meta_data_list.size() &&
    i < np_array_list.size(); ++i)]. *)
Fixpoint place_meshes (bounds : BoundsLatLng) (size_x size_y : float)
    (total_x total_y : Z) (meta_data_list : list Metadata.t)
    (np_array_list : list (list (list float)))
    (combined_array : list (list float)) : option (list (list float)) :=
  match meta_data_list, np_array_list with
  | metadata :: meta_data_list', np_array :: np_array_list' =>
      match place_mesh bounds size_x size_y total_x total_y metadata np_array
                       combined_array with
      | None => None
      | Some combined_array' =>
          place_meshes bounds size_x size_y total_x total_y
                       meta_data_list' np_array_list' combined_array'
      end
  | _, _ => Some combined_array
  end.

(** [Converter::combine_meta_data_and_contents]. It reads
    [meta_data_list[0]], so it is not defined on an empty list; its caller
    checks that. *)
Definition combine_meta_data_and_contents (bounds : BoundsLatLng)
    (meta_data_list : list Metadata.t)
    (np_array_list : list (list (list float)))
    : option (list (list float) * Z * Z) :=
  match calc_image_size bounds meta_data_list, meta_data_list with
  | Some (total_x, total_y), m0 :: _ =>
      let combined_array :=
        replicate (Z.to_nat total_y) (replicate (Z.to_nat total_x) sentinel) in
      match place_meshes bounds (pixel_size_x m0) (pixel_size_y m0)
                         total_x total_y meta_data_list np_array_list
                         combined_array with
      | Some combined_array' => Some (combined_array', total_x, total_y)
      | None => None
      end
  | _, _ => None
  end.

(** The canvas sizes in the words of the specification:
    [round(|max - min| / pixel_size)]. *)
Definition total_as_specified (max_bound min_bound size : float) : option Z :=
  round_to_int (PrimFloat.abs (max_bound - min_bound) / size).

(** ** Counted loops over a pixel buffer (geotiff.cpp)

    The pixel loops of the reprojector and of the merger have one shape:
    [for (row = 0; row < rows; ++row) for (col = 0; col < cols; ++col)] with
    a body that writes at most one element of a flat buffer. *)

(** [for (i = from; i < from + steps; ++i) state = body(i, state)], stopped
    by the first undefined step. *)
Fixpoint for_loop {S : Type} (steps : nat) (i : Z) (body : Z -> S -> option S)
    (state : S) : option S :=
  match steps with
  | O => Some state
  | S k =>
      match body i state with
      | None => None
      | Some state' => for_loop k (i + 1) body state'
      end
  end.

(** [for (i = 0; i < n; ++i)]. *)
Definition for_range {S : Type} (n : Z) (body : Z -> S -> option S)
    (state : S) : option S :=
  for_loop (Z.to_nat n) 0 body state.

(** What the body of a pixel loop does to the output buffer. *)
Inductive action : Type :=
  | Skip
  | Write (index : Z) (value : float).

(** [buffer[index] = value] on a [std::vector], with the [size_t] index it is
    computed to: defined inside the vector. *)
Definition run_action (a : action) (buffer : list float) : option (list float) :=
  match a with
  | Skip => Some buffer
  | Write index value =>
      if (0 <=? index) && (index <? Z.of_nat (length buffer))
      then Some (<[Z.to_nat index := value]> buffer)
      else None
  end.

(** The two nested loops over [rows] and [cols] with the body [pixel]. *)
Definition pixel_loop (rows cols : Z) (pixel : Z -> Z -> option action)
    (buffer : list float) : option (list float) :=
  for_range rows
    (fun row => for_range cols
       (fun col buffer =>
          match pixel row col with
          | None => None
          | Some a => run_action a buffer
          end))
    buffer.

(** The [size_t] index [row * width + col] of a flat raster. *)
Definition flat_index (row width col : Z) : Z :=
  (to_size_t row * to_size_t width + to_size_t col) mod size_modulus.

(** ** Rasters (geotiff.cpp, [GeoTiffData]) *)

Module GeoTiff.

(** [geo_transform] is [x_origin, pixel_width, 0, y_origin, 0, -pixel_height];
    [data] holds [float] values. *)
Record Data : Type := mkData {
  data : list float;
  width : Z;
  height : Z;
  geo_transform_0 : float;
  geo_transform_1 : float;
  geo_transform_2 : float;
  geo_transform_3 : float;
  geo_transform_4 : float;
  geo_transform_5 : float;
  epsg : Z;
  nodata_value : float;
  has_nodata : bool
}.

(** [src.data[static_cast<size_t>(row) * src.width + col]]. *)
Definition sample (src : Data) (row col : Z) : option float :=
  data src !! Z.to_nat (flat_index row (width src) col).

(** [value == src.nodata_value]. *)
Definition is_nodata (src : Data) (value : float) : bool :=
  PrimFloat.eqb value (nodata_value src).

End GeoTiff.

(** ** The reprojector (geotiff.cpp, [GeoTiff::resampling]) *)

(** The 2 x 2 neighbourhood of [(row0, col0)] lies inside the source
    raster. *)
Definition neighbourhood_inside (src : GeoTiff.Data) (row0 col0 : Z) : bool :=
  (0 <=? col0) && (col0 + 1 <? GeoTiff.width src) &&
  (0 <=? row0) && (row0 + 1 <? GeoTiff.height src).


(** A coordinate transform of the reprojection primitive:
    [proj_trans(transform, PJ_FWD, proj_coord(x, y, 0, 0)).xy]. *)
Definition transform : Type := float -> float -> float * float.

(** The bilinear blend of the four neighbours, computed in [double] and cast
    to [float]. *)
Definition bilinear (dx dy v00 v01 v10 v11 : float) : float :=
  double_to_float
    ((1 - dx) * (1 - dy) * v00 + dx * (1 - dy) * v01
     + (1 - dx) * dy * v10 + dx * dy * v11)%float.

(** The destination grid: its origin, pixel sizes and dimensions. *)
Record Geometry : Type := mkGeometry {
  dst_min_x : float;
  dst_max_y : float;
  dst_pixel_width : float;
  dst_pixel_height : float;
  dst_width : Z;
  dst_height : Z
}.

Section Resample.

Variable src_data : GeoTiff.Data.
Variable inv_transform : transform.
Variable g : Geometry.

(** The fractional source pixel coordinates [(src_col_f, src_row_f)] of the
    centre of a destination pixel. *)
Definition source_position (dst_row dst_col : Z) : float * float :=
  let dst_x :=
    (dst_min_x g + (int_to_double dst_col + 0.5) * dst_pixel_width g)%float in
  let dst_y :=
    (dst_max_y g - (int_to_double dst_row + 0.5) * dst_pixel_height g)%float in
  let '(src_x, src_y) := inv_transform dst_x dst_y in
  (((src_x - GeoTiff.geo_transform_0 src_data)
    / GeoTiff.geo_transform_1 src_data - 0.5)%float,
   ((GeoTiff.geo_transform_3 src_data - src_y)
    / (- GeoTiff.geo_transform_5 src_data) - 0.5)%float).

(** The body of the pixel loop. *)
Definition resample_pixel (dst_row dst_col : Z) : option action :=
  let '(src_col_f, src_row_f) := source_position dst_row dst_col in
  match floor_to_int src_col_f, floor_to_int src_row_f with
  | Some src_col0, Some src_row0 =>
      let src_col1 := src_col0 + 1 in
      let src_row1 := src_row0 + 1 in
      if (0 <=? src_col0) && (src_col1 <? GeoTiff.width src_data) &&
         (0 <=? src_row0) && (src_row1 <? GeoTiff.height src_data)
      then
        let dx := (src_col_f - int_to_double src_col0)%float in
        let dy := (src_row_f - int_to_double src_row0)%float in
        match GeoTiff.sample src_data src_row0 src_col0,
              GeoTiff.sample src_data src_row0 src_col1,
              GeoTiff.sample src_data src_row1 src_col0,
              GeoTiff.sample src_data src_row1 src_col1 with
        | Some v00, Some v01, Some v10, Some v11 =>
            if GeoTiff.has_nodata src_data &&
               (GeoTiff.is_nodata src_data v00 || GeoTiff.is_nodata src_data v01 ||
                GeoTiff.is_nodata src_data v10 || GeoTiff.is_nodata src_data v11)
            then Some Skip
            else Some (Write (flat_index dst_row (dst_width g) dst_col)
                             (bilinear dx dy v00 v01 v10 v11))
        | _, _, _, _ => None
        end
      else Some Skip
  | _, _ => None
  end.

(** The output buffer, [resize(size_t(dst_width) * dst_height, nodata)], and
    the pixel loop over it. *)
Definition resample_pixels : option (list float) :=
  let n := (to_size_t (dst_width g) * to_size_t (dst_height g)) mod size_modulus in
  pixel_loop (dst_height g) (dst_width g) resample_pixel
             (replicate (Z.to_nat n) (GeoTiff.nodata_value src_data)).

End Resample.

(** The pixel of the destination raster in the words of the specification:
    the blend when the 2 x 2 neighbourhood of [(row0, col0)] lies inside the
    source raster and, with a declared no-data value, none of the four
    samples equals it; the no-data default otherwise. *)
Definition specified_pixel (src : GeoTiff.Data) (src_col_f src_row_f : float)
    (row0 col0 : Z) : float :=
  if neighbourhood_inside src row0 col0 then
    match GeoTiff.sample src row0 col0, GeoTiff.sample src row0 (col0 + 1),
          GeoTiff.sample src (row0 + 1) col0,
          GeoTiff.sample src (row0 + 1) (col0 + 1) with
    | Some v00, Some v01, Some v10, Some v11 =>
        if GeoTiff.has_nodata src &&
           (GeoTiff.is_nodata src v00 || GeoTiff.is_nodata src v01 ||
            GeoTiff.is_nodata src v10 || GeoTiff.is_nodata src v11)
        then GeoTiff.nodata_value src
        else bilinear (src_col_f - int_to_double col0)
                      (src_row_f - int_to_double row0) v00 v01 v10 v11
    | _, _, _, _ => GeoTiff.nodata_value src
    end
  else GeoTiff.nodata_value src.

(** The destination grid of a source raster: the bounding box of its four
    projected corners, the source pixel sizes scaled by 111000, and the
    dimensions that cover the box, at least 1 by 1. *)
Definition destination_geometry (src_data : GeoTiff.Data) (forward : transform)
    : option Geometry :=
  let x0 := GeoTiff.geo_transform_0 src_data in
  let y0 := GeoTiff.geo_transform_3 src_data in
  let x1 := (x0 + int_to_double (GeoTiff.width src_data)
                  * GeoTiff.geo_transform_1 src_data)%float in
  let y1 := (y0 + int_to_double (GeoTiff.height src_data)
                  * GeoTiff.geo_transform_5 src_data)%float in
  let corners := [forward x0 y0; forward x1 y0; forward x0 y1; forward x1 y1] in
  let min_x := foldl (fun m p => fmin m p.1) DBL_MAX corners in
  let max_x := foldl (fun m p => fmax m p.1) DBL_LOWEST corners in
  let min_y := foldl (fun m p => fmin m p.2) DBL_MAX corners in
  let max_y := foldl (fun m p => fmax m p.2) DBL_LOWEST corners in
  let pixel_width := (GeoTiff.geo_transform_1 src_data * 111000)%float in
  let pixel_height := (- GeoTiff.geo_transform_5 src_data * 111000)%float in
  match ceil_to_int ((max_x - min_x) / pixel_width),
        ceil_to_int ((max_y - min_y) / pixel_height) with
  | Some w, Some h =>
      Some (mkGeometry min_x max_y pixel_width pixel_height
                       (Z.max w 1) (Z.max h 1))
  | _, _ => None
  end.

(** [isspace] in the "C" locale. *)
Definition is_cspace (b : byte) : bool :=
  is_space b || byte_eqb b x0b || byte_eqb b x0c.

Fixpoint skip_cspace (s : text) : text :=
  match s with
  | b :: s' => if is_cspace b then skip_cspace s' else s
  | [] => []
  end.

(** [std::stoi]: white space, an optional sign, decimal digits; [None] is
    one of its exceptions ([invalid_argument] without a digit,
    [out_of_range] outside [int]). *)
Definition stoi (s : text) : option Z :=
  let s := skip_cspace s in
  let '(negative, s1) :=
    match s with
    | b :: s' =>
        if byte_eqb b "-"%byte then (true, s')
        else if byte_eqb b "+"%byte then (false, s')
        else (false, s)
    | [] => (false, [])
    end in
  let '(magnitude, count, _) := read_digits s1 0 O in
  match count with
  | O => None
  | S _ =>
      let value := if negative then - magnitude else magnitude in
      if in_int_range value then Some value else None
  end.

(** The EPSG code of the output raster:
    [epsg = 0; if (dst_crs.find("EPSG:") == 0) epsg = stoi(dst_crs.substr(5))]. *)
Definition extract_epsg (dst_crs : text) : option Z :=
  if starts_with dst_crs (tag "EPSG:") then stoi (drop 5 dst_crs) else Some 0.

(** The decimal digit [d] as a character, and the value of a digit string. *)
Definition digit_char (d : Z) : byte :=
  default "0"%byte (Byte.of_N (Z.to_N (48 + d))).

Definition digits_value (ds : list Z) : Z :=
  foldl (fun acc d => 10 * acc + d) 0 ds.

Definition is_digit (d : Z) : Prop := 0 <= d <= 9.

(** The reprojected raster [dst_data] on the grid [g], with its EPSG code. *)
Definition reproject (src_data : GeoTiff.Data) (inverse : transform)
    (g : Geometry) (code : Z) : option GeoTiff.Data :=
  match resample_pixels src_data inverse g with
  | None => None
  | Some pixels =>
      Some {| GeoTiff.data := pixels;
              GeoTiff.width := dst_width g;
              GeoTiff.height := dst_height g;
              GeoTiff.geo_transform_0 := dst_min_x g;
              GeoTiff.geo_transform_1 := dst_pixel_width g;
              GeoTiff.geo_transform_2 := 0;
              GeoTiff.geo_transform_3 := dst_max_y g;
              GeoTiff.geo_transform_4 := 0;
              GeoTiff.geo_transform_5 := (- dst_pixel_height g)%float;
              GeoTiff.epsg := code;
              GeoTiff.nodata_value := GeoTiff.nodata_value src_data;
              GeoTiff.has_nodata := GeoTiff.has_nodata src_data |}
  end.

(** *** The file system and the external primitives *)

Inductive file : Type :=
  | Raster (d : GeoTiff.Data)
  | Unreadable.

(** The files of the storage, by path. *)
Abbreviation file_system := (gmap string file).

Inductive errc : Type :=
  | no_such_file_or_directory
  | not_enough_memory
  | invalid_argument
  | io_error.

(** How [resampling] ends: it returns [true], it returns [false] with an
    error code, an exception leaves it, or its behaviour is undefined. *)
Inductive outcome : Type :=
  | Success
  | Failure (ec : errc)
  | Exception
  | Undefined.

(** The collaborators of the reprojector: the reprojection primitive (PROJ),
    the raster writer and the file operations, each with the answers it
    gives during one run. *)
Record Environment : Type := mkEnvironment {
  (** [proj_context_create] returns a context. *)
  context_created : bool;
  (** [proj_create] recognises the string. *)
  proj_create : text -> bool;
  (** [proj_is_equivalent_to] on the two systems. *)
  proj_is_equivalent_to : text -> text -> bool;
  (** [proj_create_crs_to_crs], normalised for visualisation. *)
  proj_create_crs_to_crs : text -> text -> option transform;
  (** [path.replace_extension(".tmp.tif")]. *)
  temp_path_of : string -> string;
  (** [write_geotiff] writes the whole file. *)
  write_succeeds : bool;
  (** A failed [write_geotiff] leaves a truncated file behind. *)
  write_leaves_partial_file : bool;
  (** [std::filesystem::remove] does not throw. *)
  remove_succeeds : bool;
  (** [std::filesystem::rename] does not throw. *)
  rename_succeeds : bool
}.

(** [read_geotiff]. *)
Definition read_geotiff (fs : file_system) (path : string)
    : option GeoTiff.Data :=
  match fs !! path with
  | Some (Raster d) => Some d
  | _ => None
  end.

(** [write_geotiff]: whether it succeeded, and the storage after it. *)
Definition write_geotiff (env : Environment) (path : string)
    (d : GeoTiff.Data) (fs : file_system) : bool * file_system :=
  if write_succeeds env then (true, <[path := Raster d]> fs)
  else if write_leaves_partial_file env then (false, <[path := Unreadable]> fs)
  else (false, fs).

(** [std::filesystem::remove(path)]; [None] when it throws. *)
Definition fs_remove (env : Environment) (path : string) (fs : file_system)
    : option file_system :=
  if remove_succeeds env then Some (delete path fs) else None.

(** [std::filesystem::rename(from, to)]; [None] when it throws. *)
Definition fs_rename (env : Environment) (from to : string) (fs : file_system)
    : option file_system :=
  if rename_succeeds env then
    match fs !! from with
    | Some f => Some (<[to := f]> (delete from fs))
    | None => None
    end
  else None.

Definition src_crs : text := tag "EPSG:4326".

(** [GeoTiff::resampling]: how it ends, and the storage it leaves. *)
Definition resampling (env : Environment) (output_path : string)
    (output_epsg : text) (fs : file_system) : outcome * file_system :=
  match read_geotiff fs output_path with
  | None => (Failure no_such_file_or_directory, fs)
  | Some src_data =>
      if negb (context_created env) then (Failure not_enough_memory, fs)
      else
        let dst_crs := output_epsg in
        if negb (proj_create env src_crs && proj_create env dst_crs)
        then (Failure invalid_argument, fs)
        else if proj_is_equivalent_to env src_crs dst_crs then (Success, fs)
        else
          match proj_create_crs_to_crs env src_crs dst_crs with
          | None => (Failure invalid_argument, fs)
          | Some forward =>
              match destination_geometry src_data forward with
              | None => (Undefined, fs)
              | Some g =>
                  match proj_create_crs_to_crs env dst_crs src_crs with
                  | None => (Failure invalid_argument, fs)
                  | Some inverse =>
                      match extract_epsg dst_crs with
                      | None => (Exception, fs)
                      | Some code =>
                          match reproject src_data inverse g code with
                          | None => (Undefined, fs)
                          | Some dst_data =>
                              let temp_path := temp_path_of env output_path in
                              match write_geotiff env temp_path dst_data fs with
                              | (false, fs1) => (Failure io_error, fs1)
                              | (true, fs1) =>
                                  match fs_remove env output_path fs1 with
                                  | None => (Exception, fs1)
                                  | Some fs2 =>
                                      match fs_rename env temp_path
                                                      output_path fs2 with
                                      | None => (Exception, fs2)
                                      | Some fs3 => (Success, fs3)
                                      end
                                  end
                              end
                          end
                      end
                  end
              end
          end
  end.

(** The EPSG code of the raster stored at [path]. *)
Definition stored_epsg (fs : file_system) (path : string) : option Z :=
  match fs !! path with
  | Some (Raster d) => Some (GeoTiff.epsg d)
  | _ => None
  end.

(** ** The mosaic merger (geotiff.cpp, [merge_tif_files]) *)

Section Merge.

Variables out_width out_height : Z.

(** The body of the pixel loop for one source raster placed at
    [(dst_row_start, dst_col_start)]. *)
Definition merge_pixel (src : GeoTiff.Data) (dst_row_start dst_col_start : Z)
    (row col : Z) : option action :=
  let dst_row := dst_row_start + row in
  let dst_col := dst_col_start + col in
  if (0 <=? dst_row) && (dst_row <? out_height) &&
     (0 <=? dst_col) && (dst_col <? out_width)
  then
    match GeoTiff.sample src row col with
    | None => None
    | Some value =>
        if negb (GeoTiff.has_nodata src) || negb (GeoTiff.is_nodata src value)
        then Some (Write (flat_index dst_row out_width dst_col) value)
        else Some Skip
    end
  else Some Skip.

Variables min_x max_y pixel_width pixel_height : float.

(** The offsets of a source raster in the output. *)
Definition merge_offsets (src : GeoTiff.Data) : option (Z * Z) :=
  match round_to_int ((max_y - GeoTiff.geo_transform_3 src) / pixel_height),
        round_to_int ((GeoTiff.geo_transform_0 src - min_x) / pixel_width) with
  | Some dst_row_start, Some dst_col_start => Some (dst_row_start, dst_col_start)
  | _, _ => None
  end.

(** One pass of the loop over the datasets. *)
Definition merge_dataset (src : GeoTiff.Data) (output : list float)
    : option (list float) :=
  match merge_offsets src with
  | Some (dst_row_start, dst_col_start) =>
      pixel_loop (GeoTiff.height src) (GeoTiff.width src)
                 (merge_pixel src dst_row_start dst_col_start) output
  | None => None
  end.

(** The loop over the datasets, in the order of the files. *)
Fixpoint merge_datasets (datasets : list GeoTiff.Data) (output : list float)
    : option (list float) :=
  match datasets with
  | [] => Some output
  | src :: datasets' =>
      match merge_dataset src output with
      | None => None
      | Some output' => merge_datasets datasets' output'
      end
  end.

End Merge.

(** The cell of the output at [(dst_row, dst_col)] after a source raster was
    placed at [(dst_row_start, dst_col_start)], in the words of the
    specification: the pixel of the source that lands there replaces the
    value [before] only if it is not the no-data value of the source. *)
Definition merged_cell (src : GeoTiff.Data) (dst_row_start dst_col_start : Z)
    (dst_row dst_col : Z) (before : option float) : option float :=
  let row := dst_row - dst_row_start in
  let col := dst_col - dst_col_start in
  if (0 <=? row) && (row <? GeoTiff.height src) &&
     (0 <=? col) && (col <? GeoTiff.width src)
  then
    match GeoTiff.sample src row col with
    | Some value =>
        if GeoTiff.has_nodata src && GeoTiff.is_nodata src value
        then before else Some value
    | None => before
    end
  else before.

(** The extent, resolution and no-data value of a merge: the union of the
    rasters' boxes, and the pixel sizes, EPSG code and no-data value of the
    first raster whose pixel width is not zero. *)
Record MergeExtent : Type := mkExtent {
  ext_min_x : float; ext_max_x : float; ext_min_y : float; ext_max_y : float;
  ext_pixel_width : float; ext_pixel_height : float;
  ext_epsg : Z; ext_nodata_value : float
}.

Definition merge_extent_step (e : MergeExtent) (d : GeoTiff.Data) : MergeExtent :=
  let x0 := GeoTiff.geo_transform_0 d in
  let y0 := GeoTiff.geo_transform_3 d in
  let x1 := (x0 + int_to_double (GeoTiff.width d) * GeoTiff.geo_transform_1 d)%float in
  let y1 := (y0 + int_to_double (GeoTiff.height d) * GeoTiff.geo_transform_5 d)%float in
  let first := PrimFloat.eqb (ext_pixel_width e) 0 in
  {| ext_min_x := fmin (ext_min_x e) (fmin x0 x1);
     ext_max_x := fmax (ext_max_x e) (fmax x0 x1);
     ext_min_y := fmin (ext_min_y e) (fmin y0 y1);
     ext_max_y := fmax (ext_max_y e) (fmax y0 y1);
     ext_pixel_width :=
       if first then GeoTiff.geo_transform_1 d else ext_pixel_width e;
     ext_pixel_height :=
       if first then (- GeoTiff.geo_transform_5 d)%float else ext_pixel_height e;
     ext_epsg := if first then GeoTiff.epsg d else ext_epsg e;
     ext_nodata_value :=
       if first && GeoTiff.has_nodata d then GeoTiff.nodata_value d
       else ext_nodata_value e |}.

Definition merge_extent (datasets : list GeoTiff.Data) : MergeExtent :=
  foldl merge_extent_step
        (mkExtent DBL_MAX DBL_LOWEST DBL_MAX DBL_LOWEST 0 0 0 (-9999)) datasets.

(** The projected systems in which the resolution override applies. *)
Definition metric_epsg (code : Z) : bool :=
  (code =? 3857) || (code =? 2451) ||
  ((32601 <=? code) && (code <=? 32660)) ||
  ((32701 <=? code) && (code <=? 32760)).

(** The merged raster of [merge_tif_files], from the loaded datasets on. *)
Definition merge_rasters (datasets : list GeoTiff.Data) (resolution : float)
    : option GeoTiff.Data :=
  let e := merge_extent datasets in
  let override := PrimFloat.ltb 0 resolution && metric_epsg (ext_epsg e) in
  let pixel_width := if override then resolution else ext_pixel_width e in
  let pixel_height := if override then resolution else ext_pixel_height e in
  match ceil_to_int ((ext_max_x e - ext_min_x e) / pixel_width),
        ceil_to_int ((ext_max_y e - ext_min_y e) / pixel_height) with
  | Some w, Some h =>
      let out_width := Z.max w 1 in
      let out_height := Z.max h 1 in
      let n := (to_size_t out_width * to_size_t out_height) mod size_modulus in
      match merge_datasets out_width out_height (ext_min_x e) (ext_max_y e)
              pixel_width pixel_height datasets
              (replicate (Z.to_nat n) (ext_nodata_value e)) with
      | None => None
      | Some pixels =>
          Some {| GeoTiff.data := pixels;
                  GeoTiff.width := out_width;
                  GeoTiff.height := out_height;
                  GeoTiff.geo_transform_0 := ext_min_x e;
                  GeoTiff.geo_transform_1 := pixel_width;
                  GeoTiff.geo_transform_2 := 0;
                  GeoTiff.geo_transform_3 := ext_max_y e;
                  GeoTiff.geo_transform_4 := 0;
                  GeoTiff.geo_transform_5 := (- pixel_height)%float;
                  GeoTiff.epsg := ext_epsg e;
                  GeoTiff.nodata_value := ext_nodata_value e;
                  GeoTiff.has_nodata := true |}
      end
  | _, _ => None
  end.

(** *** Header fields and their presence flags

    The fields of the header that [parse_all] recognises by a tag and, the
    low corner of the grid apart, reports through a presence flag. *)

Inductive header_field : Type :=
  | LowerCorner | UpperCorner | GridHigh | StartPointField
  | MeshCode | DemType | TupleList.

(** The text after a ['<'] that selects the field. *)
Definition field_tag (f : header_field) : text :=
  match f with
  | LowerCorner => tag "gml:lowerCorner>"
  | UpperCorner => tag "gml:upperCorner>"
  | GridHigh => tag "gml:high>"
  | StartPointField => tag "gml:startPoint>"
  | MeshCode => tag "mesh>"
  | DemType => tag "type>"
  | TupleList => tag "gml:tupleList>"
  end.

Definition field_flag (f : header_field) (d : ParsedData) : bool :=
  match f with
  | LowerCorner => has_lower_corner d
  | UpperCorner => has_upper_corner d
  | GridHigh => has_grid_envelope d
  | StartPointField => has_start_point d
  | MeshCode => has_mesh_code d
  | DemType => has_dem_type d
  | TupleList => has_tuple_list d
  end.

(** The field holds in [d'] what it holds in [d]. *)
Definition field_kept (f : header_field) (d d' : ParsedData) : Prop :=
  match f with
  | LowerCorner => lower_corner_x d' = lower_corner_x d /\
                   lower_corner_y d' = lower_corner_y d
  | UpperCorner => upper_corner_x d' = upper_corner_x d /\
                   upper_corner_y d' = upper_corner_y d
  | GridHigh => grid_high_x d' = grid_high_x d /\ grid_high_y d' = grid_high_y d
  | StartPointField => start_x d' = start_x d /\ start_y d' = start_y d
  | MeshCode => mesh_code d' = mesh_code d
  | DemType => dem_type d' = dem_type d
  | TupleList => elevation_list d' = elevation_list d
  end.

(** The field is reported absent and holds its default. *)
Definition field_absent (f : header_field) (d : ParsedData) : Prop :=
  field_flag f d = false /\ field_kept f ParsedData_default d.

(** [pattern] occurs in [s] as a contiguous run of bytes. *)
Definition occurs (pattern s : text) : Prop :=
  exists before after, s = before ++ pattern ++ after.

(** The content of a pair field: what [parse_double_pair] and
    [parse_int_pair] hand to [from_chars] first. *)
Definition pair_content (f : header_field) (s : text) : text :=
  (span_until is_lt (skip_whitespace (drop (length (field_tag f)) s))).1.

(** [from_chars] fails on the first value of a pair field. *)
Definition unparsable (from_chars_double : text -> option (float * text))
    (f : header_field) (content : text) : Prop :=
  match f with
  | LowerCorner | UpperCorner | StartPointField =>
      from_chars_double content = None
  | GridHigh => from_chars_int content = None
  | MeshCode | DemType | TupleList => False
  end.

(** *** Tuple list records

    A record of the tuple list, ["<survey-type>,<value>"] on a line of its
    own, and the text of a list of records. *)

Record tuple_record : Type := mkRecord { rec_type : text; rec_value : text }.

Definition render_record (r : tuple_record) : text :=
  rec_type r ++ ","%byte :: rec_value r ++ [x0a].

Definition render_records (rs : list tuple_record) : text :=
  concat (render_record <$> rs).

(** The survey type holds no comma and does not begin with white space or
    ['<']; the value text holds no line break and no ['<']. *)
Definition clean_record (r : tuple_record) : bool :=
  forallb (fun b => negb (is_comma b)) (rec_type r) &&
  match rec_type r with
  | b :: _ => negb (is_space b) && negb (is_lt b)
  | [] => true
  end &&
  forallb (fun b => negb (is_newline b || is_lt b)) (rec_value r).

(** What follows the records: the end of the text, or a tag. *)
Definition closes (tail : text) : bool :=
  match tail with
  | b :: _ => is_lt b
  | [] => true
  end.

(** The elevation a record stands for. *)
Definition emitted (from_chars_double : text -> option (float * text))
    (sea_at_zero : bool) (r : tuple_record) : float :=
  record_value sea_at_zero (rec_type r) (from_chars_double (rec_value r)).

(** The placement rule in the words of the specification: the sample that
    the cell of row [r] and column [c] receives, if any. The first filled row
    is [start_y] and begins at column [start_x]; every later row begins at
    column 0; samples are consumed one per cell in row-major order. *)
Definition fill_index (x_length start_x start_y r c : Z) : option nat :=
  if r <? start_y then None
  else if r =? start_y then
    if c <? start_x then None else Some (Z.to_nat (c - start_x))
  else Some (Z.to_nat (Z.max 0 (x_length - start_x)
                       + (r - start_y - 1) * x_length + c)).

Definition cell_by_placement_rule (elevation : list float)
    (x_length start_x start_y r c : Z) : float :=
  match fill_index x_length start_x start_y r c with
  | Some k => default sentinel (elevation !! k)
  | None => sentinel
  end.

Definition grid_by_placement_rule (elevation : list float)
    (x_length y_length start_x start_y : Z) : list (list float) :=
  (fun r => cell_by_placement_rule elevation x_length start_x start_y r
              <$> seqZ 0 x_length) <$> seqZ 0 y_length.

(** The grid dimensions of a parsed document. *)
Definition x_length_of (d : ParsedData) : Z := grid_high_x d - grid_low_x d + 1.
Definition y_length_of (d : ParsedData) : Z := grid_high_y d - grid_low_y d + 1.

(** ** Validation ([XmlParser::validate_xml], xml_parser.cpp) *)

(** [validate_xml] reports whether [parse_all] returned a value. *)
Definition validate_xml (from_chars_double : text -> option (float * text))
    (xml_content : text) : option bool :=
  match parse_all from_chars_double xml_content true with
  | Some (Some _) => Some true
  | Some None => Some false
  | None => None
  end.

(** ** Terrain RGB ([GeoTiff::create], geotiff.cpp) *)

Definition NO_DATA_VALUE : float := (-9999)%float.
Definition R_MIN_HEIGHT : Z := 65536.
Definition G_MIN_HEIGHT : Z := 256.

(** [static_cast<uint8_t>(z)] for an [int] [z]. *)
Definition to_uint8 (z : Z) : Z := z mod 256.

(** [static_cast<int>(height * 10) + 100000]; undefined when the cast or the
    sum leaves the range of [int]. *)
Definition offset_height (height : float) : option Z :=
  match double_to_int (height * 10)%float with
  | Some tenths =>
      if in_int_range (tenths + 100000) then Some (tenths + 100000) else None
  | None => None
  end.

Definition convert_height_to_R (height : float) : option Z :=
  if PrimFloat.leb height NO_DATA_VALUE then Some 1
  else
    match offset_height height with
    | Some offset => Some (to_uint8 (Z.quot offset R_MIN_HEIGHT))
    | None => None
    end.

Definition convert_height_to_G (height : float) (r_value : Z) : option Z :=
  if PrimFloat.leb height NO_DATA_VALUE then Some 134
  else
    match offset_height height with
    | Some offset =>
        Some (to_uint8 (Z.quot (offset - r_value * R_MIN_HEIGHT) G_MIN_HEIGHT))
    | None => None
    end.

Definition convert_height_to_B (height : float) (r_value g_value : Z)
    : option Z :=
  if PrimFloat.leb height NO_DATA_VALUE then Some 160
  else
    match offset_height height with
    | Some offset =>
        Some (to_uint8 (offset - r_value * R_MIN_HEIGHT - g_value * G_MIN_HEIGHT))
    | None => None
    end.

(** The three bytes of a pixel of the RGB tile. *)
Definition terrain_rgb (height : float) : option (Z * Z * Z) :=
  match convert_height_to_R height with
  | Some r =>
      match convert_height_to_G height r with
      | Some g =>
          match convert_height_to_B height r g with
          | Some b => Some (r, g, b)
          | None => None
          end
      | None => None
      end
  | None => None
  end.

(** The pixel sizes of a merge: the resolution asked for when it is positive
    and the EPSG code of the extent is one of the projected systems, the
    pixel sizes of the extent otherwise. *)
Definition merge_pixel_sizes (e : MergeExtent) (resolution : float)
    : float * float :=
  let override := PrimFloat.ltb 0 resolution && metric_epsg (ext_epsg e) in
  (if override then resolution else ext_pixel_width e,
   if override then resolution else ext_pixel_height e).

(** ** The mesh archive in memory ([Dem], dem.cpp) *)

(** [XmlParser::get_mesh_code] and [XmlParser::get_dem_type]. *)
Definition get_mesh_code (d : ParsedData) : option text :=
  if has_mesh_code d then Some (mesh_code d) else None.

Definition get_dem_type (d : ParsedData) : option text :=
  if has_dem_type d then Some (dem_type d) else None.

Section Dem.

Variable from_chars_double : text -> option (float * text).

(** The loop of [Dem::check_mesh_codes]: a parser is constructed on every
    document, and the mesh code of a document that has one is pushed on
    [mesh_code_list]. The warning about repeated codes that follows the loop
    changes no member. *)
Fixpoint check_mesh_codes (all_content_list : list text)
    (mesh_code_list : list text) : option (list text) :=
  match all_content_list with
  | [] => Some mesh_code_list
  | xml_content :: rest =>
      match XmlParser_new from_chars_double xml_content with
      | Some (Constructed data) =>
          check_mesh_codes rest
            (match get_mesh_code data with
             | Some code => mesh_code_list ++ [code]
             | None => mesh_code_list
             end)
      | _ => None
      end
  end.

(** [Dem::populate_metadata_list]: [min(all_content_list.size(),
    mesh_code_list.size())] entries, the entry [i] from the document [i] and
    the code [i]. The parallel loop writes each entry once. *)
Fixpoint populate_metadata_list (all_content_list : list text)
    (mesh_code_list : list text) : option (list Metadata.t) :=
  match all_content_list, mesh_code_list with
  | xml_content :: contents, code :: codes =>
      match XmlParser_new from_chars_double xml_content with
      | Some (Constructed data) =>
          match populate_metadata_list contents codes with
          | Some metas => Some (format_metadata data code :: metas)
          | None => None
          end
      | _ => None
      end
  | _, _ => Some []
  end.

(** [Dem::store_np_array_list]: one grid per document. *)
Fixpoint store_np_array_list (all_content_list : list text)
    : option (list (list (list float))) :=
  match all_content_list with
  | [] => Some []
  | xml_content :: contents =>
      match get_np_array from_chars_double xml_content,
            store_np_array_list contents with
      | Some np_array, Some arrays => Some (np_array :: arrays)
      | _, _ => None
      end
  end.

(** The members of a [Dem] that [get_xml_content] fills. *)
Record DemData : Type := mkDemData {
  mesh_code_list : list text;
  meta_data_list : list Metadata.t;
  bounds_latlng : BoundsLatLng;
  np_array_list : list (list (list float))
}.

(** [Dem::get_xml_content] on a fresh [Dem], from the documents read by the
    pipeline on. *)
Definition get_xml_content (all_content_list : list text) : option DemData :=
  match check_mesh_codes all_content_list [] with
  | None => None
  | Some codes =>
      match populate_metadata_list all_content_list codes with
      | None => None
      | Some metas =>
          match store_np_array_list all_content_list with
          | None => None
          | Some arrays =>
              Some (mkDemData codes metas (store_bounds_latlng metas) arrays)
          end
      end
  end.

(** [Dem::contents_to_array]: the rows of all grids, one after the other. *)
Definition contents_to_array (dem : DemData) : list (list float) :=
  concat (np_array_list dem).

(** The data that [Converter::make_data_for_geotiff] hands to the writer. *)
Record GeoData : Type := mkGeoData {
  geo_np_array : list (list float);
  geo_transform : list float;
  geo_x_length : Z;
  geo_y_length : Z
}.

(** [Converter::make_data_for_geotiff] after [get_xml_content]: an error
    code when a list is empty, the combined array and its geo transform
    otherwise. *)
Definition make_data_for_geotiff (dem : DemData) : option (errc + GeoData) :=
  match meta_data_list dem, np_array_list dem with
  | [], _ | _, [] => Some (inl no_such_file_or_directory)
  | _ :: _, _ :: _ =>
      let bounds := bounds_latlng dem in
      match combine_meta_data_and_contents bounds (meta_data_list dem)
              (np_array_list dem) with
      | None => None
      | Some (combined_array, combined_x_length, combined_y_length) =>
          let pixel_width :=
            ((max_lng bounds - min_lng bounds)
             / int_to_double combined_x_length)%float in
          let pixel_height :=
            (- (max_lat bounds - min_lat bounds)
             / int_to_double combined_y_length)%float in
          Some (inr (mkGeoData combined_array
                       [min_lng bounds; pixel_width; 0%float;
                        max_lat bounds; 0%float; pixel_height]
                       combined_x_length combined_y_length))
      end
  end.

End Dem.

(** The mesh code of a document, if the parser finds one. *)
Definition document_code (from_chars_double : text -> option (float * text))
    (xml_content : text) : option text :=
  match XmlParser_new from_chars_double xml_content with
  | Some (Constructed data) => get_mesh_code data
  | _ => None
  end.

(** ** Reading and filling a [FlatArray2D] (flat_array_2d.hpp) *)

(** [array(row, col)] as a value: an unchecked [data_[...]]. *)
Definition FlatArray2D_get (a : FlatArray2D.t) (row col : Z) : option float :=
  FlatArray2D.data_ a !! Z.to_nat (FlatArray2D.index a row col).

(** ** Archives ([ZipHandler], zip_handler.cpp)

    The archive library (minizip) is a collaborator: an archive is given by
    the answers of its reader. *)

Definition MZ_OK : Z := 0.

(** An entry the cursor of the reader stops at: the result of
    [mz_zip_reader_entry_get_info], whether [mz_zip_reader_entry_is_dir]
    answers [MZ_OK], the name of the entry, and the result of
    [mz_zip_reader_entry_save_file]. *)
Record zip_entry : Type := mkEntry {
  info_result : Z;
  entry_is_dir : bool;
  entry_filename : text;
  save_result : Z
}.

(** [mz_zip_reader_create] returns a reader, the result of
    [mz_zip_reader_open_file], and the entries that
    [mz_zip_reader_goto_first_entry] and [mz_zip_reader_goto_next_entry]
    reach with [MZ_OK]. *)
Record archive : Type := mkArchive {
  reader_created : bool;
  open_result : Z;
  archive_entries : list zip_entry
}.

(** [name_view.find(pattern) != npos]. *)
Fixpoint contains (s pattern : text) : bool :=
  starts_with s pattern ||
  match s with
  | [] => false
  | _ :: s' => contains s' pattern
  end.

Section ZipHandler.

(** [(abs_output_dir / filename).make_preferred()]. *)
Variable output_path_of : text -> text.

(** The loop of [ZipHandler::extract]. *)
Fixpoint extract_loop (entries : list zip_entry) (extracted_files : list text)
    : list text :=
  match entries with
  | [] => extracted_files
  | e :: rest =>
      if negb (info_result e =? MZ_OK) then extracted_files
      else if entry_is_dir e then extract_loop rest extracted_files
      else if save_result e =? MZ_OK
           then extract_loop rest
                  (extracted_files ++ [output_path_of (entry_filename e)])
           else extract_loop rest extracted_files
  end.

(** [ZipHandler::extract]: the error code, or the extracted files. *)
Definition extract (a : archive) : errc + list text :=
  if negb (reader_created a) then inl not_enough_memory
  else if negb (open_result a =? MZ_OK) then inl io_error
  else inr (extract_loop (archive_entries a) []).




(** [extract_all_zips]: the archives of a directory in the order of the
    iteration; the first archive that cannot be extracted ends it. *)
Fixpoint extract_all_zips (archives : list archive) (all_extracted : list text)
    : option (list text) :=
  match archives with
  | [] => Some all_extracted
  | a :: rest =>
      match extract a with
      | inr result => extract_all_zips rest (all_extracted ++ result)
      | inl _ => None
      end
  end.

End ZipHandler.






(** ** Decimal text of an [int] *)

(** An optional minus sign and decimal digits, and the [int] they denote. *)
Definition render_int (negative : bool) (ds : list Z) : text :=
  (if negative then ["-"%byte] else []) ++ map digit_char ds.

Definition int_value (negative : bool) (ds : list Z) : Z :=
  if negative then - digits_value ds else digits_value ds.

(** A text at which a number ends: it is empty or begins with no digit. *)
Definition ends_number (rest : text) : bool :=
  match rest with
  | [] => true
  | b :: _ => negb (bool_decide (is_Some (digit_of b)))
  end.



(** ** Tiles ([GeoTiff::create], [write_geotiff], [read_geotiff], geotiff.cpp)

    The rasters are written and read in tiles of 256 by 256 samples. The
    TIFF library is a collaborator: [TIFFWriteTile] and [TIFFReadTile] are
    given by their answers. *)

Definition uint32_modulus : Z := 2 ^ 32.

(** [static_cast<uint32_t>(z)], and the result of [uint32_t] arithmetic. *)
Definition to_uint32 (z : Z) : Z := z mod uint32_modulus.

Definition tile_width : Z := 256.
Definition tile_height : Z := 256.

(** [for (uint32_t t = from; t < limit; t += step)]. A counter that would
    wrap around re-enters the loop; such a run is not followed (it is
    [None], as a run whose body is undefined and a run that does not end
    because [step] is zero). *)
Fixpoint tile_steps {State : Type} (fuel : nat) (t limit step : Z)
    (body : Z -> State -> option State) (state : State) : option State :=
  match fuel with
  | O => None
  | S fuel' =>
      if t <? limit then
        match body t state with
        | None => None
        | Some state' =>
            if t + step <? uint32_modulus
            then tile_steps fuel' (t + step) limit step body state'
            else None
        end
      else Some state
  end.

(** The loop over the tile origins below [limit]. *)
Definition tile_origins {State : Type} (limit step : Z)
    (body : Z -> State -> option State) (state : State) : option State :=
  tile_steps (S (Z.to_nat limit)) 0 limit step body state.

Section TileWriter.

(** The sample of row [r] and column [c] that the writer reads; [None] when
    the read is outside the buffer it reads from. *)
Variable source : Z -> Z -> option float.
Variables width height : Z.
Variable fill_value : float.

(** The body of the two inner loops:
    [tile_buffer[size_t(row) * tile_width + col] = source(ty + row, tx + col)]. *)
Definition tile_pixel (tx ty row col : Z) : option action :=
  match source (to_uint32 (ty + row)) (to_uint32 (tx + col)) with
  | Some value => Some (Write (flat_index row tile_width col) value)
  | None => None
  end.

(** The tile buffer handed to [TIFFWriteTile] for the tile at [(tx, ty)]:
    filled with the fill value, then the samples of the raster that the tile
    covers. *)
Definition tile (tx ty : Z) : option (list float) :=
  let actual_tile_width :=
    Z.min tile_width (to_uint32 (to_uint32 width - tx)) in
  let actual_tile_height :=
    Z.min tile_height (to_uint32 (to_uint32 height - ty)) in
  pixel_loop actual_tile_height actual_tile_width (tile_pixel tx ty)
    (replicate (Z.to_nat (to_uint32 (tile_width * tile_height))) fill_value).

(** [TIFFWriteTile(tif, buffer, tx, ty, 0, 0) >= 0]. *)
Variable TIFFWriteTile : Z -> Z -> list float -> bool.

(** The tiles written so far, and whether the writer is still running: a
    failed [TIFFWriteTile] makes it return [false], which ends both loops. *)
Definition write_tile (ty tx : Z) (state : bool * list (Z * Z * list float))
    : option (bool * list (Z * Z * list float)) :=
  let '(running, tiles) := state in
  if negb running then Some state
  else
    match tile tx ty with
    | None => None
    | Some buffer =>
        if TIFFWriteTile tx ty buffer
        then Some (true, tiles ++ [(tx, ty, buffer)])
        else Some (false, tiles)
    end.

(** The tile loops of the writers: whether every tile was written, and the
    tiles the library received. *)
Definition write_tiles : option (bool * list (Z * Z * list float)) :=
  tile_origins (to_uint32 height) tile_height
    (fun ty => tile_origins (to_uint32 width) tile_width (write_tile ty))
    (true, []).

End TileWriter.

(** The samples [write_geotiff] reads: [data.data[size_t(r) * data.width + c]]. *)
Definition raster_source (d : GeoTiff.Data) (r c : Z) : option float :=
  GeoTiff.data d !! Z.to_nat (flat_index r (GeoTiff.width d) c).

(** The tile loops of [write_geotiff]: the fill value is the no-data value
    when one is declared and zero otherwise. *)
Definition write_geotiff_tiles (TIFFWriteTile : Z -> Z -> list float -> bool)
    (d : GeoTiff.Data) : option (bool * list (Z * Z * list float)) :=
  write_tiles (raster_source d) (GeoTiff.width d) (GeoTiff.height d)
    (if GeoTiff.has_nodata d then GeoTiff.nodata_value d else 0%float)
    TIFFWriteTile.

(** The samples the float branch of [GeoTiff::create] writes:
    [static_cast<float>(np_array[r][c])]; its fill value is -9999. *)
Definition array_source (np_array : list (list float)) (r c : Z)
    : option float :=
  match np_array !! Z.to_nat r with
  | Some row => double_to_float <$> row !! Z.to_nat c
  | None => None
  end.

Definition create_tiles (TIFFWriteTile : Z -> Z -> list float -> bool)
    (np_array : list (list float)) (x_length y_length : Z)
    : option (bool * list (Z * Z * list float)) :=
  write_tiles (array_source np_array) x_length y_length (-9999)%float
    TIFFWriteTile.

Section TileReader.

(** [TIFFReadTile(tif, tile_buffer, tx, ty, 0, 0)]: the content of the tile
    buffer after the call, or [None] for a negative result. *)
Variable TIFFReadTile : Z -> Z -> option (list float).
(** The dimensions of the raster and of its tiles, all [uint32_t]. *)
Variables width height tile_w tile_h : Z.

(** The body of the two inner loops of the reader:
    [result.data[size_t(ty + row) * width + (tx + col)]
       = tile_buffer[size_t(row) * tile_width + col]]. *)
Definition read_pixel (tile_buffer : list float) (tx ty row col : Z)
    : option action :=
  match tile_buffer !! Z.to_nat (flat_index row tile_w col) with
  | Some value =>
      Some (Write (flat_index (to_uint32 (ty + row)) width
                              (to_uint32 (tx + col))) value)
  | None => None
  end.

(** The raster read so far, [None] once [read_geotiff] has returned
    [false]. The tile buffer has [tile_width * tile_height] samples (a
    [uint32_t] product); an answer of the library of another length is not
    the content of that buffer. *)
Definition read_tile (ty tx : Z) (state : option (list float))
    : option (option (list float)) :=
  match state with
  | None => Some None
  | Some data =>
      match TIFFReadTile tx ty with
      | None => Some None
      | Some tile_buffer =>
          if negb (Z.of_nat (length tile_buffer) =? to_uint32 (tile_w * tile_h))
          then None
          else
            let actual_tile_width := Z.min tile_w (to_uint32 (width - tx)) in
            let actual_tile_height := Z.min tile_h (to_uint32 (height - ty)) in
            match pixel_loop actual_tile_height actual_tile_width
                    (read_pixel tile_buffer tx ty) data with
            | None => None
            | Some data' => Some (Some data')
            end
      end
  end.

(** The tiled branch of [read_geotiff]: the buffer is resized to
    [size_t(width) * height] zeros and filled tile by tile. *)
Definition read_tiles : option (option (list float)) :=
  let n := (to_size_t width * to_size_t height) mod size_modulus in
  tile_origins height tile_h
    (fun ty => tile_origins width tile_w (read_tile ty))
    (Some (replicate (Z.to_nat n) 0%float)).

End TileReader.

(** What [TIFFReadTile] returns for a file that holds the tiles written: the
    buffer of the last tile written at the origin, if there is one. *)
Fixpoint stored_tile (tiles : list (Z * Z * list float)) (tx ty : Z)
    : option (list float) :=
  match tiles with
  | [] => None
  | (x, y, buffer) :: rest =>
      match stored_tile rest tx ty with
      | Some later => Some later
      | None => if (x =? tx) && (y =? ty) then Some buffer else None
      end
  end.

(** ** The input files of the merge ([merge_tif_files], geotiff.cpp)

    The directory is a collaborator: it is given by the entries that the
    recursive iterator yields, each with the answers of [is_regular_file],
    [path().filename().string()] and [path().string()]. *)

(** [s.find(pattern)]: the first position at which [pattern] occurs, or
    [npos] (here [None]). *)
Fixpoint string_find (s pattern : text) : option nat :=
  if starts_with s pattern then Some O
  else match s with
       | [] => None
       | _ :: s' => S <$> string_find s' pattern
       end.

(** [std::isdigit] in the C locale; the characters that are no [unsigned
    char] value are no digits. *)
Definition isdigit (c : byte) : bool := bool_decide (is_Some (digit_of c)).

(** [a < b] on [std::string]: the lexicographic order of the characters
    compared as [unsigned char]. *)
Fixpoint string_lt (a b : text) : bool :=
  match a, b with
  | _, [] => false
  | [], _ :: _ => true
  | x :: a', y :: b' =>
      if byte_eqb x y then string_lt a' b'
      else (Byte.to_N x <? Byte.to_N y)%N
  end.

Record directory_entry : Type := mkDirectoryEntry {
  is_regular_file : bool;
  path_filename : text;
  path_string : text
}.

Definition pattern1 (dem_type : text) : text :=
  tag "-DEM" ++ dem_type ++ tag ".tif".

Definition pattern2 (dem_type : text) : text :=
  tag "DEM" ++ dem_type ++ tag "-".

(** The date of a file name: the 8 characters after the first [pattern2],
    when they exist and are digits. *)
Definition filename_date (dem_type filename : text) : option text :=
  match string_find filename (pattern2 dem_type) with
  | Some pos =>
      let date_start := (pos + length (pattern2 dem_type))%nat in
      if (date_start + 8 <=? length filename)%nat then
        let date := take 8 (drop date_start filename) in
        if forallb isdigit date then Some date else None
      else None
  | None => None
  end.

(** One turn of the loop over the directory, on [input_files] and
    [latest_date]. *)
Definition collect_entry (dem_type : text) (state : list text * text)
    (entry : directory_entry) : list text * text :=
  let '(input_files, latest_date) := state in
  if negb (is_regular_file entry) then state
  else
    let filename := path_filename entry in
    if contains filename (pattern1 dem_type)
       || contains filename (pattern2 dem_type)
    then
      (input_files ++ [path_string entry],
       match filename_date dem_type filename with
       | Some date => if string_lt latest_date date then date else latest_date
       | None => latest_date
       end)
    else state.

Definition collect_input_files (dem_type : text)
    (entries : list directory_entry) : list text * text :=
  foldl (collect_entry dem_type) ([], []) entries.

(** The name of the output file when [config.output_file] is empty;
    [to_string] is [std::to_string] on [int]. *)
Definition default_output_file (to_string : Z -> text) (dem_type : text)
    (resolution : float) (latest_date : text) : option text :=
  match latest_date with
  | _ :: _ =>
      Some (tag "FG-GML-merged-DEM" ++ dem_type ++ tag "-" ++ latest_date
            ++ tag ".tif")
  | [] =>
      match double_to_int resolution with
      | Some r =>
          Some (tag "merged_output_" ++ to_string r ++ tag "m_" ++ dem_type
                ++ tag ".tif")
      | None => None
      end
  end.

(** *** Strips ([read_geotiff])

    A file that is not tiled is read row by row into the buffer, from
    [result.data.data() + row * width] on; [row * width] is a [uint32_t]
    product. *)

Section StripReader.

(** [TIFFReadScanline(tif, buffer, row, 0)]: the samples that the library
    stores from [buffer] on, or a failure. *)
Variable TIFFReadScanline : Z -> option (list float).

Variables width height : Z.

(** The buffer with [scanline] stored from [offset] on; storing beyond the
    end of the buffer is undefined. *)
Definition store_scanline (offset : Z) (scanline data : list float)
    : option (list float) :=
  if Z.of_nat (length data) <? offset + Z.of_nat (length scanline) then None
  else Some (take (Z.to_nat offset) data ++ scanline
             ++ drop (Z.to_nat offset + length scanline) data).

Definition read_strip (row : Z) (state : option (list float))
    : option (option (list float)) :=
  match state with
  | None => Some None
  | Some data =>
      match TIFFReadScanline row with
      | None => Some None
      | Some scanline =>
          match store_scanline (to_uint32 (row * width)) scanline data with
          | None => None
          | Some data' => Some (Some data')
          end
      end
  end.

(** The strip branch of [read_geotiff]: the raster read, [None] once it has
    returned [false]. *)
Definition read_strips : option (option (list float)) :=
  let n := (to_size_t width * to_size_t height) mod size_modulus in
  tile_origins height 1 read_strip (Some (replicate (Z.to_nat n) 0%float)).

End StripReader.

(** ** Example documents, rasters and collaborators *)

Module Examples.

(** A mesh of 3 columns and 2 rows whose samples begin at column 1 of row 0;
    the start point follows the tuple list. *)
Definition mesh_3x2 : text := tag
"<?xml version='1.0' encoding='UTF-8'?>
<Dataset><DEM><mesh> 50303500 </mesh><type>5m</type>
<gml:lowerCorner>33.0 130.5</gml:lowerCorner>
<gml:upperCorner>33.01 130.5125</gml:upperCorner>
<gml:low>0 0</gml:low><gml:high>2 1</gml:high>
<gml:tupleList>
a,12.5
b,13.25
c,-3
d,7
</gml:tupleList>
<gml:startPoint>1 0</gml:startPoint>
</DEM></Dataset>".

(** The same header with an empty tuple list. *)
Definition mesh_3x2_empty : text := tag
"<gml:low>0 0</gml:low><gml:high>2 1</gml:high>
<gml:startPoint>1 0</gml:startPoint><gml:tupleList></gml:tupleList>".

(** A mesh of 2 columns and 2 rows whose start point is column -1 of row 1. *)
Definition mesh_negative_start : text := tag
"<gml:low>0 0</gml:low><gml:high>1 1</gml:high>
<gml:startPoint>-1 1</gml:startPoint>
<gml:tupleList>
a,5
a,6
a,7
</gml:tupleList>".

(** A header whose corner and grid values are not numbers. *)
Definition mesh_unparsable : text := tag
"<gml:lowerCorner>north east</gml:lowerCorner><gml:high>two one</gml:high>".

(** A mesh of 2 columns and 1 row whose two samples are "no measurement"
    values of cells that are not sea. *)
Definition mesh_no_measurement : text := tag
"<gml:low>0 0</gml:low><gml:high>1 0</gml:high>
<gml:startPoint>0 0</gml:startPoint>
<gml:tupleList>
other,-9999.
other,-9999.
</gml:tupleList>".

(** A header that declares a negative number of columns, with an empty
    tuple list. *)
Definition mesh_negative_width : text := tag
"<gml:low>0 0</gml:low><gml:high>-2 1</gml:high>
<gml:startPoint>0 0</gml:startPoint><gml:tupleList></gml:tupleList>".

(** Four records: a land cell, a sea cell without measurement, a cell without
    measurement that is not tagged as sea, and a record whose value is not a
    number. *)
Definition sample_records : list tuple_record :=
  [ mkRecord (tag "land") (tag "586.25");
    mkRecord sea_surface (tag "-9999.");
    mkRecord (tag "other") (tag "-9999.");
    mkRecord sea_floor (tag "n/a") ].

(** A mesh of 4 columns and 2 rows that spans one degree each way. *)
Definition mesh_one_degree : text := tag
"<mesh>533900</mesh>
<gml:lowerCorner>33 130</gml:lowerCorner><gml:upperCorner>34 131</gml:upperCorner>
<gml:low>0 0</gml:low><gml:high>3 1</gml:high>
<gml:tupleList>
a,1
a,2
a,3
a,4
a,5
a,6
a,7
a,8
</gml:tupleList>
<gml:startPoint>0 0</gml:startPoint>".

(** The parsed form of a document, with the reference [from_chars]. *)
Definition parsed_of (xml : text) : ParsedData :=
  match parse_all from_chars_decimal xml true with
  | Some (Some d) => d
  | _ => ParsedData_default
  end.

Definition mesh_3x2_parsed : ParsedData :=
  Eval vm_compute in parsed_of mesh_3x2.

Definition mesh_3x2_empty_parsed : ParsedData :=
  Eval vm_compute in parsed_of mesh_3x2_empty.

Definition mesh_one_degree_metadata : Metadata.t :=
  Eval vm_compute in format_metadata (parsed_of mesh_one_degree) (tag "533900").

Definition mesh_one_degree_grid : list (list float) :=
  Eval vm_compute in
    default [] (get_np_array from_chars_decimal mesh_one_degree).

(** A raster of 3 by 3 pixels of one degree whose last pixel is no-data. *)
Definition raster_3x3 : GeoTiff.Data :=
  {| GeoTiff.data := [1; 2; 3; 4; 5; 6; 7; 8; -9999]%float;
     GeoTiff.width := 3;
     GeoTiff.height := 3;
     GeoTiff.geo_transform_0 := 0;
     GeoTiff.geo_transform_1 := 1;
     GeoTiff.geo_transform_2 := 0;
     GeoTiff.geo_transform_3 := 3;
     GeoTiff.geo_transform_4 := 0;
     GeoTiff.geo_transform_5 := -1;
     GeoTiff.epsg := 4326;
     GeoTiff.nodata_value := -9999;
     GeoTiff.has_nodata := true |}.



(** Two rasters of 2 by 1 pixels over the same extent; the first pixel of
    the second is no-data. *)
Definition strip (v0 v1 : float) : GeoTiff.Data :=
  {| GeoTiff.data := [v0; v1];
     GeoTiff.width := 2;
     GeoTiff.height := 1;
     GeoTiff.geo_transform_0 := 0;
     GeoTiff.geo_transform_1 := 1;
     GeoTiff.geo_transform_2 := 0;
     GeoTiff.geo_transform_3 := 1;
     GeoTiff.geo_transform_4 := 0;
     GeoTiff.geo_transform_5 := -1;
     GeoTiff.epsg := 4326;
     GeoTiff.nodata_value := -9999;
     GeoTiff.has_nodata := true |}.

Definition first_strip : GeoTiff.Data := strip 10 20.
Definition second_strip : GeoTiff.Data := strip (-9999) 40.

(** A reprojection primitive that accepts every string, with a scaling as
    its transform to and from the target system. *)
Definition scale_up : transform :=
  fun x y => (x * 111000, y * 111000)%float.

Definition scale_down : transform :=
  fun x y => (x / 111000, y / 111000)%float.

Definition scaling (from to : text) : option transform :=
  if bytes_eqb from src_crs then Some scale_up else Some scale_down.

(** [replace_extension(".tmp.tif")] on the path of the examples. *)
Definition temp_path (path : string) : string :=
  if String.eqb path "dem.tif" then "dem.tmp.tif" else (path +:+ ".tmp.tif").

(** The collaborators of a run in which every step succeeds. *)
Definition all_succeed : Environment :=
  {| context_created := true;
     proj_create := fun _ => true;
     proj_is_equivalent_to := bytes_eqb;
     proj_create_crs_to_crs := scaling;
     temp_path_of := temp_path;
     write_succeeds := true;
     write_leaves_partial_file := false;
     remove_succeeds := true;
     rename_succeeds := true |}.

(** The same, but [std::filesystem::rename] throws. *)
Definition rename_fails : Environment :=
  {| context_created := true;
     proj_create := fun _ => true;
     proj_is_equivalent_to := bytes_eqb;
     proj_create_crs_to_crs := scaling;
     temp_path_of := temp_path;
     write_succeeds := true;
     write_leaves_partial_file := false;
     remove_succeeds := true;
     rename_succeeds := false |}.

(** The same, but [write_geotiff] fails and leaves a truncated file. *)
Definition write_fails : Environment :=
  {| context_created := true;
     proj_create := fun _ => true;
     proj_is_equivalent_to := bytes_eqb;
     proj_create_crs_to_crs := scaling;
     temp_path_of := temp_path;
     write_succeeds := false;
     write_leaves_partial_file := true;
     remove_succeeds := true;
     rename_succeeds := true |}.

(** A primitive that rejects every target string but the source system. *)
Definition rejecting : Environment :=
  {| context_created := true;
     proj_create := fun crs => bytes_eqb crs src_crs;
     proj_is_equivalent_to := bytes_eqb;
     proj_create_crs_to_crs := scaling;
     temp_path_of := temp_path;
     write_succeeds := true;
     write_leaves_partial_file := false;
     remove_succeeds := true;
     rename_succeeds := true |}.

(** A storage that holds one raster. *)
Definition storage : file_system := {[ "dem.tif"%string := Raster raster_3x3 ]}.

(** The members of a [Dem] filled from one document, and the data it gives
    to the writer. *)
Definition one_degree_dem : DemData :=
  Eval vm_compute in
    match get_xml_content from_chars_decimal [mesh_one_degree] with
    | Some dem => dem
    | None => mkDemData [] [] (mkBounds 0 0 0 0) []
    end.

End Examples.

(** ** Properties of the grid builder *)

Module GridFacts.

Import FlatArray2D.

(** A buffer of [h] rows of [w] elements. *)
Record shaped (h w : Z) (a : t) : Prop := {
  shaped_width : width_ a = w;
  shaped_height : height_ a = h;
  shaped_length : Z.of_nat (length (data_ a)) = h * w;
  shaped_w_pos : 0 <= w;
  shaped_h_pos : 0 <= h;
  shaped_small : h * w < 2 ^ 63;
  shaped_h_small : h < 2 ^ 63
}.

Lemma to_size_t_small z : 0 <= z < 2 ^ 64 -> to_size_t z = z.
Proof. intros. unfold to_size_t, size_modulus. now apply Z.mod_small. Qed.

Lemma index_in_shape h w a row col :
  shaped h w a -> 0 <= row < h -> 0 <= col < w ->
  index a row col = row * w + col /\ 0 <= row * w + col < h * w.
Proof.
  intros [Hw Hh Hl ? ? Hs ?] Hr Hc.
  assert (0 <= row * w + col < h * w) by nia.
  assert (row < 2 ^ 63) by nia.
  assert (col < 2 ^ 63) by nia.
  split; [|assumption].
  unfold index. rewrite Hw.
  rewrite !to_size_t_small by lia.
  apply Z.mod_small. unfold size_modulus. lia.
Qed.

Lemma set_in_shape h w a row col v :
  shaped h w a -> 0 <= row < h -> 0 <= col < w ->
  exists a', set a row col v = Some a' /\ shaped h w a' /\
    data_ a' = <[Z.to_nat (row * w + col) := v]> (data_ a).
Proof.
  intros Ha Hr Hc.
  destruct (index_in_shape h w a row col Ha Hr Hc) as [Hi Hb].
  pose proof Ha as [Hw Hh Hl ? ? Hs ?].
  unfold set. rewrite Hi.
  destruct (Z.ltb_spec (row * w + col) (Z.of_nat (length (data_ a)))); [|lia].
  eexists. split; [reflexivity|]. split; [|reflexivity].
  constructor; simpl; try assumption. now rewrite length_insert.
Qed.

Section Loops.

Variable elevation : list float.
Variables h w : Z.

(** The buffer after samples [index], [index + 1], ... were written to the
    [k] positions from [p] on, as far as the samples last. *)
Definition overlaid (data : list float) (p k index j : nat) : option float :=
  if decide (p <= j < p + k)%nat then
    match elevation !! (index + (j - p))%nat with
    | Some v => Some v
    | None => data !! j
    end
  else data !! j.

Lemma fill_row_spec k : forall y x index a,
  shaped h w a -> 0 <= y < h -> 0 <= x -> x + Z.of_nat k <= w ->
  exists a',
    fill_row elevation k y x index a
      = Some (a', (index + Nat.min k (length elevation - index))%nat) /\
    shaped h w a' /\
    forall j, data_ a' !! j
              = overlaid (data_ a) (Z.to_nat (y * w + x)) k index j.
Proof.
  induction k as [|k IH]; intros y x index a Ha Hy Hx Hk.
  - exists a. cbn [fill_row]. split; [f_equal; f_equal; lia|].
    split; [assumption|].
    intros j. unfold overlaid. case_decide; [lia|reflexivity].
  - cbn [fill_row]. destruct (elevation !! index) as [v|] eqn:Hv.
    + assert (index < length elevation)%nat by (eapply lookup_lt_Some; eauto).
      assert (0 <= x < w) as Hxw by lia.
      destruct (set_in_shape h w a y x v Ha Hy Hxw) as (a1 & -> & Ha1 & Hd1).
      assert (0 <= x + 1) as Hx1 by lia.
      assert (x + 1 + Z.of_nat k <= w) as Hk1 by lia.
      destruct (IH y (x + 1) (S index) a1 Ha1 Hy Hx1 Hk1)
        as (a' & -> & Ha' & Hd').
      exists a'. split; [f_equal; f_equal; lia|]. split; [assumption|].
      intros j. rewrite Hd', Hd1. unfold overlaid.
      assert (0 <= y * w + x < h * w) by (destruct Ha; nia).
      replace (Z.to_nat (y * w + (x + 1))) with (S (Z.to_nat (y * w + x))) by lia.
      set (p := Z.to_nat (y * w + x)).
      assert (p < length (data_ a))%nat by (destruct Ha; lia).
      destruct (decide (j = p)) as [->|Hne].
      * rewrite decide_False by lia. rewrite decide_True by lia.
        rewrite list_lookup_insert_eq by assumption.
        replace (index + (p - p))%nat with index by lia. now rewrite Hv.
      * rewrite list_lookup_insert_ne by congruence.
        destruct (decide (S p <= j < S p + k)%nat).
        -- rewrite decide_True by lia.
           now replace (S index + (j - S p))%nat with (index + (j - p))%nat by lia.
        -- rewrite decide_False by lia. reflexivity.
    + assert (length elevation <= index)%nat by (eapply lookup_ge_None; eauto).
      exists a. split; [f_equal; f_equal; lia|]. split; [assumption|].
      intros j. unfold overlaid. case_decide; [|reflexivity].
      rewrite (proj2 (lookup_ge_None elevation _)) by lia. reflexivity.
Qed.

(** The buffer after all samples from [index] on were written to the
    positions from [p] on. *)
Definition overlaid_from (data : list float) (p index j : nat) : option float :=
  if decide (p <= j)%nat then
    match elevation !! (index + (j - p))%nat with
    | Some v => Some v
    | None => data !! j
    end
  else data !! j.

Lemma fill_rows_spec k : forall y csx index a,
  shaped h w a -> 0 <= y -> k = Z.to_nat (h - y) -> 0 <= csx ->
  exists a',
    fill_rows elevation w k y csx index a = Some a' /\
    shaped h w a' /\
    forall j, (j < length (data_ a))%nat ->
      data_ a' !! j
      = overlaid_from (data_ a) (Z.to_nat (y * w + Z.min csx w)) index j.
Proof.
  induction k as [|k IH]; intros y csx index a Ha Hy Hk Hc.
  - exists a. simpl. split; [reflexivity|]. split; [assumption|].
    intros j Hj. unfold overlaid_from.
    rewrite decide_False; [reflexivity|]. destruct Ha. nia.
  - cbn [fill_rows]. case_bool_decide as Hlt.
    + assert (exists a1 cnt,
          fill_row elevation (Z.to_nat (w - csx)) y csx index a
            = Some (a1, (index + cnt)%nat) /\
          cnt = Nat.min (Z.to_nat (w - csx)) (length elevation - index) /\
          shaped h w a1 /\
          forall j, data_ a1 !! j
            = overlaid (data_ a) (Z.to_nat (y * w + Z.min csx w))
                       (Z.to_nat (w - csx)) index j) as (a1 & cnt & -> & Hcnt & Ha1 & Hd1).
      { destruct (Z.le_gt_cases csx w) as [Hle|Hgt].
        - assert (0 <= y < h) as Hyh by lia.
          assert (csx + Z.of_nat (Z.to_nat (w - csx)) <= w) as Hfit by lia.
          destruct (fill_row_spec (Z.to_nat (w - csx)) y csx index a Ha
                      Hyh Hc Hfit) as (a1 & E & Ha1 & Hd1).
          exists a1, (Nat.min (Z.to_nat (w - csx)) (length elevation - index)).
          rewrite E. split; [reflexivity|]. split; [reflexivity|].
          split; [assumption|]. now rewrite Z.min_l by lia.
        - exists a, 0%nat. replace (Z.to_nat (w - csx)) with 0%nat by lia. cbn [fill_row].
          split; [f_equal; f_equal; lia|]. split; [reflexivity|].
          split; [assumption|]. intros j. unfold overlaid.
          rewrite decide_False by lia. reflexivity. }
      assert (0 <= y + 1) as Hy1 by lia.
      assert (k = Z.to_nat (h - (y + 1))) as Hk1 by lia.
      destruct (IH (y + 1) 0 (index + cnt)%nat a1 Ha1 Hy1 Hk1 (Z.le_refl 0))
        as (a' & -> & Ha' & Hd').
      exists a'. split; [reflexivity|]. split; [assumption|].
      intros j Hj.
      assert (length (data_ a1) = length (data_ a)) as Hlen
        by (destruct Ha, Ha1; lia).
      rewrite Hd' by lia. unfold overlaid_from.
      assert (0 <= w) by (destruct Ha; assumption).
      rewrite (Z.min_l 0 w) by lia.
      set (p := Z.to_nat (y * w + Z.min csx w)) in *.
      set (n := Z.to_nat (w - csx)) in *.
      assert (Z.to_nat ((y + 1) * w + 0) = (p + n)%nat) as -> by (unfold p, n; nia).
      destruct (decide (p + n <= j)%nat) as [Hin|Hout].
      * rewrite decide_True by lia.
        destruct (decide (cnt = n)) as [->|Hshort].
        -- replace (index + n + (j - (p + n)))%nat with (index + (j - p))%nat by lia.
           destruct (elevation !! (index + (j - p))%nat); [reflexivity|].
           rewrite Hd1. unfold overlaid. rewrite decide_False by lia. reflexivity.
        -- rewrite !(proj2 (lookup_ge_None elevation _)) by lia.
           rewrite Hd1. unfold overlaid. rewrite decide_False by lia. reflexivity.
      * rewrite Hd1. unfold overlaid.
        destruct (decide (p <= j)%nat).
        -- rewrite decide_True by lia. reflexivity.
        -- rewrite decide_False by lia. reflexivity.
    + exists a. split; [reflexivity|]. split; [assumption|].
      intros j Hj. unfold overlaid_from. case_decide; [|reflexivity].
      rewrite (proj2 (lookup_ge_None elevation _)) by lia. reflexivity.
Qed.

End Loops.

Lemma make_shaped h w v :
  0 <= h <= int_max -> 0 <= w <= int_max ->
  exists a, make h w v = Some a /\ shaped h w a /\
    data_ a = replicate (Z.to_nat (h * w)) v.
Proof.
  unfold int_max. intros Hh Hw.
  assert (0 <= h * w < 2 ^ 62) by nia.
  unfold make, vector_max_size.
  rewrite !to_size_t_small by lia.
  unfold size_modulus. rewrite Z.mod_small by lia.
  destruct (Z.leb_spec (h * w) (2 ^ 63 - 1)); [|lia].
  eexists. split; [reflexivity|]. split; [|reflexivity].
  constructor; simpl; try lia. rewrite length_replicate. lia.
Qed.

Lemma to_2d_vector_shaped h w a :
  shaped h w a ->
  to_2d_vector a = Some (row_copy a <$> seq 0 (Z.to_nat h)).
Proof.
  intros [Hw Hh Hl ? ? Hs ?]. unfold to_2d_vector, vector_max_size.
  rewrite Hw, Hh.
  assert (0 <= h * w) by nia.
  destruct (Z.leb_spec h (2 ^ 63 - 1)); simpl.
  - destruct (Z.leb_spec (h * w) (Z.of_nat (length (data_ a)))); [reflexivity|lia].
  - lia.
Qed.

Lemma row_copy_lookup h w a (r c : nat) :
  shaped h w a -> Z.of_nat r < h ->
  row_copy a r !! c
  = if decide (Z.of_nat c < w) then data_ a !! Z.to_nat (Z.of_nat r * w + Z.of_nat c)
    else None.
Proof.
  intros [Hw Hh Hl ? ? Hs ?] Hr. unfold row_copy. rewrite Hw.
  rewrite lookup_take. case_decide; case_decide; try lia.
  - rewrite lookup_drop. f_equal. nia.
  - reflexivity.
Qed.

Lemma cell_by_placement_rule_flat elevation h w sx sy (r c : nat) :
  0 <= w -> 0 <= sx -> 0 <= sy -> Z.of_nat r < h -> Z.of_nat c < w ->
  overlaid_from elevation (replicate (Z.to_nat (h * w)) sentinel)
    (Z.to_nat (sy * w + Z.min sx w)) 0
    (Z.to_nat (Z.of_nat r * w + Z.of_nat c))
  = Some (cell_by_placement_rule elevation w sx sy (Z.of_nat r) (Z.of_nat c)).
Proof.
  intros Hw Hsx Hsy Hr Hc.
  assert (Z.to_nat (Z.of_nat r * w + Z.of_nat c) < Z.to_nat (h * w))%nat by nia.
  unfold overlaid_from, cell_by_placement_rule, fill_index.
  rewrite lookup_replicate_2 by assumption.
  destruct (Z.ltb_spec (Z.of_nat r) sy).
  - rewrite decide_False by nia. reflexivity.
  - destruct (Z.eqb_spec (Z.of_nat r) sy) as [Heq|Hne].
    + destruct (Z.ltb_spec (Z.of_nat c) sx).
      * rewrite decide_False by nia. reflexivity.
      * rewrite decide_True by nia.
        replace (0 + (Z.to_nat (Z.of_nat r * w + Z.of_nat c)
                      - Z.to_nat (sy * w + Z.min sx w)))%nat
          with (Z.to_nat (Z.of_nat c - sx)) by nia.
        now destruct (elevation !! Z.to_nat (Z.of_nat c - sx)).
    + rewrite decide_True by nia.
      replace (0 + (Z.to_nat (Z.of_nat r * w + Z.of_nat c)
                    - Z.to_nat (sy * w + Z.min sx w)))%nat
        with (Z.to_nat (Z.max 0 (w - sx) + (Z.of_nat r - sy - 1) * w + Z.of_nat c))
        by nia.
      now destruct (elevation !! _).
Qed.

(** On a well-formed header the grid builder computes the grid of the
    placement rule. *)
Lemma get_np_array_parsed_placement (d : ParsedData) (sx sy : Z) :
  has_tuple_list d = true -> has_grid_envelope d = true ->
  has_start_point d = true ->
  double_to_int (start_x d) = Some sx -> double_to_int (start_y d) = Some sy ->
  0 <= sx -> 0 <= sy ->
  0 <= x_length_of d <= int_max -> 0 <= y_length_of d <= int_max ->
  get_np_array_parsed d
  = Some (grid_by_placement_rule (elevation_list d)
            (x_length_of d) (y_length_of d) sx sy).
Proof.
  intros Ht He Hs Hsx Hsy Hx0 Hy0 Hxl Hyl.
  unfold get_np_array_parsed, get_tuple_list, get_grid_envelope, get_start_point.
  rewrite Ht, He, Hs. cbn [high_x low_x high_y low_y sp_x sp_y].
  fold (x_length_of d) (y_length_of d). rewrite Hsx, Hsy.
  set (w := x_length_of d) in *. set (h := y_length_of d) in *.
  destruct (make_shaped h w sentinel Hyl Hxl) as (a0 & -> & Ha0 & Hd0).
  destruct (fill_rows_spec (elevation_list d) h w (Z.to_nat (h - sy)) sy sx 0 a0
              Ha0 Hy0 eq_refl Hx0) as (a' & -> & Ha' & Hd').
  rewrite (to_2d_vector_shaped h w a' Ha'). f_equal.
  unfold grid_by_placement_rule. apply list_eq. intros r.
  rewrite !list_lookup_fmap.
  destruct (decide (Z.of_nat r < h)) as [Hr|Hr].
  - rewrite lookup_seq_lt by lia. rewrite lookup_seqZ_lt by lia.
    cbn [fmap option_fmap option_map]. f_equal.
    rewrite Nat.add_0_l, Z.add_0_l.
    apply list_eq. intros c.
    rewrite (row_copy_lookup h w a' r c Ha' Hr), list_lookup_fmap.
    destruct (decide (Z.of_nat c < w)) as [Hc|Hc].
    + rewrite lookup_seqZ_lt by lia. cbn [fmap option_fmap option_map].
      rewrite Hd' by (rewrite Hd0, length_replicate; nia).
      rewrite Hd0. rewrite Z.add_0_l.
      apply cell_by_placement_rule_flat; lia.
    + rewrite lookup_seqZ_ge by lia. reflexivity.
  - rewrite lookup_seq_ge by lia. rewrite lookup_seqZ_ge by lia. reflexivity.
Qed.

(** With no sample at all the loops do not run, whatever the start point. *)
Lemma get_np_array_parsed_empty (d : ParsedData) (sx sy : Z) :
  has_tuple_list d = true -> has_grid_envelope d = true ->
  has_start_point d = true -> elevation_list d = [] ->
  double_to_int (start_x d) = Some sx -> double_to_int (start_y d) = Some sy ->
  0 <= x_length_of d <= int_max -> 0 <= y_length_of d <= int_max ->
  get_np_array_parsed d
  = Some (replicate (Z.to_nat (y_length_of d))
            (replicate (Z.to_nat (x_length_of d)) sentinel)).
Proof.
  intros Ht He Hs Hnil Hsx Hsy Hxl Hyl.
  unfold get_np_array_parsed, get_tuple_list, get_grid_envelope, get_start_point.
  rewrite Ht, He, Hs, Hnil. cbn [high_x low_x high_y low_y sp_x sp_y].
  fold (x_length_of d) (y_length_of d). rewrite Hsx, Hsy.
  set (w := x_length_of d) in *. set (h := y_length_of d) in *.
  destruct (make_shaped h w sentinel Hyl Hxl) as (a0 & -> & Ha0 & Hd0).
  assert (fill_rows [] w (Z.to_nat (h - sy)) sy sx 0 a0 = Some a0) as ->
    by (by destruct (Z.to_nat (h - sy))).
  rewrite (to_2d_vector_shaped h w a0 Ha0). f_equal.
  apply list_eq. intros r. rewrite list_lookup_fmap.
  destruct (decide (Z.of_nat r < h)) as [Hr|Hr].
  - rewrite lookup_seq_lt by lia. rewrite lookup_replicate_2 by lia.
    cbn [fmap option_fmap option_map]. f_equal. rewrite Nat.add_0_l.
    apply list_eq. intros c.
    rewrite (row_copy_lookup h w a0 r c Ha0 Hr), Hd0.
    destruct (decide (Z.of_nat c < w)) as [Hc|Hc].
    + rewrite !lookup_replicate_2 by nia. done.
    + symmetry. apply lookup_replicate_None. lia.
  - rewrite lookup_seq_ge by lia. symmetry. apply lookup_replicate_None. lia.
Qed.

Lemma grid_by_placement_rule_shape elevation x_length y_length sx sy :
  length (grid_by_placement_rule elevation x_length y_length sx sy)
  = Z.to_nat y_length /\
  Forall (fun row => length row = Z.to_nat x_length)
         (grid_by_placement_rule elevation x_length y_length sx sy).
Proof.
  unfold grid_by_placement_rule. split.
  - by rewrite length_fmap, length_seqZ.
  - apply Forall_fmap, Forall_forall. intros r _. cbn.
    by rewrite length_fmap, length_seqZ.
Qed.

Lemma grid_by_placement_rule_nil x_length y_length sx sy :
  grid_by_placement_rule [] x_length y_length sx sy
  = replicate (Z.to_nat y_length) (replicate (Z.to_nat x_length) sentinel).
Proof.
  unfold grid_by_placement_rule. apply list_eq. intros r.
  rewrite list_lookup_fmap.
  destruct (decide (Z.of_nat r < y_length)) as [Hr|Hr].
  - rewrite lookup_seqZ_lt by lia. rewrite lookup_replicate_2 by lia.
    cbn [fmap option_fmap option_map]. f_equal. apply list_eq. intros c.
    rewrite list_lookup_fmap.
    destruct (decide (Z.of_nat c < x_length)) as [Hc|Hc].
    + rewrite lookup_seqZ_lt by lia. rewrite lookup_replicate_2 by lia.
      cbn [fmap option_fmap option_map]. f_equal.
      unfold cell_by_placement_rule. now destruct (fill_index _ _ _ _ _).
    + rewrite lookup_seqZ_ge by lia. symmetry.
      apply lookup_replicate_None. lia.
  - rewrite lookup_seqZ_ge by lia. symmetry.
    apply lookup_replicate_None. lia.
Qed.

End GridFacts.

(** ** Properties of the parser *)

Module ParserFacts.

Lemma skip_whitespace_suffix s : skip_whitespace s `suffix_of` s.
Proof.
  induction s as [|b s IH]; [done|]. simpl.
  destruct (is_space b); [|done]. by apply suffix_cons_r.
Qed.

Lemma span_until_app stop s content rest :
  span_until stop s = (content, rest) -> s = content ++ rest.
Proof.
  revert content rest. induction s as [|b s IH]; intros content rest; simpl.
  - by intros [= <- <-].
  - destruct (stop b); [by intros [= <- <-]|].
    destruct (span_until stop s) as [c r]. intros [= <- <-].
    simpl. f_equal. by apply IH.
Qed.

Lemma span_until_suffix stop s content rest :
  span_until stop s = (content, rest) -> rest `suffix_of` s.
Proof. intros H. exists content. by apply span_until_app in H. Qed.

Lemma span_until_rest_head stop s content b rest :
  span_until stop s = (content, b :: rest) -> stop b = true.
Proof.
  revert content. induction s as [|c s IH]; intros content; simpl.
  - by intros [=].
  - destruct (stop c) eqn:Hc; [by intros [= <- <- <-]|].
    destruct (span_until stop s) as [c' r]. intros [= <- ->]. by eapply IH.
Qed.

Lemma skip_newline_suffix s : skip_newline s `suffix_of` s.
Proof.
  destruct s as [|b s]; [done|]. simpl.
  destruct (is_newline b); [|done]. by apply suffix_cons_r.
Qed.

Lemma find_char_cons target s r :
  find_char target s = Some r ->
  r `suffix_of` s /\ exists r', r = target :: r'.
Proof.
  induction s as [|b s IH]; simpl; [by intros [=]|].
  destruct (byte_eqb b target) eqn:Hb.
  - intros [= <-]. split; [done|]. exists s. f_equal.
    unfold byte_eqb in Hb. by apply Byte.byte_dec_bl in Hb.
  - intros H. destruct (IH H) as [Hs Hr]. split; [|done].
    by apply suffix_cons_r.
Qed.

Lemma drop_suffix {A} n (l : list A) : drop n l `suffix_of` l.
Proof. exists (take n l). by rewrite take_drop. Qed.

Lemma starts_with_app s pattern :
  starts_with s pattern = true -> s = pattern ++ drop (length pattern) s.
Proof.
  revert s. induction pattern as [|p pattern IH]; intros s; simpl; [done|].
  destruct s as [|b s]; [done|]. intros [Hb Hs]%andb_prop.
  unfold byte_eqb in Hb. apply Byte.byte_dec_bl in Hb as ->.
  simpl. f_equal. by apply IH.
Qed.

Section WithFromChars.

Variable fc : text -> option (float * text).

Lemma parse_double_pair_suffix s v1 v2 :
  (parse_double_pair fc s v1 v2).1.1 `suffix_of` s.
Proof.
  unfold parse_double_pair.
  destruct (span_until is_lt (skip_whitespace s)) as [content rest] eqn:E.
  assert (rest `suffix_of` s).
  { etrans; [by eapply span_until_suffix|]. apply skip_whitespace_suffix. }
  destruct (fc content) as [[? ?]|]; [|done].
  destruct (fc _) as [[? ?]|]; done.
Qed.

Lemma parse_int_pair_suffix s v1 v2 :
  (parse_int_pair s v1 v2).1.1 `suffix_of` s.
Proof.
  unfold parse_int_pair.
  destruct (span_until is_lt (skip_whitespace s)) as [content rest] eqn:E.
  assert (rest `suffix_of` s).
  { etrans; [by eapply span_until_suffix|]. apply skip_whitespace_suffix. }
  destruct (from_chars_int content) as [[? ?]|]; [|done].
  destruct (from_chars_int _) as [[? ?]|]; done.
Qed.

Lemma parse_simple_text_suffix s : (parse_simple_text s).1 `suffix_of` s.
Proof.
  unfold parse_simple_text.
  destruct (span_until is_lt (skip_whitespace s)) as [content rest] eqn:E.
  simpl. etrans; [by eapply span_until_suffix|]. apply skip_whitespace_suffix.
Qed.

(** The tuple list loop finishes within a fuel above the length of its
    range, and ends on a suffix of that range. *)
Lemma parse_tuple_list_loop_total sea fuel : forall s acc,
  (length s < fuel)%nat ->
  exists p l, parse_tuple_list_loop fc sea fuel s acc = Some (p, l) /\
    p `suffix_of` s.
Proof.
  induction fuel as [|fuel IH]; intros s acc Hlen; [lia|].
  cbn [parse_tuple_list_loop]. destruct s as [|b s]; [by eauto|].
  destruct (is_lt b); [by eauto|].
  destruct (span_until is_comma (b :: s)) as [type [|c value_start]] eqn:Ec;
    [by eauto|].
  destruct (span_until _ value_start) as [value value_end] eqn:Ev.
  assert (skip_newline value_end `suffix_of` value_start) as Hsuf.
  { etrans; [apply skip_newline_suffix|]. by eapply span_until_suffix. }
  apply span_until_app in Ec.
  assert (length (b :: s) = length type + S (length value_start))%nat as Hl
    by (rewrite Ec, length_app; done).
  destruct (IH (skip_newline value_end) (acc ++ [record_value sea type (fc value)]))
    as (p & l & -> & Hp).
  { apply suffix_length in Hsuf. lia. }
  exists p, l. split; [done|]. etrans; [done|]. etrans; [done|].
  rewrite Ec. apply suffix_app_r. by apply suffix_cons_r.
Qed.

Lemma parse_tuple_list_total s acc sea :
  exists p l, parse_tuple_list fc s acc sea = Some (p, l) /\ p `suffix_of` s.
Proof.
  unfold parse_tuple_list.
  destruct (parse_tuple_list_loop_total sea (S (length (skip_whitespace s)))
              (skip_whitespace s) acc) as (p & l & E & Hp); [lia|].
  exists p, l. split; [done|]. etrans; [done|]. apply skip_whitespace_suffix.
Qed.

Lemma dispatch_total sea s data :
  exists p data' stop, dispatch fc sea s data = Some (p, data', stop) /\
    p `suffix_of` s.
Proof.
  unfold dispatch.
  repeat match goal with
  | |- context [if starts_with s ?t then _ else _] =>
      destruct (starts_with s t)
  end.
  - pose proof (parse_double_pair_suffix (drop 16 s)
                  (lower_corner_x data) (lower_corner_y data)) as H.
    destruct (parse_double_pair _ _ _ _) as [[p v1] v2]. simpl in H.
    do 3 eexists. split; [done|]. etrans; [done|]. apply drop_suffix.
  - pose proof (parse_double_pair_suffix (drop 16 s)
                  (upper_corner_x data) (upper_corner_y data)) as H.
    destruct (parse_double_pair _ _ _ _) as [[p v1] v2]. simpl in H.
    do 3 eexists. split; [done|]. etrans; [done|]. apply drop_suffix.
  - pose proof (parse_int_pair_suffix (drop 8 s)
                  (grid_low_x data) (grid_low_y data)) as H.
    destruct (parse_int_pair _ _ _) as [[p v1] v2]. simpl in H.
    do 3 eexists. split; [done|]. etrans; [done|]. apply drop_suffix.
  - pose proof (parse_int_pair_suffix (drop 9 s)
                  (grid_high_x data) (grid_high_y data)) as H.
    destruct (parse_int_pair _ _ _) as [[p v1] v2]. simpl in H.
    do 3 eexists. split; [done|]. etrans; [done|]. apply drop_suffix.
  - pose proof (parse_double_pair_suffix (drop 15 s)
                  (start_x data) (start_y data)) as H.
    destruct (parse_double_pair _ _ _ _) as [[p v1] v2]. simpl in H.
    do 3 eexists. split; [done|]. etrans; [done|]. apply drop_suffix.
  - pose proof (parse_simple_text_suffix (drop 5 s)) as H.
    destruct (parse_simple_text _) as [p v]. simpl in H.
    do 3 eexists. split; [done|]. etrans; [done|]. apply drop_suffix.
  - pose proof (parse_simple_text_suffix (drop 5 s)) as H.
    destruct (parse_simple_text _) as [p v]. simpl in H.
    do 3 eexists. split; [done|]. etrans; [done|]. apply drop_suffix.
  - destruct (parse_tuple_list_total (drop 14 s) (elevation_list data) sea)
      as (p & l & -> & H).
    do 3 eexists. split; [done|]. etrans; [done|]. apply drop_suffix.
  - by eauto.
Qed.

Lemma parse_all_loop_total sea fuel : forall s data,
  (length s < fuel)%nat ->
  exists data', parse_all_loop fc sea fuel s data = Some data'.
Proof.
  induction fuel as [|fuel IH]; intros s data Hlen; [lia|].
  cbn [parse_all_loop].
  destruct (find_char "<" s) as [at_lt|] eqn:Ef; [|by eauto].
  apply find_char_cons in Ef as [Hsuf [r ->]].
  change (drop 1 ("<"%byte :: r)) with r.
  destruct (dispatch_total sea r data) as (p & data' & stop & -> & Hp).
  destruct stop; [by eauto|].
  apply IH. apply suffix_length in Hsuf, Hp. simpl in Hsuf. lia.
Qed.

Lemma dispatch_keeps_absent sea s d p d' stop f :
  starts_with s (field_tag f) = false ->
  dispatch fc sea s d = Some (p, d', stop) ->
  field_flag f d' = field_flag f d /\ field_kept f d d'.
Proof.
  intros Hno. unfold dispatch.
  repeat match goal with
  | |- context [if starts_with s ?t then _ else _] =>
      let E := fresh "E" in destruct (starts_with s t) eqn:E
  | |- context [parse_double_pair ?a ?b ?c ?e] =>
      destruct (parse_double_pair a b c e) as [[? ?] ?]
  | |- context [parse_int_pair ?a ?b ?c] =>
      destruct (parse_int_pair a b c) as [[? ?] ?]
  | |- context [parse_simple_text ?a] =>
      destruct (parse_simple_text a) as [? ?]
  | |- context [parse_tuple_list ?a ?b ?c ?e] =>
      destruct (parse_tuple_list a b c e) as [[? ?]|]
  end;
  intros [= <- <- <-] || intros [=];
  destruct f; cbn [field_tag] in Hno; try congruence; by cbn.
Qed.

Lemma field_kept_trans f d1 d2 d3 :
  field_kept f d1 d2 -> field_kept f d2 d3 -> field_kept f d1 d3.
Proof. destruct f; cbn; intuition congruence. Qed.

Lemma parse_all_loop_absent sea f xml fuel : forall s d d',
  ~ occurs ("<"%byte :: field_tag f) xml ->
  s `suffix_of` xml ->
  parse_all_loop fc sea fuel s d = Some d' ->
  field_flag f d' = field_flag f d /\ field_kept f d d'.
Proof.
  intros s d d' Hno. revert s d d'.
  induction fuel as [|fuel IH]; intros s d d' Hs; cbn [parse_all_loop];
    [by intros [=]|].
  destruct (find_char "<" s) as [at_lt|] eqn:Ef.
  2:{ intros [= <-]. by destruct f. }
  apply find_char_cons in Ef as [Hsuf [r ->]].
  change (drop 1 ("<"%byte :: r)) with r.
  assert (starts_with r (field_tag f) = false) as Hstart.
  { destruct (starts_with r (field_tag f)) eqn:E; [|done].
    exfalso. apply Hno. apply starts_with_app in E.
    destruct Hs as [k1 ->]. destruct Hsuf as [k2 ->].
    exists (k1 ++ k2), (drop (length (field_tag f)) r).
    rewrite <- !app_assoc. do 2 f_equal. simpl. by f_equal. }
  destruct (dispatch_total sea r d) as (p & d1 & stop & E & Hp).
  rewrite E. destruct (dispatch_keeps_absent sea r d p d1 stop f Hstart E)
    as [Hflag Hkept].
  destruct stop.
  - intros [= <-]. done.
  - intros H. apply IH in H as [Hflag' Hkept'].
    + split; [congruence|]. by eapply field_kept_trans.
    + etrans; [done|]. etrans; [|done]. etrans; [|done]. by apply suffix_cons_r.
Qed.

(** A pair field whose first value does not parse still gets its flag, and
    keeps the values it had. *)
Lemma dispatch_unparsable sea s d f :
  starts_with s (field_tag f) = true ->
  unparsable fc f (pair_content f s) ->
  exists p d', dispatch fc sea s d = Some (p, d', false) /\
    field_flag f d' = true /\ field_kept f d d'.
Proof.
  intros Hs Hu. unfold dispatch.
  destruct f; cbn [field_tag unparsable] in *; try done;
    unfold pair_content in Hu; cbn [field_tag length tag] in Hu.
  - rewrite Hs. unfold parse_double_pair.
    change (length (String.list_byte_of_string "gml:lowerCorner>")) with 16%nat in Hu.
    destruct (span_until is_lt _) as [content rest]. cbn in Hu. rewrite Hu.
    by do 2 eexists.
  - destruct (starts_with s (tag "gml:lowerCorner>")) eqn:E1.
    { apply starts_with_app in E1, Hs. rewrite E1 in Hs. by inversion Hs. }
    rewrite Hs. unfold parse_double_pair.
    change (length (String.list_byte_of_string "gml:upperCorner>")) with 16%nat in Hu.
    destruct (span_until is_lt _) as [content rest]. cbn in Hu. rewrite Hu.
    by do 2 eexists.
  - destruct (starts_with s (tag "gml:lowerCorner>")) eqn:E1.
    { apply starts_with_app in E1, Hs. rewrite E1 in Hs. by inversion Hs. }
    destruct (starts_with s (tag "gml:upperCorner>")) eqn:E2.
    { apply starts_with_app in E2, Hs. rewrite E2 in Hs. by inversion Hs. }
    destruct (starts_with s (tag "gml:low>")) eqn:E3.
    { apply starts_with_app in E3, Hs. rewrite E3 in Hs. by inversion Hs. }
    rewrite Hs. unfold parse_int_pair.
    change (length (String.list_byte_of_string "gml:high>")) with 9%nat in Hu.
    destruct (span_until is_lt _) as [content rest]. cbn in Hu. rewrite Hu.
    by do 2 eexists.
  - destruct (starts_with s (tag "gml:lowerCorner>")) eqn:E1.
    { apply starts_with_app in E1, Hs. rewrite E1 in Hs. by inversion Hs. }
    destruct (starts_with s (tag "gml:upperCorner>")) eqn:E2.
    { apply starts_with_app in E2, Hs. rewrite E2 in Hs. by inversion Hs. }
    destruct (starts_with s (tag "gml:low>")) eqn:E3.
    { apply starts_with_app in E3, Hs. rewrite E3 in Hs. by inversion Hs. }
    destruct (starts_with s (tag "gml:high>")) eqn:E4.
    { apply starts_with_app in E4, Hs. rewrite E4 in Hs. by inversion Hs. }
    rewrite Hs. unfold parse_double_pair.
    change (length (String.list_byte_of_string "gml:startPoint>")) with 15%nat in Hu.
    destruct (span_until is_lt _) as [content rest]. cbn in Hu. rewrite Hu.
    by do 2 eexists.
Qed.

Lemma span_until_stop stop pre b rest :
  forallb (fun c => negb (stop c)) pre = true -> stop b = true ->
  span_until stop (pre ++ b :: rest) = (pre, b :: rest).
Proof.
  intros Hpre Hb. induction pre as [|c pre IH]; simpl.
  - by rewrite Hb.
  - simpl in Hpre. apply andb_prop in Hpre as [Hc Hpre].
    apply negb_true_iff in Hc. rewrite Hc, (IH Hpre). done.
Qed.

Lemma skip_whitespace_app ws s :
  forallb is_space ws = true ->
  skip_whitespace (ws ++ s) = skip_whitespace s.
Proof.
  intros H. induction ws as [|b ws IH]; [done|]. simpl in *.
  apply andb_prop in H as [-> H]. by apply IH.
Qed.

Lemma render_records_cons r rs :
  render_records (r :: rs)
  = rec_type r ++ ","%byte :: rec_value r ++ x0a :: render_records rs.
Proof.
  unfold render_records, render_record. simpl.
  rewrite <- !app_assoc. simpl. by rewrite <- !app_assoc.
Qed.

(** The text of clean records, closed by [tail], does not begin with a byte
    for which [skip] holds, when [skip] holds only for white space. *)
Lemma records_head rs tail (skip : byte -> bool) :
  (forall b, skip b = true -> is_space b = true) ->
  forallb clean_record rs = true -> closes tail = true ->
  match render_records rs ++ tail with
  | b :: _ => skip b = false
  | [] => True
  end.
Proof.
  intros Hskip Hrs Htail. destruct rs as [|r rs].
  - simpl. destruct tail as [|b tail]; [done|]. simpl in Htail.
    destruct (skip b) eqn:E; [|done]. apply Hskip in E.
    unfold is_lt, byte_eqb in Htail. apply Byte.byte_dec_bl in Htail as ->.
    done.
  - rewrite render_records_cons. simpl in Hrs.
    apply andb_prop in Hrs as [Hr _]. unfold clean_record in Hr.
    apply andb_prop in Hr as [[_ Hhead]%andb_prop _].
    destruct (rec_type r) as [|b t]; simpl.
    + destruct (skip ","%byte) eqn:E; [|done]. by apply Hskip in E.
    + apply andb_prop in Hhead as [Hsp _]. apply negb_true_iff in Hsp.
      destruct (skip b) eqn:E; [|done]. apply Hskip in E. congruence.
Qed.

Lemma skip_whitespace_records rs tail :
  forallb clean_record rs = true -> closes tail = true ->
  skip_whitespace (render_records rs ++ tail) = render_records rs ++ tail.
Proof.
  intros Hrs Htail.
  pose proof (records_head rs tail is_space (fun _ H => H) Hrs Htail) as H.
  destruct (render_records rs ++ tail) as [|b s]; [done|]. simpl. by rewrite H.
Qed.

Lemma skip_newline_records rs :
  forallb clean_record rs = true ->
  skip_newline (render_records rs) = render_records rs.
Proof.
  intros Hrs.
  assert (forall b, is_newline b = true -> is_space b = true) as Hnl.
  { intros b Hb. unfold is_space. unfold is_newline in Hb. rewrite Hb.
    by rewrite orb_true_r. }
  pose proof (records_head rs [] is_newline Hnl Hrs eq_refl) as H.
  rewrite app_nil_r in H.
  destruct (render_records rs) as [|b s]; [done|]. simpl. by rewrite H.
Qed.

Lemma parse_tuple_list_loop_records sea rs : forall tail acc fuel,
  forallb clean_record rs = true -> closes tail = true ->
  (length (render_records rs ++ tail) < fuel)%nat ->
  parse_tuple_list_loop fc sea fuel (render_records rs ++ tail) acc
  = Some (tail, acc ++ (emitted fc sea <$> rs)).
Proof.
  induction rs as [|r rs IH]; intros tail acc fuel Hrs Htail Hfuel.
  - destruct fuel as [|fuel]; [lia|]. simpl. rewrite app_nil_r.
    destruct tail as [|b tail]; [done|]. simpl in Htail. by rewrite Htail.
  - destruct fuel as [|fuel]; [lia|].
    assert (render_records (r :: rs) ++ tail
            = rec_type r ++ ","%byte :: rec_value r
              ++ x0a :: (render_records rs ++ tail)) as Htxt.
    { rewrite render_records_cons. rewrite <- !app_assoc. simpl.
      by rewrite <- app_assoc. }
    rewrite Htxt in *. set (rest := render_records rs ++ tail) in *.
    simpl in Hrs. apply andb_prop in Hrs as [Hr Hrs].
    unfold clean_record in Hr.
    apply andb_prop in Hr as [[Htype Hfirst]%andb_prop Hvalue].
    cbn [parse_tuple_list_loop].
    destruct (rec_type r ++ ","%byte :: rec_value r ++ x0a :: rest)
      as [|b s] eqn:Es.
    { by destruct (rec_type r). }
    assert (is_lt b = false) as ->.
    { destruct (rec_type r) as [|c t]; simpl in Es; injection Es as <- _.
      - done.
      - apply andb_prop in Hfirst as [_ Hlt]. by apply negb_true_iff in Hlt. }
    rewrite <- Es.
    rewrite (span_until_stop is_comma (rec_type r) ","%byte _ Htype eq_refl).
    rewrite (span_until_stop (fun c => is_newline c || is_lt c)
               (rec_value r) x0a _ Hvalue eq_refl).
    change (skip_newline (x0a :: rest)) with rest. unfold rest.
    rewrite IH; [|done|done|].
    + rewrite <- app_assoc. done.
    + apply (f_equal length) in Es. rewrite length_app in Es.
      cbn [length] in Es. rewrite length_app in Es. cbn [length] in Es.
      fold rest. cbn [length] in Hfuel. lia.
Qed.

Lemma tuple_parse_loop_records sea rs : forall acc fuel,
  forallb clean_record rs = true ->
  (length (render_records rs) < fuel)%nat ->
  tuple_parse_loop fc sea fuel (render_records rs) acc
  = Some (acc ++ (emitted fc sea <$> rs)).
Proof.
  induction rs as [|r rs IH]; intros acc fuel Hrs Hfuel.
  - destruct fuel as [|fuel]; [lia|]. simpl. by rewrite app_nil_r.
  - destruct fuel as [|fuel]; [lia|].
    simpl in Hrs. apply andb_prop in Hrs as [Hr Hrs].
    unfold clean_record in Hr.
    apply andb_prop in Hr as [[Htype Hfirst]%andb_prop Hvalue].
    rewrite render_records_cons in *.
    cbn [tuple_parse_loop].
    destruct (rec_type r ++ ","%byte :: rec_value r ++ x0a :: render_records rs)
      as [|b s] eqn:Es.
    { by destruct (rec_type r). }
    rewrite <- Es.
    rewrite (span_until_stop is_comma (rec_type r) ","%byte _ Htype eq_refl).
    assert (forallb (fun c => negb (is_newline c)) (rec_value r) = true) as Hv.
    { clear -Hvalue. induction (rec_value r) as [|c v IHv]; [done|].
      simpl in *. apply andb_prop in Hvalue as [Hc Hv].
      rewrite (IHv Hv), andb_true_r. apply negb_true_iff.
      apply negb_true_iff in Hc. by apply orb_false_elim in Hc as [-> _]. }
    rewrite (span_until_stop is_newline (rec_value r) x0a _ Hv eq_refl).
    change (skip_newline (x0a :: render_records rs)) with (render_records rs).
    rewrite IH; [|done|].
    + rewrite <- app_assoc. done.
    + apply (f_equal length) in Es. rewrite length_app in Es.
      cbn [length] in Es. rewrite length_app in Es. cbn [length] in Es.
      cbn [length] in Hfuel. lia.
Qed.

End WithFromChars.

End ParserFacts.

(** ** Properties of the mosaic assembler *)

Module AssemblerFacts.

(** A canvas of [total_y] rows of [total_x] cells. *)
Definition canvas_shape (total_x total_y : Z) (canvas : list (list float))
    : Prop :=
  length canvas = Z.to_nat total_y /\
  Forall (fun row => length row = Z.to_nat total_x) canvas.

(** The cell of row [r] and column [c], if the canvas has it. *)
Definition cell (canvas : list (list float)) (r c : nat) : option float :=
  canvas !! r ≫= (.!! c).

Lemma canvas_shape_replicate total_x total_y v :
  canvas_shape total_x total_y
    (replicate (Z.to_nat total_y) (replicate (Z.to_nat total_x) v)).
Proof.
  split; [by rewrite length_replicate|].
  apply Forall_replicate. by rewrite length_replicate.
Qed.

Lemma clip_in_bounds column_start x_len total_x src_size :
  let '(src_start, dst_start, copy_len) :=
    clip column_start x_len total_x src_size in
  0 <= src_start /\ 0 <= dst_start /\
  (0 < copy_len ->
   dst_start + copy_len <= total_x /\ src_start + copy_len <= src_size).
Proof.
  unfold clip.
  destruct (Z.ltb_spec column_start 0); cbn beta iota zeta;
    repeat match goal with
    | |- context [if ?a <? ?b then _ else _] =>
        lazymatch b with context [Z.ltb] => fail | _ => idtac end;
        destruct (Z.ltb_spec a b); cbn beta iota zeta
    end; lia.
Qed.

Lemma memcpy_spec dst dst_start src src_start copy_len :
  0 <= dst_start -> 0 <= src_start -> 0 < copy_len ->
  dst_start + copy_len <= Z.of_nat (length dst) ->
  src_start + copy_len <= Z.of_nat (length src) ->
  exists dst', memcpy dst dst_start src src_start copy_len = Some dst' /\
    length dst' = length dst /\
    forall c : nat,
      dst' !! c
      = if decide (dst_start <= Z.of_nat c < dst_start + copy_len)
        then src !! Z.to_nat (src_start + (Z.of_nat c - dst_start))
        else dst !! c.
Proof.
  intros Hd Hs Hn Hdl Hsl. unfold memcpy.
  destruct (Z.leb_spec 0 dst_start); [|lia].
  destruct (Z.leb_spec (dst_start + copy_len) (Z.of_nat (length dst))); [|lia].
  destruct (Z.leb_spec 0 src_start); [|lia].
  destruct (Z.leb_spec (src_start + copy_len) (Z.of_nat (length src))); [|lia].
  cbn [andb]. eexists. split; [reflexivity|].
  assert (length (take (Z.to_nat dst_start) dst) = Z.to_nat dst_start) as La
    by (rewrite length_take; lia).
  assert (length (take (Z.to_nat copy_len) (drop (Z.to_nat src_start) src))
          = Z.to_nat copy_len) as Lb
    by (rewrite length_take, length_drop; lia).
  split.
  - rewrite !length_app, La, Lb, length_drop. lia.
  - intros c. case_decide as Hc.
    + rewrite lookup_app_r by lia. rewrite lookup_app_l by lia.
      rewrite lookup_take_lt by lia. rewrite lookup_drop. f_equal. lia.
    + destruct (decide (Z.of_nat c < dst_start)).
      * rewrite lookup_app_l by lia. by rewrite lookup_take_lt by lia.
      * rewrite lookup_app_r by lia. rewrite lookup_app_r by lia.
        rewrite lookup_drop. f_equal. lia.
Qed.

Section Placement.

Variables total_x total_y : Z.
Variables row_start column_start x_len y_len : Z.

(** Row [r], column [c] of the canvas is written by the copy of source row
    [y] of length [src_size]. *)
Definition written (y src_size : Z) (r c : nat) : Prop :=
  let '(src_start, dst_start, copy_len) :=
    clip column_start x_len total_x src_size in
  Z.of_nat r = row_start + y /\ 0 <= row_start + y < total_y /\
  dst_start <= Z.of_nat c < dst_start + copy_len.

#[local] Instance written_dec y src_size r c : Decision (written y src_size r c).
Proof.
  unfold written. destruct (clip _ _ _ _) as [[? ?] ?]. apply _.
Defined.

(** The source column a written cell is copied from. *)
Definition source_column (src_size : Z) (c : nat) : nat :=
  let '(src_start, dst_start, _) :=
    clip column_start x_len total_x src_size in
  Z.to_nat (src_start + (Z.of_nat c - dst_start)).

Lemma place_row_spec y src canvas :
  canvas_shape total_x total_y canvas ->
  exists canvas',
    place_row total_x total_y row_start column_start x_len y src canvas
      = Some canvas' /\
    canvas_shape total_x total_y canvas' /\
    forall r c,
      cell canvas' r c
      = if decide (written y (Z.of_nat (length src)) r c)
        then src !! source_column (Z.of_nat (length src)) c
        else cell canvas r c.
Proof.
  intros [Hrows Hcols]. unfold place_row.
  pose proof (clip_in_bounds column_start x_len total_x (Z.of_nat (length src)))
    as Hclip.
  destruct (clip column_start x_len total_x (Z.of_nat (length src)))
    as [[src_start dst_start] copy_len] eqn:E.
  destruct Hclip as (Hs0 & Hd0 & Hfit).
  assert (forall r c,
            written y (Z.of_nat (length src)) r c <->
            (Z.of_nat r = row_start + y /\ 0 <= row_start + y < total_y /\
             dst_start <= Z.of_nat c < dst_start + copy_len)) as Hw
    by (intros r c; unfold written; by rewrite E).
  assert (forall c, source_column (Z.of_nat (length src)) c
                    = Z.to_nat (src_start + (Z.of_nat c - dst_start))) as Hsc
    by (intros c; unfold source_column; by rewrite E).
  assert (forall canvas0 : list (list float),
            (forall r c, ~ written y (Z.of_nat (length src)) r c) ->
            canvas_shape total_x total_y canvas0 ->
            exists canvas',
              Some canvas0 = Some canvas' /\
              canvas_shape total_x total_y canvas' /\
              forall r c,
                cell canvas' r c
                = if decide (written y (Z.of_nat (length src)) r c)
                  then src !! source_column (Z.of_nat (length src)) c
                  else cell canvas0 r c) as Hskip.
  { intros canvas0 Hno Hc0. exists canvas0. split; [done|]. split; [done|].
    intros r c. rewrite decide_False; [done|apply Hno]. }
  destruct (Z.ltb_spec (row_start + y) 0) as [Hneg|Hpos]; cbn [orb].
  { apply Hskip; [|done]. intros r c. rewrite Hw. lia. }
  destruct (Z.leb_spec total_y (row_start + y)) as [Hbig|Hin].
  { apply Hskip; [|done]. intros r c. rewrite Hw. lia. }
  destruct (Z.ltb_spec 0 copy_len) as [Hlen|Hlen].
  2:{ apply Hskip; [|done]. intros r c. rewrite Hw. lia. }
  destruct (Hfit Hlen) as [Hdfit Hsfit].
  set (t := Z.to_nat (row_start + y)).
  assert (t < length canvas)%nat as Ht by (unfold t; lia).
  destruct (lookup_lt_is_Some_2 canvas t Ht) as [dst Hdst]. rewrite Hdst.
  assert (length dst = Z.to_nat total_x) as Hdl.
  { rewrite Forall_forall in Hcols. apply Hcols.
    by eapply list_elem_of_lookup_2. }
  destruct (memcpy_spec dst dst_start src src_start copy_len)
    as (dst' & -> & Hl' & Hcells); try lia.
  eexists. split; [reflexivity|]. split.
  - split; [by rewrite length_insert|].
    apply Forall_insert; [done|]. by rewrite Hl'.
  - intros r c. unfold cell. rewrite Hsc.
    destruct (decide (r = t)) as [->|Hr].
    + rewrite list_lookup_insert_eq by done. rewrite Hdst. cbn.
      rewrite Hcells. case_decide as H1; case_decide as H2; try done;
        rewrite Hw in H2; unfold t in *; lia.
    + rewrite list_lookup_insert_ne by done.
      rewrite decide_False; [done|]. rewrite Hw. unfold t in Hr. lia.
Qed.

Lemma place_rows_spec np_array : forall y canvas,
  canvas_shape total_x total_y canvas ->
  exists canvas',
    place_rows total_x total_y row_start column_start x_len y_len
               y np_array canvas = Some canvas' /\
    canvas_shape total_x total_y canvas'.
Proof.
  induction np_array as [|src np_array IH]; intros y canvas Hc;
    cbn [place_rows]; [by eauto|].
  destruct (y <? y_len); [|by eauto].
  destruct (place_row_spec y src canvas Hc) as (c1 & -> & Hc1 & _).
  by apply IH.
Qed.

End Placement.

Lemma place_mesh_spec bounds size_x size_y total_x total_y metadata np_array
    canvas x_coordinate y_coordinate :
  canvas_shape total_x total_y canvas ->
  round_to_int ((Metadata.lower_corner_y metadata - min_lng bounds) / size_x)
  = Some x_coordinate ->
  round_to_int ((Metadata.lower_corner_x metadata - min_lat bounds) / (- size_y))
  = Some y_coordinate ->
  exists canvas',
    place_mesh bounds size_x size_y total_x total_y metadata np_array canvas
      = Some canvas' /\
    canvas_shape total_x total_y canvas'.
Proof.
  intros Hc Hx Hy. unfold place_mesh. rewrite Hx, Hy. by apply place_rows_spec.
Qed.

Lemma place_meshes_shape bounds size_x size_y total_x total_y metas :
  forall arrays canvas canvas',
  canvas_shape total_x total_y canvas ->
  place_meshes bounds size_x size_y total_x total_y metas arrays canvas
    = Some canvas' ->
  canvas_shape total_x total_y canvas'.
Proof.
  induction metas as [|m metas IH]; intros arrays canvas canvas' Hc;
    cbn [place_meshes]; [by intros [= <-]|].
  destruct arrays as [|a arrays]; [by intros [= <-]|].
  unfold place_mesh at 1.
  destruct (round_to_int _) as [xc|]; [|done].
  destruct (round_to_int _) as [yc|]; [|done].
  destruct (place_rows_spec total_x total_y
              (total_y - (yc + Metadata.y_length m)) xc
              (Metadata.x_length m) (Metadata.y_length m) a 0 canvas Hc)
    as (c1 & -> & Hc1).
  by apply IH.
Qed.

End AssemblerFacts.

(** ** Properties of the pixel loops *)

Module LoopFacts.

Section PixelLoop.

Variable pixel : Z -> Z -> option action.
Variables rows cols : Z.

(** Two pixels of the range do not write the same element. *)
Definition injective_writes : Prop :=
  forall r c r' c' i v v',
    0 <= r < rows -> 0 <= c < cols -> 0 <= r' < rows -> 0 <= c' < cols ->
    pixel r c = Some (Write i v) -> pixel r' c' = Some (Write i v') ->
    r = r' /\ c = c'.

Definition col_body (row col : Z) (buffer : list float) : option (list float) :=
  match pixel row col with
  | None => None
  | Some a => run_action a buffer
  end.

Lemma run_action_lookup a buffer buffer' :
  run_action a buffer = Some buffer' ->
  length buffer' = length buffer /\
  forall j : nat,
    buffer' !! j
    = match a with
      | Write i v => if decide (i = Z.of_nat j) then Some v else buffer !! j
      | Skip => buffer !! j
      end.
Proof.
  destruct a as [|i v]; simpl.
  - by intros [= <-].
  - destruct (Z.leb_spec 0 i); [|done].
    destruct (Z.ltb_spec i (Z.of_nat (length buffer))); [|done].
    intros [= <-]. split; [by rewrite length_insert|].
    intros j. case_decide as Hj.
    + subst i. rewrite Nat2Z.id. by rewrite list_lookup_insert_eq by lia.
    + rewrite list_lookup_insert_ne by lia. done.
Qed.

(** The columns [c, c + k) of one row. *)
Lemma cols_loop_spec row k : forall c buffer buffer',
  for_loop k c (col_body row) buffer = Some buffer' ->
  length buffer' = length buffer /\
  (forall c', c <= c' < c + Z.of_nat k -> is_Some (pixel row c')) /\
  forall j : nat,
    (forall c' v, c <= c' < c + Z.of_nat k ->
       pixel row c' = Some (Write (Z.of_nat j) v) ->
       (forall c'' v', c' < c'' < c + Z.of_nat k ->
          pixel row c'' <> Some (Write (Z.of_nat j) v')) ->
       buffer' !! j = Some v) /\
    ((forall c' v, c <= c' < c + Z.of_nat k ->
        pixel row c' <> Some (Write (Z.of_nat j) v)) ->
     buffer' !! j = buffer !! j).
Proof.
  induction k as [|k IH]; intros c buffer buffer'; cbn [for_loop].
  - intros [= <-]. split; [done|]. split; [intros; lia|].
    intros j. split; [intros; lia|done].
  - unfold col_body at 1. destruct (pixel row c) as [a|] eqn:Ea; [|done].
    destruct (run_action a buffer) as [b1|] eqn:Er; [|done].
    intros Hloop. apply run_action_lookup in Er as [Hl1 Hb1].
    apply IH in Hloop as (Hl & Hdef & Hcells).
    split; [congruence|]. split.
    { intros c' Hc'. destruct (decide (c' = c)) as [->|]; [by rewrite Ea|].
      apply Hdef. lia. }
    intros j. destruct (Hcells j) as [Hlast Hnone]. split.
    + intros c' v Hc' Hw Hlater.
      destruct (decide (c' = c)) as [->|Hne].
      * rewrite Hnone.
        -- rewrite Hb1. rewrite Ea in Hw. injection Hw as ->.
           by rewrite decide_True.
        -- intros c'' v' Hc''. apply Hlater. lia.
      * apply (Hlast c' v); [lia|done|]. intros c'' v' Hc''. apply Hlater. lia.
    + intros Hno. rewrite Hnone.
      * rewrite Hb1. destruct a as [|i v]; [done|].
        rewrite decide_False; [done|]. intros ->.
        apply (Hno c v); [lia|done].
      * intros c' v Hc'. apply Hno. lia.
Qed.

(** The whole loop, under [injective_writes]: an element holds the value of
    the pixel that writes it, if there is one, and is left alone if not. *)
Lemma rows_loop_spec k : forall r buffer buffer',
  injective_writes -> 0 <= r -> r + Z.of_nat k <= rows -> 0 <= cols ->
  for_loop k r (fun row => for_range cols (col_body row)) buffer
    = Some buffer' ->
  length buffer' = length buffer /\
  (forall r' c', r <= r' < r + Z.of_nat k -> 0 <= c' < cols ->
     is_Some (pixel r' c')) /\
  forall j : nat,
    (forall r' c' v, r <= r' < r + Z.of_nat k -> 0 <= c' < cols ->
       pixel r' c' = Some (Write (Z.of_nat j) v) -> buffer' !! j = Some v) /\
    ((forall r' c' v, r <= r' < r + Z.of_nat k -> 0 <= c' < cols ->
        pixel r' c' <> Some (Write (Z.of_nat j) v)) ->
     buffer' !! j = buffer !! j).
Proof.
  intros r buffer buffer' Hinj. revert r buffer buffer'.
  induction k as [|k IH]; intros r buffer buffer' Hr Hk Hcols; cbn [for_loop].
  - intros [= <-]. split; [done|]. split; [intros; lia|].
    intros j. split; [intros; lia|done].
  - destruct (for_range cols (col_body r) buffer) as [b1|] eqn:Erow; [|done].
    intros Hloop. unfold for_range in Erow.
    apply cols_loop_spec in Erow as (Hl1 & Hdef1 & Hb1).
    apply IH in Hloop as (Hl & Hdef & Hcells); [|lia|lia|done].
    split; [congruence|]. split.
    { intros r' c' Hr' Hc'. destruct (decide (r' = r)) as [->|].
      - apply Hdef1. lia.
      - apply Hdef; lia. }
    intros j. destruct (Hcells j) as [Hwritten Hnone].
    destruct (Hb1 j) as [Hlast1 Hnone1]. split.
    + intros r' c' v Hr' Hc' Hw.
      destruct (decide (r' = r)) as [->|Hne].
      * rewrite Hnone.
        -- apply (Hlast1 c' v); [lia|done|].
           intros c'' v' Hc'' Hw'.
           destruct (Hinj r c' r c'' (Z.of_nat j) v v') as [_ ?]; try done; lia.
        -- intros r'' c'' v' Hr'' Hc'' Hw'.
           destruct (Hinj r c' r'' c'' (Z.of_nat j) v v') as [? _];
             try done; lia.
      * apply (Hwritten r' c' v); [lia|done|done].
    + intros Hno. rewrite Hnone.
      * apply Hnone1. intros c' v Hc'. apply Hno; lia.
      * intros r' c' v Hr' Hc'. apply Hno; lia.
Qed.

Lemma pixel_loop_spec buffer buffer' :
  injective_writes -> 0 <= rows -> 0 <= cols ->
  pixel_loop rows cols pixel buffer = Some buffer' ->
  length buffer' = length buffer /\
  (forall r c, 0 <= r < rows -> 0 <= c < cols -> is_Some (pixel r c)) /\
  forall j : nat,
    (forall r c v, 0 <= r < rows -> 0 <= c < cols ->
       pixel r c = Some (Write (Z.of_nat j) v) -> buffer' !! j = Some v) /\
    ((forall r c v, 0 <= r < rows -> 0 <= c < cols ->
        pixel r c <> Some (Write (Z.of_nat j) v)) ->
     buffer' !! j = buffer !! j).
Proof.
  intros Hinj Hrows Hcols Hloop. unfold pixel_loop, for_range in Hloop.
  pose proof (rows_loop_spec (Z.to_nat rows) 0 buffer buffer' Hinj) as H.
  rewrite Z2Nat.id in H by done. rewrite Z.add_0_l in H.
  apply H; try done; lia.
Qed.

(** The loop is defined when every pixel is and writes inside the buffer. *)
Lemma cols_loop_total row n k : forall c buffer,
  length buffer = n ->
  (forall c', c <= c' < c + Z.of_nat k ->
     exists a, pixel row c' = Some a /\
       match a with Write i _ => 0 <= i < Z.of_nat n | Skip => True end) ->
  exists buffer', for_loop k c (col_body row) buffer = Some buffer' /\
    length buffer' = n.
Proof.
  induction k as [|k IH]; intros c buffer Hn Hdef; cbn [for_loop]; [by eauto|].
  unfold col_body at 1.
  destruct (Hdef c) as (a & -> & Ha); [lia|].
  assert (exists b1, run_action a buffer = Some b1 /\ length b1 = n)
    as (b1 & -> & Hb1).
  { destruct a as [|i v]; simpl; [by eauto|].
    destruct (Z.leb_spec 0 i); [|lia].
    destruct (Z.ltb_spec i (Z.of_nat (length buffer))); [|lia].
    eexists. split; [done|]. by rewrite length_insert. }
  apply IH; [done|]. intros c' Hc'. apply Hdef. lia.
Qed.

Lemma pixel_loop_total buffer :
  (forall r c, 0 <= r < rows -> 0 <= c < cols ->
     exists a, pixel r c = Some a /\
       match a with
       | Write i _ => 0 <= i < Z.of_nat (length buffer)
       | Skip => True
       end) ->
  exists buffer', pixel_loop rows cols pixel buffer = Some buffer'.
Proof.
  intros Hdef. unfold pixel_loop, for_range.
  assert (forall k r b, 0 <= r -> r + Z.of_nat k <= Z.max 0 rows ->
            length b = length buffer ->
            exists b', for_loop k r
                         (fun row => for_loop (Z.to_nat cols) 0 (col_body row)) b
                       = Some b' /\ length b' = length buffer) as H.
  { induction k as [|k IH]; intros r b Hr Hk Hb; cbn [for_loop]; [by eauto|].
    destruct (cols_loop_total r (length buffer) (Z.to_nat cols) 0 b Hb)
      as (b1 & -> & Hb1).
    { intros c' Hc'. apply Hdef; lia. }
    apply IH; [lia|lia|done]. }
  destruct (H (Z.to_nat rows) 0 buffer) as (b' & Hb' & _); [lia|lia|done|].
  by exists b'.
Qed.

End PixelLoop.

Lemma flat_index_small row width col :
  0 <= row -> 0 <= col < width -> row * width + col < 2 ^ 63 -> width < 2 ^ 63 ->
  flat_index row width col = row * width + col.
Proof.
  intros Hr Hc Hs Hw. unfold flat_index.
  assert (row < 2 ^ 63) by nia.
  rewrite !GridFacts.to_size_t_small by lia.
  unfold size_modulus. apply Z.mod_small. nia.
Qed.

End LoopFacts.

(** ** Properties of the reprojector and of the merger *)

Module RasterFacts.

(** A raster whose buffer holds [height] rows of [width] values. *)
Record well_formed (d : GeoTiff.Data) : Prop := {
  wf_width : 0 <= GeoTiff.width d <= int_max;
  wf_height : 0 <= GeoTiff.height d <= int_max;
  wf_length : Z.of_nat (length (GeoTiff.data d)) = GeoTiff.height d * GeoTiff.width d
}.

Lemma flat_index_in_raster row width height col :
  0 <= width <= int_max -> 0 <= height <= int_max ->
  0 <= row < height -> 0 <= col < width ->
  flat_index row width col = row * width + col /\
  0 <= row * width + col < height * width.
Proof.
  unfold int_max. intros Hw Hh Hr Hc.
  assert (0 <= row * width + col < height * width) by nia.
  split; [|done]. apply LoopFacts.flat_index_small; nia.
Qed.

Lemma flat_index_injective width height r c r' c' :
  0 <= width <= int_max -> 0 <= height <= int_max ->
  0 <= r < height -> 0 <= c < width -> 0 <= r' < height -> 0 <= c' < width ->
  flat_index r width c = flat_index r' width c' -> r = r' /\ c = c'.
Proof.
  intros Hw Hh Hr Hc Hr' Hc'.
  destruct (flat_index_in_raster r width height c) as [-> _]; try done.
  destruct (flat_index_in_raster r' width height c') as [-> _]; try done.
  intros H. assert (r = r') by nia. subst. split; [done|lia].
Qed.

Lemma sample_defined d row col :
  well_formed d -> 0 <= row < GeoTiff.height d -> 0 <= col < GeoTiff.width d ->
  is_Some (GeoTiff.sample d row col).
Proof.
  intros [Hw Hh Hl] Hr Hc. unfold GeoTiff.sample.
  destruct (flat_index_in_raster row (GeoTiff.width d) (GeoTiff.height d) col)
    as [-> ?]; try done.
  apply lookup_lt_is_Some. lia.
Qed.

Section Resample.

Variable src : GeoTiff.Data.
Variable inverse : transform.
Variable g : Geometry.

Hypothesis src_ok : well_formed src.
Hypothesis width_ok : 0 <= dst_width g <= int_max.
Hypothesis height_ok : 0 <= dst_height g <= int_max.

(** The body of the loop, by the outcome of the two casts. *)
Lemma resample_pixel_cases dst_row dst_col :
  resample_pixel src inverse g dst_row dst_col
  = let '(src_col_f, src_row_f) := source_position src inverse g dst_row dst_col in
    match floor_to_int src_col_f, floor_to_int src_row_f with
    | Some col0, Some row0 =>
        if neighbourhood_inside src row0 col0 then
          match GeoTiff.sample src row0 col0, GeoTiff.sample src row0 (col0 + 1),
                GeoTiff.sample src (row0 + 1) col0,
                GeoTiff.sample src (row0 + 1) (col0 + 1) with
          | Some v00, Some v01, Some v10, Some v11 =>
              if GeoTiff.has_nodata src &&
                 (GeoTiff.is_nodata src v00 || GeoTiff.is_nodata src v01 ||
                  GeoTiff.is_nodata src v10 || GeoTiff.is_nodata src v11)
              then Some Skip
              else Some (Write (flat_index dst_row (dst_width g) dst_col)
                               (specified_pixel src src_col_f src_row_f row0 col0))
          | _, _, _, _ => None
          end
        else Some Skip
    | _, _ => None
    end.
Proof.
  unfold resample_pixel, specified_pixel, neighbourhood_inside.
  destruct (source_position _ _ _ _ _) as [cf rf].
  destruct (floor_to_int cf) as [c0|]; [|done].
  destruct (floor_to_int rf) as [r0|]; [|done].
  destruct (_ && _ && _ && _); [|done].
  destruct (GeoTiff.sample src r0 c0); [|done].
  destruct (GeoTiff.sample src r0 (c0 + 1)); [|done].
  destruct (GeoTiff.sample src (r0 + 1) c0); [|done].
  destruct (GeoTiff.sample src (r0 + 1) (c0 + 1)); [|done].
  by destruct (_ && _).
Qed.

Lemma inside_samples row0 col0 :
  neighbourhood_inside src row0 col0 = true ->
  exists v00 v01 v10 v11,
    GeoTiff.sample src row0 col0 = Some v00 /\
    GeoTiff.sample src row0 (col0 + 1) = Some v01 /\
    GeoTiff.sample src (row0 + 1) col0 = Some v10 /\
    GeoTiff.sample src (row0 + 1) (col0 + 1) = Some v11.
Proof.
  unfold neighbourhood_inside. intros H.
  apply andb_prop in H as [[[H1 H2]%andb_prop H3]%andb_prop H4].
  apply Z.leb_le in H1, H3. apply Z.ltb_lt in H2, H4.
  destruct (sample_defined src row0 col0 src_ok) as [v00 ?]; [lia|lia|].
  destruct (sample_defined src row0 (col0 + 1) src_ok) as [v01 ?]; [lia|lia|].
  destruct (sample_defined src (row0 + 1) col0 src_ok) as [v10 ?]; [lia|lia|].
  destruct (sample_defined src (row0 + 1) (col0 + 1) src_ok) as [v11 ?];
    [lia|lia|].
  by exists v00, v01, v10, v11.
Qed.

Lemma resample_injective :
  LoopFacts.injective_writes (resample_pixel src inverse g)
    (dst_height g) (dst_width g).
Proof.
  intros r c r' c' i v v' Hr Hc Hr' Hc' H H'.
  assert (forall r c i v,
            resample_pixel src inverse g r c = Some (Write i v) ->
            i = flat_index r (dst_width g) c) as Hidx.
  { clear. intros r c i v. rewrite resample_pixel_cases.
    destruct (source_position _ _ _ _ _) as [cf rf].
    destruct (floor_to_int cf) as [c0|]; [|done].
    destruct (floor_to_int rf) as [r0|]; [|done].
    destruct (neighbourhood_inside _ _ _); [|done].
    destruct (GeoTiff.sample src r0 c0); [|done].
    destruct (GeoTiff.sample src r0 (c0 + 1)); [|done].
    destruct (GeoTiff.sample src (r0 + 1) c0); [|done].
    destruct (GeoTiff.sample src (r0 + 1) (c0 + 1)); [|done].
    destruct (_ && _); [done|]. by intros [= <- _]. }
  apply Hidx in H, H'. subst i.
  by eapply (flat_index_injective (dst_width g) (dst_height g)).
Qed.

Lemma initial_buffer_length (v : float) :
  Z.of_nat (length (replicate
     (Z.to_nat ((to_size_t (dst_width g) * to_size_t (dst_height g))
                mod size_modulus)) v))
  = dst_height g * dst_width g.
Proof.
  revert width_ok height_ok. unfold int_max. intros Hw Hh.
  rewrite length_replicate.
  rewrite !GridFacts.to_size_t_small by lia.
  unfold size_modulus. rewrite Z.mod_small by nia. nia.
Qed.

(** Every pixel of the destination raster holds the specified pixel. *)
Lemma resample_pixels_spec pixels :
  resample_pixels src inverse g = Some pixels ->
  Z.of_nat (length pixels) = dst_height g * dst_width g /\
  forall dst_row dst_col,
    0 <= dst_row < dst_height g -> 0 <= dst_col < dst_width g ->
    exists row0 col0,
      floor_to_int (source_position src inverse g dst_row dst_col).1 = Some col0 /\
      floor_to_int (source_position src inverse g dst_row dst_col).2 = Some row0 /\
      pixels !! Z.to_nat (dst_row * dst_width g + dst_col)
      = Some (specified_pixel src
                (source_position src inverse g dst_row dst_col).1
                (source_position src inverse g dst_row dst_col).2 row0 col0).
Proof.
  unfold resample_pixels. intros Hloop.
  apply LoopFacts.pixel_loop_spec in Hloop as (Hlen & Hdef & Hcells);
    [|apply resample_injective|lia|lia].
  rewrite <- (initial_buffer_length (GeoTiff.nodata_value src)).
  split; [by rewrite Hlen|].
  intros dst_row dst_col Hr Hc.
  destruct (flat_index_in_raster dst_row (dst_width g) (dst_height g) dst_col)
    as [Hflat Hrange]; try done.
  destruct (Hdef dst_row dst_col Hr Hc) as [a Ha].
  pose proof Ha as Hcase. rewrite resample_pixel_cases in Hcase.
  destruct (source_position src inverse g dst_row dst_col) as [cf rf] eqn:Epos.
  cbn [fst snd].
  destruct (floor_to_int cf) as [c0|]; [|done].
  destruct (floor_to_int rf) as [r0|]; [|done].
  exists r0, c0. split; [done|]. split; [done|].
  destruct (Hcells (Z.to_nat (dst_row * dst_width g + dst_col)))
    as [Hwritten Hkept].
  rewrite Z2Nat.id in Hwritten, Hkept by lia.
  assert (a = Skip ->
          pixels !! Z.to_nat (dst_row * dst_width g + dst_col)
          = Some (GeoTiff.nodata_value src)) as Hskip.
  { intros ->. rewrite Hkept.
    - apply lookup_replicate_2.
      pose proof (initial_buffer_length (GeoTiff.nodata_value src)) as Hl.
      rewrite length_replicate in Hl. lia.
    - intros r' c' v' Hr' Hc' Hw.
      assert (resample_pixel src inverse g r' c'
              = Some (Write (flat_index dst_row (dst_width g) dst_col) v')) as Hw'
        by (by rewrite Hflat).
      assert (exists v'', resample_pixel src inverse g r' c'
                = Some (Write (flat_index r' (dst_width g) c') v'')) as [v'' Hw''].
      { destruct (flat_index_in_raster r' (dst_width g) (dst_height g) c')
          as [Hflat' _]; try done.
        revert Hw. rewrite resample_pixel_cases.
        destruct (source_position _ _ _ r' c') as [cf' rf'].
        destruct (floor_to_int cf') as [c0'|]; [|done].
        destruct (floor_to_int rf') as [r0'|]; [|done].
        destruct (neighbourhood_inside src r0' c0'); [|done].
        destruct (GeoTiff.sample src r0' c0'); [|done].
        destruct (GeoTiff.sample src r0' (c0' + 1)); [|done].
        destruct (GeoTiff.sample src (r0' + 1) c0'); [|done].
        destruct (GeoTiff.sample src (r0' + 1) (c0' + 1)); [|done].
        destruct (_ && _); [done|]. intros [= _ <-]. by eexists. }
      rewrite Hw'' in Hw'. injection Hw' as Hsame _.
      apply (flat_index_injective (dst_width g) (dst_height g)) in Hsame
        as [-> ->]; try done.
      rewrite Ha in Hw. done. }
  unfold specified_pixel in *.
  destruct (neighbourhood_inside src r0 c0) eqn:Ein.
  2:{ injection Hcase as <-. by apply Hskip. }
  destruct (inside_samples r0 c0 Ein) as (v00 & v01 & v10 & v11 & E1 & E2 & E3 & E4).
  rewrite E1, E2, E3, E4 in Hcase |- *.
  destruct (_ && _).
  { injection Hcase as <-. by apply Hskip. }
  injection Hcase as <-. rewrite Hflat in Ha.
  by apply (Hwritten dst_row dst_col).
Qed.


End Resample.

Section Merge.

Variables out_width out_height : Z.
Variable src : GeoTiff.Data.
Variables dst_row_start dst_col_start : Z.

Hypothesis src_ok : well_formed src.
Hypothesis width_ok : 0 <= out_width <= int_max.
Hypothesis height_ok : 0 <= out_height <= int_max.

Lemma merge_pixel_cases row col :
  0 <= row < GeoTiff.height src -> 0 <= col < GeoTiff.width src ->
  exists value,
    GeoTiff.sample src row col = Some value /\
    merge_pixel out_width out_height src dst_row_start dst_col_start row col
    = if (0 <=? dst_row_start + row) && (dst_row_start + row <? out_height) &&
         (0 <=? dst_col_start + col) && (dst_col_start + col <? out_width)
      then
        if GeoTiff.has_nodata src && GeoTiff.is_nodata src value
        then Some Skip
        else Some (Write ((dst_row_start + row) * out_width
                          + (dst_col_start + col)) value)
      else Some Skip.
Proof.
  intros Hr Hc.
  destruct (sample_defined src row col src_ok Hr Hc) as [value Hv].
  exists value. split; [done|]. unfold merge_pixel. rewrite Hv.
  destruct (Z.leb_spec 0 (dst_row_start + row)); [|done].
  destruct (Z.ltb_spec (dst_row_start + row) out_height); [|done].
  destruct (Z.leb_spec 0 (dst_col_start + col)); [|done].
  destruct (Z.ltb_spec (dst_col_start + col) out_width); [|done].
  cbn [andb].
  destruct (flat_index_in_raster (dst_row_start + row) out_width out_height
              (dst_col_start + col)) as [-> _]; try done.
  by destruct (GeoTiff.has_nodata src), (GeoTiff.is_nodata src value).
Qed.

Lemma merge_write_position row col i v :
  0 <= row < GeoTiff.height src -> 0 <= col < GeoTiff.width src ->
  merge_pixel out_width out_height src dst_row_start dst_col_start row col
    = Some (Write i v) ->
  i = (dst_row_start + row) * out_width + (dst_col_start + col) /\
  0 <= dst_row_start + row < out_height /\
  0 <= dst_col_start + col < out_width /\
  GeoTiff.sample src row col = Some v /\
  GeoTiff.has_nodata src && GeoTiff.is_nodata src v = false.
Proof.
  intros Hr Hc.
  destruct (merge_pixel_cases row col Hr Hc) as (value & Hv & ->).
  destruct (Z.leb_spec 0 (dst_row_start + row)); [|done].
  destruct (Z.ltb_spec (dst_row_start + row) out_height); [|done].
  destruct (Z.leb_spec 0 (dst_col_start + col)); [|done].
  destruct (Z.ltb_spec (dst_col_start + col) out_width); [|done].
  cbn [andb].
  destruct (GeoTiff.has_nodata src && GeoTiff.is_nodata src value) eqn:E;
    [done|].
  intros [= <- <-]. repeat split; try done; lia.
Qed.

Lemma merge_injective :
  LoopFacts.injective_writes
    (merge_pixel out_width out_height src dst_row_start dst_col_start)
    (GeoTiff.height src) (GeoTiff.width src).
Proof.
  intros r c r' c' i v v' Hr Hc Hr' Hc' H H'.
  apply merge_write_position in H as (-> & ? & ? & _); [|done|done].
  apply merge_write_position in H' as (Hi & ? & ? & _); [|done|done].
  assert (dst_row_start + r = dst_row_start + r') by nia.
  split; [lia|]. assert (r = r') by lia. subst. lia.
Qed.

(** After the pixel loop of one source raster, every cell of the output
    holds the merged cell. *)
Lemma merge_loop_spec output output' :
  Z.of_nat (length output) = out_height * out_width ->
  pixel_loop (GeoTiff.height src) (GeoTiff.width src)
    (merge_pixel out_width out_height src dst_row_start dst_col_start) output
    = Some output' ->
  length output' = length output /\
  forall dst_row dst_col,
    0 <= dst_row < out_height -> 0 <= dst_col < out_width ->
    output' !! Z.to_nat (dst_row * out_width + dst_col)
    = merged_cell src dst_row_start dst_col_start dst_row dst_col
        (output !! Z.to_nat (dst_row * out_width + dst_col)).
Proof.
  intros Hlen Hloop. destruct src_ok as [Hw Hh Hl].
  apply LoopFacts.pixel_loop_spec in Hloop as (Hlen' & _ & Hcells);
    [|apply merge_injective|lia|lia].
  split; [done|]. intros dst_row dst_col Hr Hc.
  assert (0 <= dst_row * out_width + dst_col) by nia.
  destruct (Hcells (Z.to_nat (dst_row * out_width + dst_col)))
    as [Hwritten Hkept].
  rewrite Z2Nat.id in Hwritten, Hkept by lia.
  assert (forall r c v, 0 <= r < GeoTiff.height src ->
            0 <= c < GeoTiff.width src ->
            merge_pixel out_width out_height src dst_row_start dst_col_start r c
              = Some (Write (dst_row * out_width + dst_col) v) ->
            r = dst_row - dst_row_start /\ c = dst_col - dst_col_start)
    as Hwho.
  { intros r c v Hr' Hc' Hw'.
    apply merge_write_position in Hw' as (Hi & ? & ? & _); [|done|done].
    assert (dst_row = dst_row_start + r) by nia. split; [lia|]. subst. lia. }
  unfold merged_cell.
  destruct (Z.leb_spec 0 (dst_row - dst_row_start)); cbn [andb].
  2:{ apply Hkept. intros r c v Hr' Hc' Hw'.
      apply Hwho in Hw' as [? ?]; [lia|done|done]. }
  destruct (Z.ltb_spec (dst_row - dst_row_start) (GeoTiff.height src));
    cbn [andb].
  2:{ apply Hkept. intros r c v Hr' Hc' Hw'.
      apply Hwho in Hw' as [? ?]; [lia|done|done]. }
  destruct (Z.leb_spec 0 (dst_col - dst_col_start)); cbn [andb].
  2:{ apply Hkept. intros r c v Hr' Hc' Hw'.
      apply Hwho in Hw' as [? ?]; [lia|done|done]. }
  destruct (Z.ltb_spec (dst_col - dst_col_start) (GeoTiff.width src)).
  2:{ apply Hkept. intros r c v Hr' Hc' Hw'.
      apply Hwho in Hw' as [? ?]; [lia|done|done]. }
  set (row := dst_row - dst_row_start) in *.
  set (col := dst_col - dst_col_start) in *.
  destruct (merge_pixel_cases row col) as (value & Hv & Hpix); [lia|lia|].
  rewrite Hv.
  replace (dst_row_start + row) with dst_row in Hpix by (unfold row; lia).
  replace (dst_col_start + col) with dst_col in Hpix by (unfold col; lia).
  destruct (Z.leb_spec 0 dst_row); [|lia].
  destruct (Z.ltb_spec dst_row out_height); [|lia].
  destruct (Z.leb_spec 0 dst_col); [|lia].
  destruct (Z.ltb_spec dst_col out_width); [|lia].
  cbn [andb] in Hpix.
  destruct (GeoTiff.has_nodata src && GeoTiff.is_nodata src value).
  - apply Hkept. intros r c v Hr' Hc' Hw'.
    pose proof Hw' as Hw''. apply Hwho in Hw'' as [-> ->]; [|done|done].
    fold row col in Hw'. by rewrite Hpix in Hw'.
  - apply (Hwritten row col value); [lia|lia|done].
Qed.

Lemma merge_loop_total output :
  Z.of_nat (length output) = out_height * out_width ->
  is_Some (pixel_loop (GeoTiff.height src) (GeoTiff.width src)
             (merge_pixel out_width out_height src dst_row_start dst_col_start)
             output).
Proof.
  intros Hlen.
  destruct (LoopFacts.pixel_loop_total
              (merge_pixel out_width out_height src dst_row_start dst_col_start)
              (GeoTiff.height src) (GeoTiff.width src) output) as [o ->];
    [|done].
  intros r c Hr Hc.
  destruct (merge_pixel_cases r c Hr Hc) as (value & _ & ->).
  destruct (Z.leb_spec 0 (dst_row_start + r)); [|by exists Skip].
  destruct (Z.ltb_spec (dst_row_start + r) out_height); [|by exists Skip].
  destruct (Z.leb_spec 0 (dst_col_start + c)); [|by exists Skip].
  destruct (Z.ltb_spec (dst_col_start + c) out_width); [|by exists Skip].
  cbn [andb].
  destruct (GeoTiff.has_nodata src && GeoTiff.is_nodata src value);
    [by exists Skip|].
  eexists. split; [done|]. cbn beta iota. nia.
Qed.

End Merge.

End RasterFacts.

(** ** Properties of the reprojection protocol *)

Module ReprojectorFacts.

Lemma digit_cases d : is_digit d ->
  d = 0 \/ d = 1 \/ d = 2 \/ d = 3 \/ d = 4 \/
  d = 5 \/ d = 6 \/ d = 7 \/ d = 8 \/ d = 9.
Proof. unfold is_digit. lia. Qed.

Lemma digit_of_digit_char d : is_digit d -> digit_of (digit_char d) = Some d.
Proof.
  intros H. destruct (digit_cases d H) as [->|[->|[->|[->|[->|[->|[->|[->|[->| ->]]]]]]]]];
    reflexivity.
Qed.

Lemma digit_char_plain d : is_digit d ->
  is_cspace (digit_char d) = false /\
  byte_eqb (digit_char d) "-"%byte = false /\
  byte_eqb (digit_char d) "+"%byte = false.
Proof.
  intros H. destruct (digit_cases d H) as [->|[->|[->|[->|[->|[->|[->|[->|[->| ->]]]]]]]]];
    by vm_compute.
Qed.

Lemma read_digits_digits ds : forall acc count,
  Forall is_digit ds ->
  read_digits (map digit_char ds) acc count
  = (foldl (fun acc d => 10 * acc + d) acc ds, (count + length ds)%nat, []).
Proof.
  induction ds as [|d ds IH]; intros acc count Hds; cbn [map read_digits].
  - cbn. by rewrite Nat.add_0_r.
  - apply Forall_cons in Hds as [Hd Hds].
    rewrite (digit_of_digit_char d Hd), IH by done.
    cbn [foldl length]. do 2 f_equal. lia.
Qed.

Lemma stoi_digits ds :
  ds <> [] -> Forall is_digit ds -> in_int_range (digits_value ds) = true ->
  stoi (map digit_char ds) = Some (digits_value ds).
Proof.
  intros Hne Hds Hrange. destruct ds as [|d ds]; [done|].
  pose proof Hds as Hds'. apply Forall_cons in Hds' as [Hd _].
  destruct (digit_char_plain d Hd) as (Hsp & Hminus & Hplus).
  unfold stoi. cbn [map skip_cspace]. rewrite Hsp, Hminus, Hplus.
  change (digit_char d :: map digit_char ds) with (map digit_char (d :: ds)).
  rewrite read_digits_digits by done. cbn [length Nat.add].
  fold (digits_value (d :: ds)). by rewrite Hrange.
Qed.

(** A string ["EPSG:"] followed by a decimal code in the range of [int]
    gives that code. *)
Lemma extract_epsg_code ds :
  ds <> [] -> Forall is_digit ds -> in_int_range (digits_value ds) = true ->
  extract_epsg (tag "EPSG:" ++ map digit_char ds) = Some (digits_value ds).
Proof.
  intros. unfold extract_epsg.
  replace (starts_with (tag "EPSG:" ++ map digit_char ds) (tag "EPSG:"))
    with true by (by destruct ds).
  replace (drop 5 (tag "EPSG:" ++ map digit_char ds))
    with (map digit_char ds) by reflexivity.
  by rewrite stoi_digits.
Qed.

(** Any string that does not begin with ["EPSG:"] gives the code 0. *)
Lemma extract_epsg_other dst_crs :
  starts_with dst_crs (tag "EPSG:") = false -> extract_epsg dst_crs = Some 0.
Proof. intros H. unfold extract_epsg. by rewrite H. Qed.

Section Protocol.

Variable env : Environment.
Variable output_path : string.
Variable dst_crs : text.
Variable fs : file_system.

(** A target string the primitive rejects ends the run with
    [invalid_argument] and the storage as it was. *)
Lemma resampling_rejected src_data :
  read_geotiff fs output_path = Some src_data ->
  context_created env = true ->
  proj_create env dst_crs = false ->
  resampling env output_path dst_crs fs = (Failure invalid_argument, fs).
Proof.
  intros Hread Hctx Hrej. unfold resampling.
  by rewrite Hread, Hctx, Hrej, andb_false_r.
Qed.

(** A run that replaced the file stored the code of [extract_epsg]. *)
Lemma resampling_success_epsg fs' :
  resampling env output_path dst_crs fs = (Success, fs') ->
  proj_is_equivalent_to env src_crs dst_crs = false ->
  exists code, extract_epsg dst_crs = Some code /\
    stored_epsg fs' output_path = Some code.
Proof.
  unfold resampling, reproject, write_geotiff, fs_remove, fs_rename.
  intros H Hne. rewrite Hne in H.
  repeat case_match; simplify_eq.
  eexists. split; [done|]. unfold stored_epsg.
  rewrite lookup_insert_eq.
  match goal with
  | H : delete _ _ !! _ = Some _ |- _ =>
      apply lookup_delete_Some in H as [Hdiff H];
      rewrite lookup_insert_eq in H; by simplify_eq
  end.
Qed.

(** The file at [output_path] after a run that did not succeed. *)
Lemma resampling_failure_storage out fs' :
  temp_path_of env output_path <> output_path ->
  resampling env output_path dst_crs fs = (out, fs') ->
  out <> Success ->
  fs' !! output_path = fs !! output_path \/
  (out = Exception /\ write_succeeds env = true /\ remove_succeeds env = true /\
   fs' !! output_path = None).
Proof.
  unfold resampling, reproject, write_geotiff, fs_remove, fs_rename.
  intros Htemp H Hout.
  repeat case_match; simplify_eq; try (by left);
    try (left; by rewrite lookup_insert_ne);
    right; repeat split; try done; by rewrite lookup_delete_eq.
Qed.

End Protocol.

End ReprojectorFacts.

(** ** Further properties of the loops, the casts and the merger *)

Module MoreFacts.

(** A property that every defined step of a loop keeps holds after it. *)
Lemma for_loop_invariant {S : Type} (P : S -> Prop) (body : Z -> S -> option S)
    steps : forall i state state',
  (forall i s s', P s -> body i s = Some s' -> P s') ->
  P state -> for_loop steps i body state = Some state' -> P state'.
Proof.
  induction steps as [|k IH]; intros i state state' Hbody HP; cbn [for_loop].
  - by intros [= <-].
  - destruct (body i state) as [s1|] eqn:E; [|done].
    apply IH; [done|]. by apply (Hbody i state).
Qed.

Lemma run_action_length a buffer buffer' :
  run_action a buffer = Some buffer' -> length buffer' = length buffer.
Proof.
  destruct a as [|i v]; cbn [run_action]; [by intros [= <-]|].
  destruct (_ && _); [|done]. intros [= <-]. by rewrite length_insert.
Qed.

(** A pixel loop keeps the length of its buffer. *)
Lemma pixel_loop_length rows cols pixel buffer buffer' :
  pixel_loop rows cols pixel buffer = Some buffer' ->
  length buffer' = length buffer.
Proof.
  unfold pixel_loop, for_range.
  apply (for_loop_invariant (fun b => length b = length buffer)); [|done].
  intros row b b' Hb.
  apply (for_loop_invariant (fun b => length b = length buffer)); [|done].
  intros col b1 b2 Hb1. destruct (pixel row col) as [a|]; [|done].
  intros H. apply run_action_length in H. congruence.
Qed.

Lemma to_int_range z w : to_int z = Some w -> int_min <= w <= int_max.
Proof.
  unfold to_int. destruct z as [z|]; [|done].
  destruct (in_int_range z) eqn:E; [|done]. intros [= <-].
  unfold in_int_range in E. apply andb_prop in E as [H1 H2].
  apply Z.leb_le in H1, H2. lia.
Qed.

(** The length of a buffer [resize(size_t(w) * h, v)] for [int] dimensions
    that are not negative. *)
Lemma buffer_length (w h : Z) (v : float) :
  0 <= w <= int_max -> 0 <= h <= int_max ->
  Z.of_nat (length (replicate
     (Z.to_nat ((to_size_t w * to_size_t h) mod size_modulus)) v)) = h * w.
Proof.
  unfold int_max. intros Hw Hh. rewrite length_replicate.
  rewrite !GridFacts.to_size_t_small by lia.
  unfold size_modulus. rewrite Z.mod_small by nia. rewrite Z2Nat.id by nia. lia.
Qed.

Lemma merge_datasets_length out_width out_height min_x max_y pixel_width
    pixel_height datasets : forall output output',
  merge_datasets out_width out_height min_x max_y pixel_width pixel_height
    datasets output = Some output' ->
  length output' = length output.
Proof.
  induction datasets as [|d ds IH]; intros output output'; cbn [merge_datasets].
  - by intros [= <-].
  - destruct (merge_dataset _ _ _ _ _ _ d output) as [o1|] eqn:E; [|done].
    intros H. apply IH in H. unfold merge_dataset in E.
    destruct (merge_offsets _ _ _ _ d) as [[rs cs]|]; [|done].
    apply pixel_loop_length in E. congruence.
Qed.


(** Placing a raster on a cell twice is placing it once. *)
Lemma merged_cell_idempotent src row_start col_start dst_row dst_col before :
  merged_cell src row_start col_start dst_row dst_col
    (merged_cell src row_start col_start dst_row dst_col before)
  = merged_cell src row_start col_start dst_row dst_col before.
Proof.
  unfold merged_cell.
  destruct (_ && _ && _ && _); [|done].
  destruct (GeoTiff.sample src _ _) as [value|]; [|done].
  by destruct (GeoTiff.has_nodata src && GeoTiff.is_nodata src value).
Qed.

(** Two buffers of [h * w] cells with the same cells are equal. *)
Lemma buffers_equal (w h : Z) (a b : list float) :
  0 <= w -> 0 <= h ->
  Z.of_nat (length a) = h * w -> length b = length a ->
  (forall r c, 0 <= r < h -> 0 <= c < w ->
     a !! Z.to_nat (r * w + c) = b !! Z.to_nat (r * w + c)) ->
  a = b.
Proof.
  intros Hw Hh Ha Hb Hcells. apply list_eq. intros j.
  destruct (decide (j < length a)%nat) as [Hj|Hj].
  - assert (0 < w) as Hpos by nia.
    pose proof (Z.div_mod (Z.of_nat j) w ltac:(lia)) as Hdm.
    pose proof (Z.mod_pos_bound (Z.of_nat j) w Hpos) as Hm.
    assert (0 <= Z.of_nat j / w) as Hq by (apply Z.div_pos; lia).
    assert (Z.of_nat j / w < h) as Hq'
      by (apply Z.div_lt_upper_bound; [lia|nia]).
    specialize (Hcells (Z.of_nat j / w) (Z.of_nat j mod w)
                  ltac:(lia) ltac:(lia)).
    replace (Z.of_nat j / w * w + Z.of_nat j mod w) with (Z.of_nat j)
      in Hcells by lia.
    by rewrite Nat2Z.id in Hcells.
  - rewrite !lookup_ge_None_2 by lia. done.
Qed.

(** The loop over the datasets returns when each pixel loop does. *)
Lemma merge_datasets_total out_width out_height min_x max_y pixel_width
    pixel_height datasets : forall output,
  0 <= out_width <= int_max -> 0 <= out_height <= int_max ->
  Forall RasterFacts.well_formed datasets ->
  Forall (fun src =>
            is_Some (merge_offsets min_x max_y pixel_width pixel_height src))
         datasets ->
  Z.of_nat (length output) = out_height * out_width ->
  is_Some (merge_datasets out_width out_height min_x max_y pixel_width
             pixel_height datasets output).
Proof.
  induction datasets as [|src ds IH]; intros output Hw Hh Hsrc Hoff Hlen;
    cbn [merge_datasets]; [done|].
  apply Forall_cons in Hsrc as [Hs Hsrc]. apply Forall_cons in Hoff as [Ho Hoff].
  unfold merge_dataset at 1. destruct Ho as [[rs cs] ->].
  destruct (RasterFacts.merge_loop_total out_width out_height src rs cs
              Hs Hw Hh output Hlen) as [o1 Ho1].
  rewrite Ho1. apply pixel_loop_length in Ho1.
  apply IH; try done. by rewrite Ho1.
Qed.

End MoreFacts.

(** ** Further properties of the reprojection protocol *)

Module MoreReprojectorFacts.

(** The dimensions of a destination grid. *)
Lemma destination_geometry_dimensions src forward g :
  destination_geometry src forward = Some g ->
  1 <= dst_width g <= int_max /\ 1 <= dst_height g <= int_max.
Proof.
  unfold destination_geometry. cbn zeta.
  destruct (ceil_to_int _) as [w|] eqn:Ew; [|done].
  destruct (ceil_to_int _) as [h|] eqn:Eh in |- *; [|done].
  intros [= <-]. cbn.
  apply MoreFacts.to_int_range in Ew, Eh.
  unfold int_min, int_max in *. lia.
Qed.

(** The reprojected raster. *)
Lemma reproject_shape src inverse g code dst :
  RasterFacts.well_formed src ->
  1 <= dst_width g <= int_max -> 1 <= dst_height g <= int_max ->
  reproject src inverse g code = Some dst ->
  RasterFacts.well_formed dst /\
  GeoTiff.width dst = dst_width g /\ GeoTiff.height dst = dst_height g /\
  GeoTiff.epsg dst = code /\
  GeoTiff.nodata_value dst = GeoTiff.nodata_value src /\
  GeoTiff.has_nodata dst = GeoTiff.has_nodata src /\
  GeoTiff.geo_transform_2 dst = 0%float /\
  GeoTiff.geo_transform_4 dst = 0%float.
Proof.
  intros Hsrc Hw Hh. unfold reproject.
  destruct (resample_pixels src inverse g) as [pixels|] eqn:E; [|done].
  intros [= <-]. cbn.
  destruct (RasterFacts.resample_pixels_spec src inverse g Hsrc
              ltac:(lia) ltac:(lia) pixels E) as [Hlen _].
  repeat split; cbn; try done; lia.
Qed.

End MoreReprojectorFacts.

(** ** Properties of the mesh archive in memory *)

Module DemFacts.

Section WithFromChars.

Variable from_chars_double : text -> option (float * text).

(** The constructor of the parser returns on every document. *)
Lemma XmlParser_new_total xml_content :
  exists data,
    XmlParser_new from_chars_double xml_content = Some (Constructed data).
Proof.
  unfold XmlParser_new, parse_all.
  destruct (ParserFacts.parse_all_loop_total from_chars_double true
              (S (length xml_content)) xml_content ParsedData_default)
    as [data ->]; [lia|]. by exists data.
Qed.

Lemma check_mesh_codes_spec contents : forall codes,
  check_mesh_codes from_chars_double contents codes
  = Some (codes ++ omap (document_code from_chars_double) contents).
Proof.
  induction contents as [|xml contents IH]; intros codes;
    cbn [check_mesh_codes omap list_omap].
  - by rewrite app_nil_r.
  - unfold document_code at 1.
    destruct (XmlParser_new_total xml) as [data ->].
    rewrite IH. destruct (get_mesh_code data); [|done].
    by rewrite <- app_assoc.
Qed.

Lemma populate_metadata_list_spec contents : forall codes,
  exists metas,
    populate_metadata_list from_chars_double contents codes = Some metas /\
    length metas = (length contents `min` length codes)%nat /\
    forall i m,
      metas !! i = Some m ->
      exists xml data code,
        contents !! i = Some xml /\
        XmlParser_new from_chars_double xml = Some (Constructed data) /\
        codes !! i = Some code /\
        m = format_metadata data code.
Proof.
  induction contents as [|xml contents IH]; intros codes;
    cbn [populate_metadata_list].
  - exists []. by repeat split.
  - destruct codes as [|code codes]; [exists []; by repeat split|].
    destruct (XmlParser_new_total xml) as [data Hdata]. rewrite Hdata.
    destruct (IH codes) as (metas & -> & Hlen & Hmetas).
    eexists. split; [done|]. split; [cbn; by rewrite Hlen|].
    intros [|i] m; cbn.
    + intros [= <-]. by exists xml, data, code.
    + apply Hmetas.
Qed.

Lemma length_document_codes contents :
  (length (omap (document_code from_chars_double) contents)
   <= length contents)%nat.
Proof.
  induction contents as [|xml contents IH]; cbn; [done|].
  destruct (document_code _ xml); cbn; lia.
Qed.

Lemma document_codes_all contents :
  Forall (fun xml => is_Some (document_code from_chars_double xml)) contents ->
  length (omap (document_code from_chars_double) contents) = length contents.
Proof.
  induction 1 as [|xml contents [code Hcode] _ IH]; cbn; [done|].
  rewrite Hcode. cbn. by rewrite IH.
Qed.

End WithFromChars.

(** A rounded absolute value is not negative. *)
Lemma round_abs_nonneg x z :
  round_to_int (PrimFloat.abs x) = Some z -> 0 <= z.
Proof.
  unfold round_to_int. rewrite FloatAxioms.abs_spec.
  destruct (Prim2SF x) as [s|s| |s m e]; cbn; try done;
    [by intros [= <-]|].
  unfold to_int. destruct (Z.leb_spec 0 e).
  - destruct (in_int_range _); [|done]. intros [= <-]. nia.
  - destruct (in_int_range _) eqn:E; [|done]. intros [= <-].
    unfold round_frac. rewrite Z.mul_1_l.
    apply Z.div_pos; [|apply Z.pow_pos_nonneg; lia].
    apply Z.add_nonneg_nonneg; [lia|apply Z.pow_nonneg; lia].
Qed.

Lemma calc_image_size_nonneg bounds metas total_x total_y :
  calc_image_size bounds metas = Some (total_x, total_y) ->
  0 <= total_x /\ 0 <= total_y.
Proof.
  unfold calc_image_size. destruct metas as [|m0 metas].
  - by intros [= <- <-].
  - destruct (round_to_int _) as [x|] eqn:Ex; [|done].
    destruct (round_to_int _) as [y|] eqn:Ey in |- *; [|done].
    intros [= <- <-]. split; by eapply round_abs_nonneg.
Qed.

Lemma calc_image_size_int bounds metas total_x total_y :
  calc_image_size bounds metas = Some (total_x, total_y) ->
  total_x <= int_max /\ total_y <= int_max.
Proof.
  unfold calc_image_size. destruct metas as [|m0 metas].
  - by intros [= <- <-].
  - destruct (round_to_int _) as [x|] eqn:Ex; [|done].
    destruct (round_to_int _) as [y|] eqn:Ey in |- *; [|done].
    intros [= <- <-]. unfold round_to_int in Ex, Ey.
    apply MoreFacts.to_int_range in Ex, Ey. lia.
Qed.

End DemFacts.

(** ** Properties of the archive loops *)

Module ZipFacts.

Section WithPaths.

Variable output_path_of : text -> text.







End WithPaths.



End ZipFacts.

(** ** Properties of the field parsers *)

Module FieldFacts.

Lemma digit_char_not_special d : is_digit d ->
  is_space (digit_char d) = false /\ is_lt (digit_char d) = false.
Proof.
  intros H.
  destruct (ReprojectorFacts.digit_cases d H)
    as [->|[->|[->|[->|[->|[->|[->|[->|[->| ->]]]]]]]]]; by vm_compute.
Qed.

Lemma space_is_no_digit b : is_space b = true ->
  digit_of b = None /\ is_lt b = false.
Proof. destruct b; by vm_compute. Qed.

Lemma ends_number_spec b rest : ends_number (b :: rest) = true ->
  digit_of b = None.
Proof.
  cbn. destruct (digit_of b); [|done].
  rewrite bool_decide_eq_true_2 by eauto. done.
Qed.

Lemma read_digits_then ds rest : forall acc count,
  Forall is_digit ds -> ends_number rest = true ->
  read_digits (map digit_char ds ++ rest) acc count
  = (foldl (fun acc d => 10 * acc + d) acc ds, (count + length ds)%nat, rest).
Proof.
  induction ds as [|d ds IH]; intros acc count Hds Hrest;
    cbn [map app read_digits foldl length].
  - rewrite Nat.add_0_r. destruct rest as [|b rest]; [done|].
    cbn [read_digits]. by rewrite (ends_number_spec b rest Hrest).
  - apply Forall_cons in Hds as [Hd Hds].
    rewrite (ReprojectorFacts.digit_of_digit_char d Hd), IH by done.
    do 2 f_equal. lia.
Qed.

Lemma from_chars_int_render negative ds rest :
  ds <> [] -> Forall is_digit ds ->
  in_int_range (int_value negative ds) = true -> ends_number rest = true ->
  from_chars_int (render_int negative ds ++ rest)
  = Some (int_value negative ds, rest).
Proof.
  intros Hne Hds Hrange Hrest. unfold from_chars_int, render_int.
  destruct negative; cbn [app].
  - change (byte_eqb "-" "-") with true. cbn iota.
    rewrite read_digits_then by done.
    destruct ds as [|d ds]; [done|]. cbn [length Nat.add].
    fold (digits_value (d :: ds)). unfold int_value in Hrange.
    by rewrite Hrange.
  - destruct ds as [|d ds]; [done|].
    pose proof Hds as Hds'. apply Forall_cons in Hds' as [Hd _].
    destruct (ReprojectorFacts.digit_char_plain d Hd) as (_ & Hminus & _).
    cbn [map app]. rewrite Hminus.
    change (digit_char d :: map digit_char ds ++ rest)
      with (map digit_char (d :: ds) ++ rest).
    rewrite read_digits_then by done. cbn [length Nat.add].
    fold (digits_value (d :: ds)). unfold int_value in Hrange.
    by rewrite Hrange.
Qed.

(** The text of a number holds no ['<'] and begins with no white space. *)
Lemma render_int_plain negative ds :
  ds <> [] -> Forall is_digit ds ->
  forallb (fun c => negb (is_lt c)) (render_int negative ds) = true /\
  exists b tail, render_int negative ds = b :: tail /\ is_space b = false.
Proof.
  intros Hne Hds. split.
  - unfold render_int. rewrite forallb_app. apply andb_true_intro. split.
    + by destruct negative.
    + induction Hds as [|d ds Hd _ IH]; [done|]. cbn.
      destruct (digit_char_not_special d Hd) as [_ ->]. cbn.
      destruct ds; [done|]. by apply IH.
  - unfold render_int. destruct negative; cbn [app].
    + by eexists _, _.
    + destruct ds as [|d ds]; [done|]. apply Forall_cons in Hds as [Hd _].
      destruct (digit_char_not_special d Hd) as [Hs _]. by eexists _, _.
Qed.

Lemma skip_whitespace_stop b s : is_space b = false ->
  skip_whitespace (b :: s) = b :: s.
Proof. intros H. cbn. by rewrite H. Qed.

Lemma spaces_hold_no_lt ws :
  forallb is_space ws = true ->
  forallb (fun c => negb (is_lt c)) ws = true.
Proof.
  induction ws as [|b ws IH]; [done|]. cbn.
  intros [Hb Hws]%andb_prop.
  destruct (space_is_no_digit b Hb) as [_ ->]. by apply IH.
Qed.

(** [parse_int_pair] on two numbers in decimal. *)
Lemma parse_int_pair_render lead neg1 ds1 ws neg2 ds2 rest val1 val2 :
  forallb is_space lead = true ->
  ds1 <> [] -> Forall is_digit ds1 ->
  in_int_range (int_value neg1 ds1) = true ->
  ws <> [] -> forallb is_space ws = true ->
  ds2 <> [] -> Forall is_digit ds2 ->
  in_int_range (int_value neg2 ds2) = true ->
  parse_int_pair
    (lead ++ render_int neg1 ds1 ++ ws ++ render_int neg2 ds2
     ++ "<"%byte :: rest) val1 val2
  = ("<"%byte :: rest, int_value neg1 ds1, int_value neg2 ds2).
Proof.
  intros Hlead Hne1 Hds1 Hr1 Hws0 Hws Hne2 Hds2 Hr2. unfold parse_int_pair.
  destruct (render_int_plain neg1 ds1 Hne1 Hds1) as (Hlt1 & b1 & t1 & E1 & Hb1).
  destruct (render_int_plain neg2 ds2 Hne2 Hds2) as (Hlt2 & b2 & t2 & E2 & Hb2).
  rewrite ParserFacts.skip_whitespace_app by done.
  rewrite E1. cbn [app]. rewrite skip_whitespace_stop by done.
  change (b1 :: t1 ++ ws ++ render_int neg2 ds2 ++ "<"%byte :: rest)
    with ((b1 :: t1) ++ ws ++ render_int neg2 ds2 ++ "<"%byte :: rest).
  rewrite <- E1.
  replace (render_int neg1 ds1 ++ ws ++ render_int neg2 ds2 ++ "<"%byte :: rest)
    with ((render_int neg1 ds1 ++ ws ++ render_int neg2 ds2)
          ++ "<"%byte :: rest) by (by rewrite <- !app_assoc).
  rewrite ParserFacts.span_until_stop; [|
    rewrite !forallb_app, Hlt1, Hlt2, (spaces_hold_no_lt ws Hws); done|done].
  rewrite from_chars_int_render; [|done|done|done|].
  2:{ destruct ws as [|w ws']; [done|]. cbn in Hws.
      apply andb_prop in Hws as [Hw _].
      destruct (space_is_no_digit w Hw) as [Hd _]. cbn. by rewrite Hd. }
  rewrite ParserFacts.skip_whitespace_app by done.
  rewrite E2, skip_whitespace_stop by done. rewrite <- E2.
  rewrite <- (app_nil_r (render_int neg2 ds2)).
  by rewrite from_chars_int_render.
Qed.

(** Trailing white space is removed and nothing else. *)
Lemma trim_right_spaces core ws :
  forallb is_space ws = true ->
  match last core with Some b => is_space b = false | None => True end ->
  trim_right (core ++ ws) = core.
Proof.
  intros Hws Hlast. unfold trim_right. rewrite reverse_app.
  rewrite ParserFacts.skip_whitespace_app.
  2:{ rewrite forallb_forall in Hws. apply forallb_forall.
      intros b Hb. apply Hws. apply list_elem_of_In.
      apply elem_of_reverse. by apply list_elem_of_In. }
  destruct core as [|c core _] using rev_ind; [done|].
  rewrite last_snoc in Hlast. rewrite reverse_snoc.
  rewrite skip_whitespace_stop by done.
  by rewrite <- reverse_snoc, reverse_involutive.
Qed.

End FieldFacts.

(** ** The order of [double] values *)

Module FloatOrder.















End FloatOrder.

(** ** The running bounds of the meshes and of the rasters *)

Module BoundsFacts.





End BoundsFacts.

(** ** Properties of the tile loops *)

Module TileFacts.

(** The number of tiles that cover [limit] samples. *)
Definition tile_count (limit step : Z) : Z := (limit + step - 1) / step.

Lemma tile_count_spec limit step k :
  0 < step -> 0 <= limit ->
  (step * k < limit <-> k < tile_count limit step).
Proof.
  intros Hstep Hlimit. unfold tile_count. split.
  - intros H. assert (k + 1 <= (limit + step - 1) / step); [|lia].
    apply Z.div_le_lower_bound; [lia|]. nia.
  - intros H.
    destruct (Z.lt_ge_cases (step * k) limit) as [|Hge]; [done|].
    assert ((limit + step - 1) / step < k + 1); [|lia].
    apply Z.div_lt_upper_bound; [lia|]. nia.
Qed.

(** A loop over tile origins keeps an invariant indexed by the number of
    the tile, and returns. *)
Lemma tile_steps_invariant {State : Type} (P : Z -> State -> Prop)
    (body : Z -> State -> option State) (limit step : Z) :
  0 < step -> 0 <= limit -> limit + step <= uint32_modulus ->
  forall fuel k state,
    0 <= k -> (Z.to_nat (limit - step * k) < fuel)%nat ->
    (forall k' s, k <= k' < tile_count limit step -> P k' s ->
       exists s', body (step * k') s = Some s' /\ P (k' + 1) s') ->
    P k state ->
    exists state',
      tile_steps fuel (step * k) limit step body state = Some state' /\
      P (Z.max k (tile_count limit step)) state'.
Proof.
  intros Hstep Hlimit Hwrap.
  induction fuel as [|fuel IH]; intros k state Hk Hfuel Hbody HP; [lia|].
  cbn [tile_steps]. destruct (Z.ltb_spec (step * k) limit) as [Hlt|Hge].
  - pose proof (proj1 (tile_count_spec limit step k Hstep Hlimit) Hlt) as Hc.
    destruct (Hbody k state ltac:(lia) HP) as (s1 & -> & HP1).
    destruct (Z.ltb_spec (step * k + step) uint32_modulus); [|lia].
    replace (step * k + step) with (step * (k + 1)) by lia.
    destruct (IH (k + 1) s1) as (s' & -> & HP'); [lia|nia| |done|].
    + intros k' s Hk'. apply Hbody. lia.
    + exists s'. split; [done|].
      by replace (Z.max k (tile_count limit step))
        with (Z.max (k + 1) (tile_count limit step)) by lia.
  - exists state. split; [done|].
    assert (tile_count limit step <= k).
    { destruct (Z.le_gt_cases (tile_count limit step) k) as [|Hgt]; [done|].
      apply tile_count_spec in Hgt; lia. }
    by rewrite Z.max_l by lia.
Qed.

Lemma tile_origins_invariant {State : Type} (P : Z -> State -> Prop)
    (body : Z -> State -> option State) (limit step : Z) state :
  0 < step -> 0 <= limit -> limit + step <= uint32_modulus ->
  (forall k s, 0 <= k < tile_count limit step -> P k s ->
     exists s', body (step * k) s = Some s' /\ P (k + 1) s') ->
  P 0 state ->
  exists state',
    tile_origins limit step body state = Some state' /\
    P (tile_count limit step) state'.
Proof.
  intros Hstep Hlimit Hwrap Hbody HP. unfold tile_origins.
  destruct (tile_steps_invariant P body limit step Hstep Hlimit Hwrap
              (S (Z.to_nat limit)) 0 state) as (s' & Hs' & HP');
    [lia|lia|done|done|].
  rewrite Z.mul_0_r in Hs'. exists s'. split; [done|].
  assert (0 <= tile_count limit step)
    by (unfold tile_count; apply Z.div_pos; lia).
  by rewrite Z.max_r in HP' by lia.
Qed.

Lemma to_uint32_small z : 0 <= z < uint32_modulus -> to_uint32 z = z.
Proof. intros. unfold to_uint32. by apply Z.mod_small. Qed.

Lemma stored_tile_snoc tiles tx ty buffer x y :
  stored_tile (tiles ++ [(tx, ty, buffer)]) x y
  = if (tx =? x) && (ty =? y) then Some buffer else stored_tile tiles x y.
Proof.
  induction tiles as [|[[a b] c] tiles IH]; cbn [app stored_tile].
  - done.
  - rewrite IH. destruct ((tx =? x) && (ty =? y)); done.
Qed.

Section TileContent.

Variable source : Z -> Z -> option float.
Variables width height : Z.
Variable fill_value : float.
(** The sample of the raster at a row and a column. *)
Variable px : Z -> Z -> float.

Hypothesis width_ok : 0 <= width <= int_max.
Hypothesis height_ok : 0 <= height <= int_max.
Hypothesis source_ok : forall r c,
  0 <= r < height -> 0 <= c < width -> source r c = Some (px r c).

(** The sample [k] of the tile at [(tx, ty)]: the sample of the raster at
    row [ty + k / 256] and column [tx + k mod 256] when the raster has it,
    the fill value otherwise. *)
Definition tile_cell (tx ty k : Z) : float :=
  if (ty + k / 256 <? height) && (tx + k mod 256 <? width)
  then px (ty + k / 256) (tx + k mod 256)
  else fill_value.

Definition tile_cells (tx ty : Z) : list float :=
  tile_cell tx ty <$> seqZ 0 65536.

Lemma tile_index row col :
  0 <= row < 256 -> 0 <= col < 256 ->
  flat_index row tile_width col = row * 256 + col /\
  (row * 256 + col) / 256 = row /\ (row * 256 + col) mod 256 = col.
Proof.
  intros Hr Hc. split; [|split].
  - apply (RasterFacts.flat_index_in_raster row 256 256 col);
      unfold int_max; lia.
  - rewrite Z.div_add_l by lia. rewrite Z.div_small by lia. lia.
  - rewrite Z.add_comm, Z.mod_add by lia. by apply Z.mod_small.
Qed.

Lemma tile_pixel_spec tx ty row col :
  0 <= tx -> 0 <= ty -> 0 <= row < 256 -> 0 <= col < 256 ->
  ty + row < height -> tx + col < width ->
  tile_pixel source tx ty row col
  = Some (Write (row * 256 + col) (px (ty + row) (tx + col))).
Proof.
  intros Hx Hy Hr Hc Hrow Hcol. unfold tile_pixel.
  rewrite !to_uint32_small by (unfold uint32_modulus, int_max in *; lia).
  rewrite source_ok by lia.
  by destruct (tile_index row col Hr Hc) as [-> _].
Qed.

Lemma tile_spec tx ty :
  0 <= tx < width -> 0 <= ty < height ->
  tile source width height fill_value tx ty = Some (tile_cells tx ty).
Proof.
  intros Hx Hy. unfold tile.
  change (to_uint32 (tile_width * tile_height)) with 65536.
  rewrite (to_uint32_small width), (to_uint32_small height),
    (to_uint32_small (width - tx)), (to_uint32_small (height - ty))
    by (unfold uint32_modulus, int_max in *; lia).
  unfold tile_width, tile_height.
  set (atw := Z.min 256 (width - tx)). set (ath := Z.min 256 (height - ty)).
  set (buffer := replicate (Z.to_nat 65536) fill_value).
  assert (forall row col, 0 <= row < ath -> 0 <= col < atw ->
            tile_pixel source tx ty row col
            = Some (Write (row * 256 + col) (px (ty + row) (tx + col))))
    as Hpix by (intros; apply tile_pixel_spec; lia).
  destruct (LoopFacts.pixel_loop_total (tile_pixel source tx ty) ath atw buffer)
    as [buffer' Hloop].
  { intros r c Hr Hc. rewrite Hpix by done. eexists. split; [done|].
    unfold buffer. rewrite length_replicate. cbn beta iota. lia. }
  rewrite Hloop. f_equal.
  apply LoopFacts.pixel_loop_spec in Hloop as (Hlen & _ & Hcells);
    [| |lia|lia].
  2:{ intros r c r' c' i v v' Hr Hc Hr' Hc'.
      rewrite !Hpix by done. intros [= <- <-] [= Heq _].
      assert (r = r') by lia. split; [done|lia]. }
  apply list_eq. intros j. unfold tile_cells. rewrite list_lookup_fmap.
  destruct (decide (Z.of_nat j < 65536)) as [Hj|Hj].
  - rewrite lookup_seqZ_lt by lia. cbn [fmap option_fmap option_map].
    rewrite Z.add_0_l. destruct (Hcells j) as [Hwritten Hkept].
    pose proof (Z.div_mod (Z.of_nat j) 256 ltac:(lia)) as Hdm.
    pose proof (Z.mod_pos_bound (Z.of_nat j) 256 ltac:(lia)) as Hm.
    assert (0 <= Z.of_nat j / 256 < 256) as Hq.
    { split; [apply Z.div_pos; lia|apply Z.div_lt_upper_bound; lia]. }
    unfold tile_cell.
    set (row := Z.of_nat j / 256) in *. set (col := Z.of_nat j mod 256) in *.
    destruct (decide (row < ath /\ col < atw)) as [[Hr Hc]|Hout].
    + destruct (Z.ltb_spec (ty + row) height); [|lia].
      destruct (Z.ltb_spec (tx + col) width); [|lia]. cbn [andb].
      apply (Hwritten row col); [lia|lia|]. rewrite Hpix by lia.
      do 2 f_equal. lia.
    + rewrite Hkept.
      * unfold buffer. rewrite lookup_replicate_2 by lia. f_equal.
        destruct (Z.ltb_spec (ty + row) height); [|done].
        destruct (Z.ltb_spec (tx + col) width); [|done]. lia.
      * intros r c v Hr Hc. rewrite Hpix by done. intros [= Heq _].
        assert (r = row) by lia. lia.
  - rewrite lookup_seqZ_ge by lia. cbn.
    apply lookup_ge_None_2. rewrite Hlen. unfold buffer.
    rewrite length_replicate. lia.
Qed.

Lemma tile_cells_length tx ty : Z.of_nat (length (tile_cells tx ty)) = 65536.
Proof. unfold tile_cells. by rewrite length_fmap, length_seqZ. Qed.

Lemma tile_cells_lookup tx ty row col :
  0 <= row < 256 -> 0 <= col < 256 ->
  tile_cells tx ty !! Z.to_nat (row * 256 + col)
  = Some (if (ty + row <? height) && (tx + col <? width)
          then px (ty + row) (tx + col) else fill_value).
Proof.
  intros Hr Hc. unfold tile_cells. rewrite list_lookup_fmap.
  rewrite lookup_seqZ_lt by lia. cbn [fmap option_fmap option_map].
  rewrite Z.add_0_l, Z2Nat.id by lia. unfold tile_cell.
  by destruct (tile_index row col Hr Hc) as (_ & -> & ->).
Qed.

End TileContent.

Section TileRoundTrip.

Variable source : Z -> Z -> option float.
Variables width height : Z.
Variable fill_value : float.
Variable px : Z -> Z -> float.

Hypothesis width_ok : 0 <= width <= int_max.
Hypothesis height_ok : 0 <= height <= int_max.
Hypothesis source_ok : forall r c,
  0 <= r < height -> 0 <= c < width -> source r c = Some (px r c).

Abbreviation cells := (tile_cells width height fill_value px).

Lemma count_covers limit : 0 <= limit -> limit <= 256 * tile_count limit 256.
Proof.
  intros H. destruct (Z.le_gt_cases limit (256 * tile_count limit 256)); [done|].
  assert (tile_count limit 256 < tile_count limit 256); [|lia].
  apply tile_count_spec; lia.
Qed.

(** The tiles the writer hands to a library that accepts every tile. *)
Lemma write_tiles_spec :
  exists tiles,
    write_tiles source width height fill_value (fun _ _ _ => true)
      = Some (true, tiles) /\
    forall i j,
      0 <= i < tile_count width 256 -> 0 <= j < tile_count height 256 ->
      stored_tile tiles (256 * i) (256 * j) = Some (cells (256 * i) (256 * j)).
Proof.
  unfold write_tiles.
  rewrite (to_uint32_small width), (to_uint32_small height)
    by (unfold uint32_modulus, int_max in *; lia).
  unfold tile_width, tile_height.
  set (good := fun (tiles : list (Z * Z * list float)) i j =>
         stored_tile tiles (256 * i) (256 * j)
         = Some (cells (256 * i) (256 * j))).
  destruct (tile_origins_invariant
              (fun j (st : bool * list (Z * Z * list float)) =>
                 st.1 = true /\
                 forall i' j', 0 <= i' < tile_count width 256 ->
                   0 <= j' < j -> good st.2 i' j')
              (fun ty => tile_origins width 256
                           (write_tile source width height fill_value
                              (fun _ _ _ => true) ty))
              height 256 (true, [])) as ([ok tiles] & Hrun & Hok & Hall);
    [lia|lia|unfold uint32_modulus, int_max in *; lia| |by split; [|lia]|].
  - intros j [ok tiles] Hj [Hok Hdone]. cbn [fst snd] in *. subst ok.
    destruct (tile_origins_invariant
                (fun i (st : bool * list (Z * Z * list float)) =>
                   st.1 = true /\
                   (forall i' j', 0 <= i' < tile_count width 256 ->
                      0 <= j' < j -> good st.2 i' j') /\
                   forall i', 0 <= i' < i -> good st.2 i' j)
                (write_tile source width height fill_value
                   (fun _ _ _ => true) (256 * j))
                width 256 (true, tiles))
      as ([ok1 tiles1] & Hrun1 & Hok1 & Hdone1 & Hrow1);
      [lia|lia|unfold uint32_modulus, int_max in *; lia| |
       by repeat split; [|lia]|].
    + intros i [ok2 tiles2] Hi (Hok2 & Hdone2 & Hrow2). cbn [fst snd] in *.
      subst ok2. unfold write_tile. cbn [negb].
      rewrite (tile_spec source width height fill_value px)
        by (done || (split; [lia|]; apply tile_count_spec; lia)).
      eexists. split; [done|]. cbn [fst snd]. unfold good in *.
      split; [done|]. split.
      * intros i' j' Hi' Hj'. rewrite stored_tile_snoc.
        destruct (Z.eqb_spec (256 * j) (256 * j')); [lia|].
        rewrite andb_false_r. by apply Hdone2.
      * intros i' Hi'. rewrite stored_tile_snoc.
        destruct (Z.eqb_spec (256 * i) (256 * i')) as [Heq|Hne].
        -- rewrite Z.eqb_refl. cbn [andb]. by replace i' with i by lia.
        -- cbn [andb]. apply Hrow2. lia.
    + exists (ok1, tiles1). split; [done|]. cbn [fst snd] in *.
      split; [done|]. intros i' j' Hi' Hj'.
      destruct (decide (j' = j)) as [->|]; [by apply Hrow1|].
      apply Hdone1; [done|lia].
  - cbn [fst snd] in *. subst ok. exists tiles. split; [done|].
    intros i j Hi Hj. by apply Hall.
Qed.

(** The raster the reader assembles from a library that returns the tiles
    of the raster. *)
Lemma read_tiles_spec (TIFFReadTile : Z -> Z -> option (list float)) :
  (forall i j,
     0 <= i < tile_count width 256 -> 0 <= j < tile_count height 256 ->
     TIFFReadTile (256 * i) (256 * j) = Some (cells (256 * i) (256 * j))) ->
  exists data,
    read_tiles TIFFReadTile width height 256 256 = Some (Some data) /\
    Z.of_nat (length data) = height * width /\
    forall r c, 0 <= r < height -> 0 <= c < width ->
      data !! Z.to_nat (r * width + c) = Some (px r c).
Proof.
  intros Hlib. unfold read_tiles.
  set (initial := replicate _ 0%float).
  assert (Z.of_nat (length initial) = height * width) as Hinitial
    by apply (MoreFacts.buffer_length width height 0%float width_ok height_ok).
  set (done_in := fun (st : option (list float)) (covered : Z -> Z -> Prop) =>
         exists data, st = Some data /\
           Z.of_nat (length data) = height * width /\
           forall r c, 0 <= r < height -> 0 <= c < width -> covered r c ->
             data !! Z.to_nat (r * width + c) = Some (px r c)).
  destruct (tile_origins_invariant
              (fun j st => done_in st (fun r c => r < 256 * j))
              (fun ty => tile_origins width 256
                           (read_tile TIFFReadTile width height 256 256 ty))
              height 256 (Some initial)) as (st & Hrun & data & -> & Hlen & Hall);
    [lia|lia|unfold uint32_modulus, int_max in *; lia| |
     exists initial; repeat split; [done|intros; lia]|].
  2:{ exists data. repeat split; try done. intros r c Hr Hc.
      apply Hall; try done. pose proof (count_covers height). lia. }
  intros j st Hj Hout.
  destruct (tile_origins_invariant
              (fun i st => done_in st (fun r c =>
                 r < 256 * j \/ (r < 256 * (j + 1) /\ c < 256 * i)))
              (read_tile TIFFReadTile width height 256 256 (256 * j))
              width 256 st) as (st1 & Hrun1 & data1 & -> & Hlen1 & Hall1);
    [lia|lia|unfold uint32_modulus, int_max in *; lia| | |].
  3:{ exists (Some data1). split; [done|]. exists data1.
      repeat split; try done. intros r c Hr Hc Hcov.
      apply Hall1; try done. right. split; [done|].
      pose proof (count_covers width). lia. }
  2:{ destruct Hout as (data0 & -> & Hlen0 & Hall0). exists data0.
      repeat split; try done. intros r c Hr Hc [Hcov|[_ Hcov]]; [|lia].
      by apply Hall0. }
  intros i st2 Hi (data2 & -> & Hlen2 & Hall2).
  assert (256 * i < width) as Htx by (apply tile_count_spec; lia).
  assert (256 * j < height) as Hty by (apply tile_count_spec; lia).
  unfold read_tile. rewrite Hlib by done.
  change (to_uint32 (256 * 256)) with 65536.
  rewrite tile_cells_length, Z.eqb_refl. cbn [negb].
  rewrite (to_uint32_small (width - 256 * i)),
    (to_uint32_small (height - 256 * j))
    by (unfold uint32_modulus, int_max in *; lia).
  set (tx := 256 * i) in *. set (ty := 256 * j) in *.
  set (atw := Z.min 256 (width - tx)). set (ath := Z.min 256 (height - ty)).
  assert (forall row col, 0 <= row < ath -> 0 <= col < atw ->
            read_pixel width 256 (cells tx ty) tx ty row col
            = Some (Write ((ty + row) * width + (tx + col))
                          (px (ty + row) (tx + col)))) as Hpix.
  { intros row col Hr Hc. unfold read_pixel.
    destruct (tile_index row col) as [Hti _]; [lia|lia|].
    unfold tile_width in Hti. rewrite Hti.
    rewrite (tile_cells_lookup width height fill_value px) by lia.
    destruct (Z.ltb_spec (ty + row) height); [|lia].
    destruct (Z.ltb_spec (tx + col) width); [|lia]. cbn [andb].
    rewrite !to_uint32_small by (unfold uint32_modulus, int_max in *; lia).
    destruct (RasterFacts.flat_index_in_raster (ty + row) width height
                (tx + col)) as [-> _]; (done || lia). }
  destruct (LoopFacts.pixel_loop_total
              (read_pixel width 256 (cells tx ty) tx ty) ath atw data2)
    as [data3 Hloop].
  { intros r c Hr Hc. rewrite Hpix by done. eexists. split; [done|].
    cbn beta iota. nia. }
  rewrite Hloop. eexists. split; [done|].
  apply LoopFacts.pixel_loop_spec in Hloop as (Hlen3 & _ & Hcells);
    [| |lia|lia].
  2:{ intros r c r' c' k v v' Hr Hc Hr' Hc'.
      rewrite !Hpix by done. intros [= <- <-] [= Heq _].
      assert (ty + r = ty + r') by nia. split; [lia|]. nia. }
  exists data3. split; [done|]. split; [by rewrite Hlen3|].
  intros r c Hr Hc Hcov.
  assert (0 <= r * width + c) as Hidx by nia.
  destruct (Hcells (Z.to_nat (r * width + c))) as [Hwritten Hkept].
  rewrite Z2Nat.id in Hwritten, Hkept by done.
  destruct (decide (ty <= r /\ tx <= c)) as [[Hr' Hc']|Hout'].
  - apply (Hwritten (r - ty) (c - tx)); [lia|lia|].
    rewrite Hpix by lia. do 2 f_equal; [|f_equal]; lia.
  - rewrite Hkept.
    + apply Hall2; try done. lia.
    + intros row col v Hrow Hcol. rewrite Hpix by done. intros [= Heq _].
      assert (ty + row = r) by nia. lia.
Qed.

End TileRoundTrip.

(** An array of [y_length] rows of [x_length] samples has an element at
    every index below the dimensions. *)
Lemma array_source_defined (np_array : list (list float))
    (x_length y_length r c : Z) :
  length np_array = Z.to_nat y_length ->
  Forall (fun row => length row = Z.to_nat x_length) np_array ->
  0 <= r < y_length -> 0 <= c < x_length ->
  array_source np_array r c
  = Some (default 0%float (array_source np_array r c)).
Proof.
  intros Hrows Hcols Hr Hc. unfold array_source.
  destruct (lookup_lt_is_Some_2 np_array (Z.to_nat r)) as [row Hrow]; [lia|].
  rewrite Hrow. rewrite Forall_forall in Hcols.
  pose proof (Hcols row (list_elem_of_lookup_2 _ _ _ Hrow)) as Hlen.
  destruct (lookup_lt_is_Some_2 row (Z.to_nat c)) as [v ->]; [lia|]. done.
Qed.

Section Strips.

Variable TIFFReadScanline : Z -> option (list float).
Variables width height : Z.

Hypothesis width_ok : 0 <= width < uint32_modulus.
Hypothesis height_ok : 0 <= height < uint32_modulus.
Hypothesis last_row_ok : (height - 1) * width < uint32_modulus.

(** The rows below [k] are in the buffer. *)
Definition rows_read (k : Z) (data : list float) : Prop :=
  Z.of_nat (length data) = height * width /\
  forall row col, 0 <= row < k -> 0 <= col < width ->
    exists scanline,
      TIFFReadScanline row = Some scanline /\
      data !! Z.to_nat (row * width + col) = scanline !! Z.to_nat col.

Lemma read_strips_run (failing : Z) :
  0 <= failing <= height ->
  (forall row, 0 <= row < failing ->
     exists scanline, TIFFReadScanline row = Some scanline /\
                      Z.of_nat (length scanline) = width) ->
  (failing < height -> TIFFReadScanline failing = None) ->
  exists state,
    read_strips TIFFReadScanline width height = Some state /\
    (failing < height -> state = None) /\
    (failing = height -> exists data, state = Some data /\ rows_read height data).
Proof.
  intros Hfailing Hrows Hfails. unfold read_strips.
  rewrite !GridFacts.to_size_t_small by (unfold uint32_modulus in *; lia).
  rewrite Z.mod_small by (unfold size_modulus, uint32_modulus in *; nia).
  set (P := fun (k : Z) (state : option (list float)) =>
              (k <= failing -> exists data, state = Some data /\ rows_read k data)
              /\ (failing < k -> state = None)).
  destruct (tile_origins_invariant P (read_strip TIFFReadScanline width)
              height 1 (Some (replicate (Z.to_nat (width * height)) 0%float)))
    as (state & Hrun & Hle & Hgt); [lia|lia|lia| | |].
  - intros k s Hk [Hgood Hbad]. rewrite Z.mul_1_l.
    assert (tile_count height 1 = height) as Hcount
      by (unfold tile_count; by rewrite Z.add_simpl_r, Z.div_1_r).
    rewrite Hcount in Hk.
    destruct (Z.lt_ge_cases failing k) as [Hlt|Hge].
    { rewrite (Hbad Hlt). exists None. split; [done|]. split; [lia|done]. }
    destruct (Hgood ltac:(lia)) as (data & -> & Hlen & Hcells).
    cbn [read_strip].
    destruct (Z.eq_dec k failing) as [->|Hne].
    { rewrite (Hfails ltac:(lia)). exists None.
      split; [done|]. split; [lia|done]. }
    destruct (Hrows k ltac:(lia)) as (scanline & Hline & Hwidth).
    rewrite Hline. unfold store_scanline.
    assert (0 <= k * width < uint32_modulus) as Hoffset by nia.
    rewrite to_uint32_small by done.
    destruct (Z.ltb_spec (Z.of_nat (length data))
                (k * width + Z.of_nat (length scanline))); [nia|].
    eexists. split; [done|]. split; [|lia]. intros _. eexists.
    split; [done|].
    assert (length (take (Z.to_nat (k * width)) data)
            = Z.to_nat (k * width)) as Htake
      by (rewrite length_take; lia).
    split.
    + rewrite !length_app, length_drop, Htake. lia.
    + intros row col Hrow Hcol.
      destruct (Z.eq_dec row k) as [->|Hrow'].
      * exists scanline. split; [done|].
        rewrite lookup_app_r by lia. rewrite Htake.
        rewrite lookup_app_l by lia. f_equal. lia.
      * destruct (Hcells row col ltac:(lia) Hcol) as (line & Hl & Hcell).
        exists line. split; [done|].
        assert (row * width + col < k * width) by nia.
        rewrite lookup_app_l by lia. rewrite lookup_take_lt by lia. done.
  - split; [|lia]. intros _. eexists. split; [done|].
    split; [rewrite length_replicate; lia|]. intros; lia.
  - assert (tile_count height 1 = height) as Hcount
      by (unfold tile_count; by rewrite Z.add_simpl_r, Z.div_1_r).
    rewrite Hcount in Hle, Hgt.
    exists state. split; [done|]. split; [done|].
    intros ->. by apply Hle.
Qed.

End Strips.

End TileFacts.

(** ** Properties of the file selection of the merge *)

Module MergeInputFacts.

(** The files that the loop selects, and the number that a date denotes. *)
Definition selected (dem_type : text) (entry : directory_entry) : bool :=
  is_regular_file entry &&
  (contains (path_filename entry) (pattern1 dem_type)
   || contains (path_filename entry) (pattern2 dem_type)).

Definition date_value (date : text) : Z :=
  foldl (fun acc c => 10 * acc + default 0 (digit_of c)) 0 date.

Definition digits (date : text) : Prop := forallb isdigit date = true.

Lemma date_value_from acc date :
  foldl (fun acc c => 10 * acc + default 0 (digit_of c)) acc date
  = acc * 10 ^ Z.of_nat (length date) + date_value date.
Proof.
  unfold date_value. revert acc.
  induction date as [|c date IH]; intros acc; cbn [foldl length].
  - cbn. lia.
  - rewrite IH, (IH (10 * 0 + _)).
    rewrite Nat2Z.inj_succ, Z.pow_succ_r by lia. lia.
Qed.

Lemma date_value_cons c date :
  date_value (c :: date)
  = default 0 (digit_of c) * 10 ^ Z.of_nat (length date) + date_value date.
Proof.
  unfold date_value at 1. cbn [foldl]. rewrite date_value_from. lia.
Qed.

Lemma isdigit_value c :
  isdigit c = true ->
  0 <= default 0 (digit_of c) <= 9 /\
  default 0 (digit_of c) = Z.of_N (Byte.to_N c) - 48.
Proof.
  unfold isdigit, digit_of. intros H. apply bool_decide_eq_true in H.
  destruct (Z.leb_spec 48 (Z.of_N (Byte.to_N c)));
    destruct (Z.leb_spec (Z.of_N (Byte.to_N c)) 57); cbn in *;
    try (by destruct H); lia.
Qed.

Lemma date_value_bound date :
  digits date -> 0 <= date_value date < 10 ^ Z.of_nat (length date).
Proof.
  unfold digits. induction date as [|c date IH]; cbn [forallb length].
  - intros _. cbn. lia.
  - intros [Hc Hd]%andb_prop. rewrite date_value_cons.
    apply isdigit_value in Hc as [Hc _]. specialize (IH Hd).
    rewrite Nat2Z.inj_succ, Z.pow_succ_r by lia. nia.
Qed.

(** On digit strings of one length, the order of [std::string] is the
    order of the numbers. *)
Lemma string_lt_numeric a : forall b,
  length a = length b -> digits a -> digits b ->
  string_lt a b = true <-> date_value a < date_value b.
Proof.
  induction a as [|x a IH]; intros [|y b] Hlen; try done.
  unfold digits. cbn [forallb string_lt].
    intros [Hx Ha]%andb_prop [Hy Hb]%andb_prop.
    injection Hlen as Hlen.
    rewrite !date_value_cons, <- Hlen.
    pose proof (date_value_bound a Ha) as Hva.
    pose proof (date_value_bound b Hb) as Hvb. rewrite <- Hlen in Hvb.
    apply isdigit_value in Hx as [Hx Hx'], Hy as [Hy Hy'].
    unfold byte_eqb. destruct (Byte.eqb x y) eqn:E.
    + apply Byte.byte_dec_bl in E as ->. rewrite (IH b Hlen Ha Hb). lia.
    + assert (x <> y) as Hne by (intros ->; by rewrite (Byte.byte_dec_lb eq_refl) in E).
      assert (Byte.to_N x <> Byte.to_N y) as Hne'.
      { intros Heq. apply Hne. apply (inj Some).
        by rewrite <- (Byte.of_to_N x), <- (Byte.of_to_N y), Heq. }
      rewrite N.ltb_lt. split; intros H; nia.
Qed.

Lemma filename_date_shape dem_type filename date :
  filename_date dem_type filename = Some date ->
  length date = 8%nat /\ digits date.
Proof.
  unfold filename_date, digits. generalize (pattern2 dem_type) as pattern.
  intros pattern. destruct (string_find _ _) as [pos|]; [|done].
  destruct (Nat.leb_spec (pos + length pattern + 8) (length filename));
    [|done].
  destruct (forallb _ _) eqn:E; [|done]. intros [= <-].
  split; [|done]. rewrite length_take, length_drop. lia.
Qed.

Lemma string_find_prefix pattern rest :
  string_find (pattern ++ rest) pattern = Some O.
Proof.
  assert (starts_with (pattern ++ rest) pattern = true) as H.
  { induction pattern as [|p pattern IH]; [by destruct rest|].
    cbn. unfold byte_eqb. by rewrite (Byte.byte_dec_lb eq_refl). }
  revert H. generalize (pattern ++ rest). intros s H.
  destruct s; cbn [string_find]; by rewrite H.
Qed.

Lemma contains_find s pattern :
  contains s pattern = bool_decide (is_Some (string_find s pattern)).
Proof.
  induction s as [|b s IH]; cbn [contains string_find].
  - by destruct (starts_with [] pattern).
  - destruct (starts_with (b :: s) pattern); [done|].
    cbn [orb]. rewrite IH. destruct (string_find s pattern); by cbn.
Qed.

(** The state of the loop after the entries: the paths of the selected
    files in order, and a date that is empty or a date of a selected file,
    and not below the date of any of them. *)
Definition latest_of (dem_type : text) (entries : list directory_entry)
    (latest : text) : Prop :=
  (latest = [] \/
   exists e, e ∈ entries /\ selected dem_type e = true /\
             filename_date dem_type (path_filename e) = Some latest) /\
  forall e date,
    e ∈ entries -> selected dem_type e = true ->
    filename_date dem_type (path_filename e) = Some date ->
    latest <> [] /\ date_value date <= date_value latest.

Lemma collect_entry_eq dem_type input_files latest e :
  collect_entry dem_type (input_files, latest) e
  = (input_files ++ (path_string <$> (if selected dem_type e then [e] else [])),
     if selected dem_type e
     then match filename_date dem_type (path_filename e) with
          | Some date => if string_lt latest date then date else latest
          | None => latest
          end
     else latest).
Proof.
  unfold collect_entry, selected.
  destruct (is_regular_file e); cbn [negb andb]; [|by rewrite app_nil_r].
  destruct (contains _ _ || contains _ _); [done|by rewrite app_nil_r].
Qed.

Lemma latest_of_step dem_type seen e latest :
  latest_of dem_type seen latest ->
  latest_of dem_type (seen ++ [e])
    (if selected dem_type e
     then match filename_date dem_type (path_filename e) with
          | Some date => if string_lt latest date then date else latest
          | None => latest
          end
     else latest).
Proof.
  intros [Hfrom Hmax].
  assert (latest = [] \/
          exists e0, e0 ∈ seen ++ [e] /\ selected dem_type e0 = true /\
            filename_date dem_type (path_filename e0) = Some latest) as Hfrom'.
  { destruct Hfrom as [->|(e0 & He0 & Hs & Hd)]; [by left|right].
    exists e0. split; [apply elem_of_app; by left|done]. }
  destruct (selected dem_type e) eqn:Hsel.
  2:{ split; [done|].
      intros e0 date [He0|He0]%elem_of_app Hs Hd; [by eapply Hmax|].
      apply list_elem_of_singleton in He0 as ->. congruence. }
  destruct (filename_date dem_type (path_filename e)) as [date|] eqn:Ed.
  2:{ split; [done|].
      intros e0 date [He0|He0]%elem_of_app Hs Hd; [by eapply Hmax|].
      apply list_elem_of_singleton in He0 as ->. congruence. }
  pose proof (filename_date_shape _ _ _ Ed) as [Hlen Hdig].
  destruct (string_lt latest date) eqn:Elt.
  - split.
    + right. exists e.
      split; [apply elem_of_app; right; by apply list_elem_of_singleton|done].
    + intros e0 date0 [He0|He0]%elem_of_app Hs Hd.
      * destruct (Hmax e0 date0 He0 Hs Hd) as [Hne Hle].
        split; [by destruct date|].
        destruct Hfrom as [->|(e1 & _ & _ & Hd1)]; [done|].
        pose proof (filename_date_shape _ _ _ Hd1) as [Hlen1 Hdig1].
        apply string_lt_numeric in Elt; [lia|congruence|done|done].
      * apply list_elem_of_singleton in He0 as ->.
        assert (date0 = date) as -> by congruence.
        split; [by destruct date|lia].
  - destruct Hfrom as [->|(e1 & He1 & Hs1 & Hd1)]; [by destruct date|].
    pose proof (filename_date_shape _ _ _ Hd1) as [Hlen1 Hdig1].
    split; [done|].
    intros e0 date0 [He0|He0]%elem_of_app Hs Hd; [by eapply Hmax|].
    apply list_elem_of_singleton in He0 as ->.
    assert (date0 = date) as -> by congruence.
    split; [by destruct latest|].
    destruct (Z.lt_ge_cases (date_value latest) (date_value date))
      as [Hlt|Hge]; [|lia].
    apply string_lt_numeric in Hlt; [congruence|congruence|done|done].
Qed.

Lemma collect_entries_spec dem_type entries : forall seen input_files latest,
  latest_of dem_type seen latest ->
  exists latest',
    foldl (collect_entry dem_type) (input_files, latest) entries
    = (input_files
       ++ (path_string <$> List.filter (selected dem_type) entries),
       latest') /\
    latest_of dem_type (seen ++ entries) latest'.
Proof.
  induction entries as [|e entries IH]; intros seen input_files latest Hinv.
  - exists latest. cbn. by rewrite !app_nil_r.
  - cbn [foldl List.filter]. rewrite collect_entry_eq.
    destruct (IH _ (input_files
                    ++ (path_string
                        <$> (if selected dem_type e then [e] else [])))
                _ (latest_of_step dem_type seen e latest Hinv))
      as (latest' & Hrun & Hinv').
    exists latest'. rewrite Hrun. rewrite <- (assoc_L (++)) in Hinv'.
    split; [|exact Hinv']. f_equal. rewrite <- (assoc_L (++)).
    f_equal. by destruct (selected dem_type e).
Qed.

Lemma collect_input_files_spec dem_type entries :
  exists latest,
    collect_input_files dem_type entries
    = (path_string <$> List.filter (selected dem_type) entries, latest) /\
    latest_of dem_type entries latest.
Proof.
  assert (latest_of dem_type [] []) as Hinit.
  { split; [by left|]. intros e date He. by apply elem_of_nil in He. }
  destruct (collect_entries_spec dem_type entries [] [] [] Hinit)
    as (latest & Hrun & Hinv).
  by exists latest.
Qed.

Lemma string_find_skip b s pattern :
  starts_with (b :: s) pattern = false ->
  string_find (b :: s) pattern = S <$> string_find s pattern.
Proof. intros H. cbn [string_find]. by rewrite H. Qed.

(** The default name with a date holds [pattern2] first at position 14,
    and the date after it. *)
Lemma dated_name_date dem_type date :
  length date = 8%nat -> digits date ->
  string_find (tag "FG-GML-merged-DEM" ++ dem_type ++ tag "-" ++ date
               ++ tag ".tif") (pattern2 dem_type)
  = Some 14%nat /\
  filename_date dem_type
    (tag "FG-GML-merged-DEM" ++ dem_type ++ tag "-" ++ date ++ tag ".tif")
  = Some date.
Proof.
  intros Hlen Hdig.
  assert (tag "FG-GML-merged-DEM" ++ dem_type ++ tag "-" ++ date
          ++ tag ".tif"
          = tag "FG-GML-merged-" ++ pattern2 dem_type
            ++ date ++ tag ".tif") as ->.
  { unfold pattern2. cbn. by rewrite <- !(assoc_L (++)). }
  assert (string_find (tag "FG-GML-merged-" ++ pattern2 dem_type
                       ++ date ++ tag ".tif") (pattern2 dem_type)
          = Some 14%nat) as Hfind.
  { change (tag "FG-GML-merged-") with
      (["F"; "G"; "-"; "G"; "M"; "L"; "-"; "m"; "e"; "r"; "g"; "e"; "d";
        "-"]%byte).
    cbn [app]. rewrite !string_find_skip by done.
    by rewrite string_find_prefix. }
  split; [done|]. unfold filename_date. rewrite Hfind.
  assert (length (tag "FG-GML-merged-") = 14%nat) as H14 by done.
  rewrite (assoc_L (++) (tag "FG-GML-merged-")).
  replace (14 + length (pattern2 dem_type))%nat
    with (length (tag "FG-GML-merged-" ++ pattern2 dem_type))
    by (by rewrite length_app, H14).
  rewrite drop_app_length, !length_app, Hlen.
  destruct (Nat.leb_spec
              (length (tag "FG-GML-merged-") + length (pattern2 dem_type) + 8)
              (length (tag "FG-GML-merged-") + length (pattern2 dem_type)
               + (8 + length (tag ".tif")))); [|lia].
  rewrite <- Hlen, take_app_length. by rewrite Hdig.
Qed.

End MergeInputFacts.

(** ** The claims *)

(** C1, as amended: for every parsed document with tuple list, grid envelope
    and start point whose start point is not negative and whose dimensions
    [x_length] and [y_length] are not negative, the grid builder returns the
    grid of the placement rule: [y_length] rows of [x_length] cells, the
    sentinel everywhere but at the cells from row [start_y], column
    [start_x] on in row-major order (later rows from column 0), which hold
    the samples one per cell while samples and cells last; with no sample the
    grid is all sentinel. *)
Theorem get_np_array_placement_rule
    (from_chars_double : text -> option (float * text))
    (xml : text) (d : ParsedData) (sx sy : Z) :
  parse_all from_chars_double xml true = Some (Some d) ->
  has_tuple_list d = true -> has_grid_envelope d = true ->
  has_start_point d = true ->
  double_to_int (start_x d) = Some sx -> double_to_int (start_y d) = Some sy ->
  0 <= sx -> 0 <= sy ->
  0 <= x_length_of d <= int_max -> 0 <= y_length_of d <= int_max ->
  let grid := grid_by_placement_rule (elevation_list d)
                (x_length_of d) (y_length_of d) sx sy in
  get_np_array from_chars_double xml = Some grid /\
  length grid = Z.to_nat (y_length_of d) /\
  Forall (fun row => length row = Z.to_nat (x_length_of d)) grid /\
  (elevation_list d = [] ->
   grid = replicate (Z.to_nat (y_length_of d))
            (replicate (Z.to_nat (x_length_of d)) sentinel)).
Proof.
  intros Hp Ht He Hs Hsx Hsy Hx0 Hy0 Hxl Hyl grid.
  split; [|split; [|split]].
  - unfold get_np_array, XmlParser_new. rewrite Hp.
    by apply GridFacts.get_np_array_parsed_placement.
  - apply GridFacts.grid_by_placement_rule_shape.
  - apply GridFacts.grid_by_placement_rule_shape.
  - intros Hnil. unfold grid. rewrite Hnil.
    apply GridFacts.grid_by_placement_rule_nil.
Qed.

Lemma get_np_array_placement_rule_witness :
  get_np_array from_chars_decimal Examples.mesh_3x2
  = Some [ [sentinel; 12.5; 13.25]; [-3; 7; sentinel] ]%float.
Proof.
  assert (parse_all from_chars_decimal Examples.mesh_3x2 true
          = Some (Some Examples.mesh_3x2_parsed)) as Hp
    by (vm_compute; reflexivity).
  assert (double_to_int (start_x Examples.mesh_3x2_parsed) = Some 1) as Hsx
    by (vm_compute; reflexivity).
  assert (double_to_int (start_y Examples.mesh_3x2_parsed) = Some 0) as Hsy
    by (vm_compute; reflexivity).
  assert (0 <= x_length_of Examples.mesh_3x2_parsed <= int_max) as Hx
    by (vm_compute; split; discriminate).
  assert (0 <= y_length_of Examples.mesh_3x2_parsed <= int_max) as Hy
    by (vm_compute; split; discriminate).
  destruct (get_np_array_placement_rule from_chars_decimal
              Examples.mesh_3x2 Examples.mesh_3x2_parsed 1 0
              Hp eq_refl eq_refl eq_refl Hsx Hsy
              ltac:(lia) ltac:(lia) Hx Hy) as [H _].
  rewrite H. vm_compute. reflexivity.
Defined.

(** C1 as stated fails where the start column is negative: the [size_t]
    index [row * width + col] wraps, and the first sample lands in the last
    cell of the row before the start row. *)
Lemma get_np_array_negative_start_column :
  get_np_array from_chars_decimal Examples.mesh_negative_start
  = Some [ [sentinel; 5]; [6; 7] ]%float /\
  grid_by_placement_rule [5; 6; 7]%float 2 2 (-1) 1
  = [ [sentinel; sentinel]; [6; 7] ]%float /\
  get_np_array from_chars_decimal Examples.mesh_negative_start
  <> Some (grid_by_placement_rule [5; 6; 7]%float 2 2 (-1) 1).
Proof.
  split; [vm_compute; reflexivity|]. split; [vm_compute; reflexivity|].
  vm_compute. intros [=].
Qed.

(** C10, as amended: a parsed document that lacks its tuple list, its grid
    envelope or its start point gives the empty array, so a grid that is not
    empty comes from a document that has all three; a document that has all
    three and an empty sample stream gives the all-sentinel grid of the
    declared dimensions when these are not negative and the start point
    converts to [int]. *)
Theorem get_np_array_missing_parts
    (from_chars_double : text -> option (float * text))
    (xml : text) (d : ParsedData) :
  parse_all from_chars_double xml true = Some (Some d) ->
  (has_tuple_list d = false \/ has_grid_envelope d = false \/
   has_start_point d = false ->
   get_np_array from_chars_double xml = Some []) /\
  (forall grid, get_np_array from_chars_double xml = Some grid -> grid <> [] ->
   has_tuple_list d = true /\ has_grid_envelope d = true /\
   has_start_point d = true) /\
  (has_tuple_list d = true -> has_grid_envelope d = true ->
   has_start_point d = true -> elevation_list d = [] ->
   is_Some (double_to_int (start_x d)) -> is_Some (double_to_int (start_y d)) ->
   0 <= x_length_of d <= int_max -> 0 <= y_length_of d <= int_max ->
   get_np_array from_chars_double xml
   = Some (replicate (Z.to_nat (y_length_of d))
             (replicate (Z.to_nat (x_length_of d)) sentinel))).
Proof.
  intros Hp.
  assert (get_np_array from_chars_double xml = get_np_array_parsed d) as ->
    by (unfold get_np_array, XmlParser_new; by rewrite Hp).
  assert (has_tuple_list d = false \/ has_grid_envelope d = false \/
          has_start_point d = false -> get_np_array_parsed d = Some []) as Hmiss.
  { unfold get_np_array_parsed, get_tuple_list, get_grid_envelope,
      get_start_point.
    intros [->|[->| ->]]; [done| |]; destruct (has_tuple_list d); try done;
      by destruct (has_grid_envelope d). }
  split; [exact Hmiss|]. split.
  - intros grid Hg Hne.
    destruct (has_tuple_list d) eqn:Ht, (has_grid_envelope d) eqn:He,
      (has_start_point d) eqn:Hs; try done;
      rewrite Hmiss in Hg by auto; by injection Hg as <-.
  - intros Ht He Hs Hnil [sx Hsx] [sy Hsy] Hxl Hyl.
    by eapply GridFacts.get_np_array_parsed_empty.
Qed.

Lemma get_np_array_missing_parts_witness :
  get_np_array from_chars_decimal Examples.mesh_3x2_empty
  = Some [ [sentinel; sentinel; sentinel]; [sentinel; sentinel; sentinel] ].
Proof.
  assert (parse_all from_chars_decimal Examples.mesh_3x2_empty true
          = Some (Some Examples.mesh_3x2_empty_parsed)) as Hp
    by (vm_compute; reflexivity).
  destruct (get_np_array_missing_parts from_chars_decimal
              Examples.mesh_3x2_empty Examples.mesh_3x2_empty_parsed Hp)
    as (_ & _ & H).
  rewrite H; try reflexivity; try (vm_compute; eauto; fail);
    vm_compute; split; discriminate.
Defined.

(** C10 as stated fails twice: a document whose sample stream is not empty
    yields an all-sentinel grid too, when its samples are the sentinel; and
    a document with an empty sample stream yields no grid when a declared
    dimension is negative (the vector constructor throws). *)
Lemma get_np_array_all_sentinel_not_only_empty :
  (exists d, parse_all from_chars_decimal Examples.mesh_no_measurement true
             = Some (Some d) /\
             elevation_list d = [sentinel; sentinel] /\
             get_np_array from_chars_decimal Examples.mesh_no_measurement
             = Some [ [sentinel; sentinel] ]) /\
  (exists d, parse_all from_chars_decimal Examples.mesh_negative_width true
             = Some (Some d) /\
             has_tuple_list d = true /\ has_grid_envelope d = true /\
             has_start_point d = true /\ elevation_list d = [] /\
             x_length_of d = -1 /\
             get_np_array from_chars_decimal Examples.mesh_negative_width
             = None).
Proof.
  split; eexists; (split; [vm_compute; reflexivity|]); vm_compute; intuition.
Qed.

(** C2: with sea-level normalization enabled, both tuple list parsers emit
    one elevation per record, in order, for every list of records: 0.0 for
    a record whose value parses to at most -9999.0 and whose survey type is
    one of the two sea tags, the parsed value itself for every other record
    whose value parses (so also for a value at most -9999.0 with another
    survey type), and the sentinel -9999.0 for a record whose value does not
    parse, after which the parse goes on. *)
Theorem tuple_list_sea_level_normalization
    (from_chars_double : text -> option (float * text))
    (rs : list tuple_record) (ws tail : text) :
  forallb clean_record rs = true ->
  forallb is_space ws = true ->
  closes tail = true ->
  parse_tuple_list from_chars_double (ws ++ render_records rs ++ tail) [] true
  = Some (tail, emitted from_chars_double true <$> rs) /\
  FastTupleListParser_parse from_chars_double (render_records rs) true
  = Some (emitted from_chars_double true <$> rs) /\
  Forall (fun r =>
    match from_chars_double (rec_value r) with
    | Some (value, _) =>
        emitted from_chars_double true r
        = if PrimFloat.leb value (-9999)
          then if is_sea_type (rec_type r) then 0%float else value
          else value
    | None => emitted from_chars_double true r = (-9999)%float
    end) rs.
Proof.
  intros Hrs Hws Htail. split; [|split].
  - unfold parse_tuple_list.
    rewrite (ParserFacts.skip_whitespace_app ws _ Hws).
    rewrite (ParserFacts.skip_whitespace_records rs tail Hrs Htail).
    rewrite ParserFacts.parse_tuple_list_loop_records by (done || lia). done.
  - unfold FastTupleListParser_parse.
    rewrite (ParserFacts.skip_newline_records rs Hrs).
    rewrite ParserFacts.tuple_parse_loop_records by (done || lia). done.
  - apply Forall_forall. intros r _. unfold emitted, record_value.
    destruct (from_chars_double (rec_value r)) as [[value rest]|]; [|done].
    cbn [andb]. fold sentinel.
    by destruct (PrimFloat.leb value sentinel), (is_sea_type (rec_type r)).
Qed.

Lemma tuple_list_sea_level_normalization_witness :
  parse_tuple_list from_chars_decimal
    ([x0a] ++ render_records Examples.sample_records ++ tag "</gml:tupleList>")
    [] true
  = Some (tag "</gml:tupleList>", [586.25; 0; -9999; -9999]%float) /\
  FastTupleListParser_parse from_chars_decimal
    (render_records Examples.sample_records) true
  = Some [586.25; 0; -9999; -9999]%float.
Proof.
  destruct (tuple_list_sea_level_normalization from_chars_decimal
              Examples.sample_records [x0a] (tag "</gml:tupleList>")
              eq_refl eq_refl eq_refl) as (H1 & H2 & _).
  split; [rewrite H1|rewrite H2]; vm_compute; reflexivity.
Defined.

(** C7, as amended: for every document the parser returns a parsed result,
    so the constructor of [XmlParser] never throws; a header field whose tag
    does not occur in the document is reported absent by its presence flag
    and keeps its default; a pair field whose tag is dispatched but whose
    first value does not parse keeps its values and has its presence flag
    set all the same. *)
Theorem parse_all_never_fails
    (from_chars_double : text -> option (float * text)) (xml : text) :
  (forall sea_at_zero,
     exists data, parse_all from_chars_double xml sea_at_zero = Some (Some data)) /\
  (exists data, XmlParser_new from_chars_double xml = Some (Constructed data)) /\
  (forall sea_at_zero data f,
     parse_all from_chars_double xml sea_at_zero = Some (Some data) ->
     ~ occurs ("<"%byte :: field_tag f) xml ->
     field_absent f data) /\
  (forall sea_at_zero s data f,
     starts_with s (field_tag f) = true ->
     unparsable from_chars_double f (pair_content f s) ->
     exists p data',
       dispatch from_chars_double sea_at_zero s data = Some (p, data', false) /\
       field_flag f data' = true /\ field_kept f data data').
Proof.
  assert (forall sea, exists data,
            parse_all from_chars_double xml sea = Some (Some data)) as Htotal.
  { intros sea. unfold parse_all.
    destruct (ParserFacts.parse_all_loop_total from_chars_double sea
                (S (length xml)) xml ParsedData_default) as [data ->]; [lia|].
    by exists data. }
  split; [exact Htotal|]. split; [|split].
  - destruct (Htotal true) as [data H]. exists data.
    unfold XmlParser_new. by rewrite H.
  - intros sea data f Hp Hno. unfold parse_all in Hp.
    destruct (parse_all_loop _ _ _ _ _) as [data'|] eqn:E; [|done].
    injection Hp as ->.
    destruct (ParserFacts.parse_all_loop_absent from_chars_double sea f xml
                _ _ _ _ Hno (reflexivity xml) E) as [Hflag Hkept].
    split; [|done]. rewrite Hflag. by destruct f.
  - intros sea s data f. apply ParserFacts.dispatch_unparsable.
Qed.

(** C7 as stated fails on a header whose values are not numbers: the
    presence flags of the lower corner and of the grid envelope are set,
    and the fields hold their defaults. *)
Lemma parse_all_flags_unparsable_fields :
  exists d,
    parse_all from_chars_decimal Examples.mesh_unparsable true = Some (Some d) /\
    has_lower_corner d = true /\
    lower_corner_x d = 0%float /\ lower_corner_y d = 0%float /\
    has_grid_envelope d = true /\
    grid_low_x d = 0 /\ grid_low_y d = 0 /\
    grid_high_x d = 0 /\ grid_high_y d = 0.
Proof. eexists. split; [vm_compute; reflexivity|]. vm_compute. intuition. Qed.

(** C3, as amended: for every batch with a first mesh, the pixel sizes are
    the corner spans of mesh 0 over its grid dimensions, the canvas sizes
    are [round(|(max - min) / pixel_size|)] over the global bounds and do
    not depend on the other meshes, the assembled canvas has [total_y] rows
    of [total_x] cells, and before any placement every cell is -9999.0. *)
Theorem canvas_size_from_first_mesh
    (bounds : BoundsLatLng) (m0 : Metadata.t) (rest : list Metadata.t) :
  pixel_size_x m0
  = ((Metadata.upper_corner_y m0 - Metadata.lower_corner_y m0)
     / int_to_double (Metadata.x_length m0))%float /\
  pixel_size_y m0
  = ((Metadata.lower_corner_x m0 - Metadata.upper_corner_x m0)
     / int_to_double (Metadata.y_length m0))%float /\
  calc_image_size bounds (m0 :: rest) = calc_image_size bounds [m0] /\
  (forall total_x total_y,
     calc_image_size bounds (m0 :: rest) = Some (total_x, total_y) <->
     round_to_int (PrimFloat.abs ((max_lng bounds - min_lng bounds)
                                  / pixel_size_x m0)) = Some total_x /\
     round_to_int (PrimFloat.abs ((max_lat bounds - min_lat bounds)
                                  / pixel_size_y m0)) = Some total_y) /\
  (forall arrays canvas total_x total_y,
     combine_meta_data_and_contents bounds (m0 :: rest) arrays
       = Some (canvas, total_x, total_y) ->
     calc_image_size bounds (m0 :: rest) = Some (total_x, total_y) /\
     AssemblerFacts.canvas_shape total_x total_y canvas) /\
  (forall total_x total_y,
     calc_image_size bounds (m0 :: rest) = Some (total_x, total_y) ->
     combine_meta_data_and_contents bounds (m0 :: rest) []
     = Some (replicate (Z.to_nat total_y)
               (replicate (Z.to_nat total_x) (-9999)%float),
             total_x, total_y)).
Proof.
  split; [reflexivity|]. split; [reflexivity|]. split; [reflexivity|].
  split; [|split].
  - intros total_x total_y. cbn [calc_image_size].
    destruct (round_to_int _) as [x|]; [|by split; [|intros [? _]]].
    destruct (round_to_int _) as [y|]; [|by split; [|intros [_ ?]]].
    split; [by intros [= -> ->]|by intros [[= ->] [= ->]]].
  - intros arrays canvas total_x total_y.
    unfold combine_meta_data_and_contents.
    destruct (calc_image_size bounds (m0 :: rest)) as [[tx ty]|]; [|done].
    destruct (place_meshes _ _ _ _ _ _ _ _) as [canvas'|] eqn:E; [|done].
    intros [= <- <- <-]. split; [done|].
    eapply AssemblerFacts.place_meshes_shape; [|exact E].
    apply AssemblerFacts.canvas_shape_replicate.
  - intros total_x total_y H. unfold combine_meta_data_and_contents.
    by rewrite H.
Qed.

(** C3 as stated fails wherever a pixel size is negative, as the row pitch
    of every north-up mesh is: the code takes the absolute value of the
    quotient and gets 2 rows, the stated formula gives -2. *)
Lemma canvas_rows_absolute_value_of_quotient :
  let m := Examples.mesh_one_degree_metadata in
  let bounds := store_bounds_latlng [m] in
  pixel_size_y m = (-0.5)%float /\
  calc_image_size bounds [m] = Some (4, 2) /\
  total_as_specified (max_lat bounds) (min_lat bounds) (pixel_size_y m)
  = Some (-2).
Proof. vm_compute. intuition. Qed.







(** C6. What the reprojector guarantees about the original file: whenever
    [resampling] returns [false] with an error code (the source cannot be
    read, the primitive rejects a system or a transform, the temporary file
    cannot be written), the file at the output path is the one that was
    there before; when an exception leaves it, the file is either still the
    original or, if the temporary file was written and the original removed
    before [rename] threw, no longer there. The temporary path is assumed
    to differ from the output path. *)
Theorem resampling_failure_and_the_original
    (env : Environment) (output_path : string) (output_epsg : text)
    (fs fs' : file_system) (out : outcome) :
  temp_path_of env output_path <> output_path ->
  resampling env output_path output_epsg fs = (out, fs') ->
  match out with
  | Failure _ => fs' !! output_path = fs !! output_path
  | Exception =>
      fs' !! output_path = fs !! output_path \/
      (write_succeeds env = true /\ remove_succeeds env = true /\
       fs' !! output_path = None)
  | Success | Undefined => True
  end.
Proof.
  intros Htemp Hrun. destruct out as [|ec| |]; [done| | |done].
  - destruct (ReprojectorFacts.resampling_failure_storage env output_path
                output_epsg fs (Failure ec) fs' Htemp Hrun)
      as [H | [H _]]; done.
  - destruct (ReprojectorFacts.resampling_failure_storage env output_path
                output_epsg fs Exception fs' Htemp Hrun)
      as [H | (_ & H1 & H2 & H3)]; [done|by left|by right].
Qed.

Lemma resampling_failure_and_the_original_witness :
  (resampling Examples.write_fails "dem.tif" (tag "EPSG:3857")
     Examples.storage).1 = Failure io_error /\
  (resampling Examples.write_fails "dem.tif" (tag "EPSG:3857")
     Examples.storage).2 !! "dem.tif"%string
  = Examples.storage !! "dem.tif"%string.
Proof.
  split; [vm_compute; reflexivity|].
  apply (resampling_failure_and_the_original Examples.write_fails
           "dem.tif" (tag "EPSG:3857") Examples.storage
           (resampling Examples.write_fails "dem.tif" (tag "EPSG:3857")
              Examples.storage).2
           (Failure io_error)).
  - vm_compute. discriminate.
  - vm_compute. reflexivity.
Defined.

(** C6, the run that loses the original: the temporary file is written, the
    original is removed, [rename] throws; the exception leaves [resampling]
    with no file at the output path and the reprojected raster under the
    temporary name. *)
Lemma resampling_rename_failure_loses_the_original :
  Examples.storage !! "dem.tif"%string = Some (Raster Examples.raster_3x3) /\
  (resampling Examples.rename_fails "dem.tif" (tag "EPSG:3857")
     Examples.storage).1 = Exception /\
  (resampling Examples.rename_fails "dem.tif" (tag "EPSG:3857")
     Examples.storage).2 !! "dem.tif"%string = None /\
  stored_epsg
    (resampling Examples.rename_fails "dem.tif" (tag "EPSG:3857")
       Examples.storage).2 "dem.tmp.tif" = Some 3857.
Proof. repeat split; vm_compute; reflexivity. Qed.

(** C8. With a readable source raster: a target string the reprojection
    primitive rejects makes [resampling] return [false] with
    [invalid_argument] and leaves the storage as it was; a run that replaced
    the file stored the code given by [extract_epsg]; that code is the
    decimal number after the prefix ["EPSG:"], and 0 for every string that
    does not begin with ["EPSG:"]; and when the number after ["EPSG:"]
    cannot be converted, the run does not succeed. *)
Theorem target_system_rejected_or_epsg_code
    (env : Environment) (output_path : string) (dst_crs : text)
    (fs : file_system) (src_data : GeoTiff.Data) :
  read_geotiff fs output_path = Some src_data ->
  context_created env = true ->
  (proj_create env dst_crs = false ->
   resampling env output_path dst_crs fs = (Failure invalid_argument, fs)) /\
  (forall fs',
     resampling env output_path dst_crs fs = (Success, fs') ->
     proj_is_equivalent_to env src_crs dst_crs = false ->
     exists code, extract_epsg dst_crs = Some code /\
       stored_epsg fs' output_path = Some code) /\
  (forall ds,
     ds <> [] -> Forall is_digit ds ->
     in_int_range (digits_value ds) = true ->
     dst_crs = tag "EPSG:" ++ map digit_char ds ->
     extract_epsg dst_crs = Some (digits_value ds)) /\
  (starts_with dst_crs (tag "EPSG:") = false ->
   extract_epsg dst_crs = Some 0) /\
  (extract_epsg dst_crs = None ->
   proj_is_equivalent_to env src_crs dst_crs = false ->
   (resampling env output_path dst_crs fs).1 <> Success).
Proof.
  intros Hread Hctx. repeat split.
  - by apply (ReprojectorFacts.resampling_rejected env output_path dst_crs fs
                src_data).
  - intros fs'. apply ReprojectorFacts.resampling_success_epsg.
  - intros ds Hne Hds Hrange ->. by apply ReprojectorFacts.extract_epsg_code.
  - apply ReprojectorFacts.extract_epsg_other.
  - intros Hnone Hdiff Hsuccess.
    destruct (resampling env output_path dst_crs fs) as [out fs'] eqn:Hrun.
    cbn in Hsuccess. subst out.
    destruct (ReprojectorFacts.resampling_success_epsg env output_path dst_crs
                fs fs' Hrun Hdiff) as (code & Hcode & _).
    by rewrite Hnone in Hcode.
Qed.

Lemma target_system_rejected_or_epsg_code_witness :
  resampling Examples.rejecting "dem.tif" (tag "UTM zone 54")
    Examples.storage = (Failure invalid_argument, Examples.storage) /\
  extract_epsg (tag "EPSG:6677") = Some 6677.
Proof.
  assert (read_geotiff Examples.storage "dem.tif" = Some Examples.raster_3x3)
    as Hread by reflexivity.
  assert (context_created Examples.rejecting = true) as Hctx by reflexivity.
  split.
  - apply (target_system_rejected_or_epsg_code Examples.rejecting "dem.tif"
             (tag "UTM zone 54") Examples.storage Examples.raster_3x3
             Hread Hctx).
    reflexivity.
  - destruct (target_system_rejected_or_epsg_code Examples.rejecting "dem.tif"
                (tag "EPSG:6677") Examples.storage Examples.raster_3x3
                Hread Hctx) as (_ & _ & Hcode & _).
    apply (Hcode [6; 6; 7; 7]).
    + discriminate.
    + repeat constructor; vm_compute; discriminate.
    + reflexivity.
    + reflexivity.
Defined.

(** C8, a target string of the shape authority:code that is not an EPSG
    string: a primitive that accepts ["ESRI:54009"] lets the run succeed, and
    the raster that replaces the file carries the code 0. *)
Lemma authority_other_than_epsg_stored_as_zero :
  extract_epsg (tag "ESRI:54009") = Some 0 /\
  (resampling Examples.all_succeed "dem.tif" (tag "ESRI:54009")
     Examples.storage).1 = Success /\
  stored_epsg
    (resampling Examples.all_succeed "dem.tif" (tag "ESRI:54009")
       Examples.storage).2 "dem.tif" = Some 0.
Proof. repeat split; vm_compute; reflexivity. Qed.

(** ** Further properties of the code *)

(** X1. [XmlParser::validate_xml] returns [true] for every text, the empty
    text and text that is no XML included: the parser it calls has no
    failing return. *)
Theorem validate_xml_accepts_every_text
    (from_chars_double : text -> option (float * text)) (xml_content : text) :
  validate_xml from_chars_double xml_content = Some true.
Proof.
  unfold validate_xml, parse_all.
  destruct (ParserFacts.parse_all_loop_total from_chars_double true
              (S (length xml_content)) xml_content ParsedData_default)
    as [data ->]; [lia|done].
Qed.

(** X2. The bytes of a terrain RGB pixel encode the elevation in tenths of a
    metre: for every elevation above the no-data value whose tenths,
    truncated toward zero, lie in [-100000, 2^24 - 100000), the three
    conversions are defined, each byte is in [0, 256) and
    [R * 65536 + G * 256 + B] is the truncated tenths plus 100000. *)
Theorem terrain_rgb_encodes_tenths (height : float) (tenths : Z) :
  PrimFloat.leb height NO_DATA_VALUE = false ->
  double_to_int (height * 10)%float = Some tenths ->
  -100000 <= tenths < 2 ^ 24 - 100000 ->
  exists r g b,
    terrain_rgb height = Some (r, g, b) /\
    0 <= r < 256 /\ 0 <= g < 256 /\ 0 <= b < 256 /\
    r * 65536 + g * 256 + b = tenths + 100000.
Proof.
  intros Hdata Hcast Hrange.
  unfold terrain_rgb, convert_height_to_R, convert_height_to_G,
    convert_height_to_B, offset_height.
  rewrite Hdata, Hcast.
  assert (in_int_range (tenths + 100000) = true) as ->.
  { unfold in_int_range, int_min, int_max.
    apply andb_true_intro. split; [apply Z.leb_le|apply Z.leb_le]; lia. }
  set (offset := tenths + 100000).
  assert (0 <= offset < 2 ^ 24) as Hoffset by (unfold offset; lia).
  unfold R_MIN_HEIGHT, G_MIN_HEIGHT, to_uint8.
  rewrite (Z.quot_div_nonneg offset 65536) by lia.
  pose proof (Z.div_mod offset 65536 ltac:(lia)) as H1.
  pose proof (Z.mod_pos_bound offset 65536 ltac:(lia)) as H2.
  assert (0 <= offset / 65536 < 256) as Hr.
  { split; [apply Z.div_pos; lia|apply Z.div_lt_upper_bound; lia]. }
  rewrite (Z.mod_small (offset / 65536) 256) by lia.
  set (r := offset / 65536) in *.
  assert (0 <= offset - r * 65536 < 65536) as Hrest by lia.
  rewrite (Z.quot_div_nonneg (offset - r * 65536) 256) by lia.
  pose proof (Z.div_mod (offset - r * 65536) 256 ltac:(lia)) as H3.
  pose proof (Z.mod_pos_bound (offset - r * 65536) 256 ltac:(lia)) as H4.
  assert (0 <= (offset - r * 65536) / 256 < 256) as Hg.
  { split; [apply Z.div_pos; lia|apply Z.div_lt_upper_bound; lia]. }
  rewrite (Z.mod_small ((offset - r * 65536) / 256) 256) by lia.
  set (g := (offset - r * 65536) / 256) in *.
  assert (0 <= offset - r * 65536 - g * 256 < 256) as Hb by lia.
  rewrite (Z.mod_small (offset - r * 65536 - g * 256) 256) by lia.
  eexists _, _, _. split; [reflexivity|]. lia.
Qed.

Lemma terrain_rgb_encodes_tenths_witness :
  exists r g b,
    terrain_rgb 3776.25%float = Some (r, g, b) /\
    0 <= r < 256 /\ 0 <= g < 256 /\ 0 <= b < 256 /\
    r * 65536 + g * 256 + b = 37762 + 100000.
Proof.
  apply (terrain_rgb_encodes_tenths 3776.25%float 37762).
  - vm_compute. reflexivity.
  - vm_compute. reflexivity.
  - lia.
Defined.

(** X3. Every elevation at or below the no-data value -9999 is written as
    the pixel (1, 134, 160), which is also the pixel of the elevation 0: a
    terrain RGB tile does not tell no-data from sea level. *)
Theorem terrain_rgb_nodata_is_sea_level (height : float) :
  PrimFloat.leb height NO_DATA_VALUE = true ->
  terrain_rgb height = Some (1, 134, 160) /\
  terrain_rgb height = terrain_rgb 0.
Proof.
  intros Hnodata.
  assert (terrain_rgb height = Some (1, 134, 160)) as H.
  { unfold terrain_rgb, convert_height_to_R, convert_height_to_G,
      convert_height_to_B. by rewrite Hnodata. }
  split; [done|]. rewrite H. vm_compute. reflexivity.
Qed.

Lemma terrain_rgb_nodata_is_sea_level_witness :
  terrain_rgb (-9999)%float = Some (1, 134, 160) /\
  terrain_rgb (-9999)%float = terrain_rgb 0.
Proof.
  apply (terrain_rgb_nodata_is_sea_level (-9999)%float).
  vm_compute. reflexivity.
Defined.



(** X5. The raster that a merge builds has at least one row and one column,
    a buffer of exactly [height * width] samples, no rotation terms and a
    declared no-data value; and the merge builds it whenever the buffers of
    the sources have [height * width] samples and the casts to [int] of the
    output dimensions and of the offsets of the sources are defined. *)
Theorem merged_raster_is_well_formed
    (datasets : list GeoTiff.Data) (resolution : float) :
  (forall merged,
     merge_rasters datasets resolution = Some merged ->
     RasterFacts.well_formed merged /\
     1 <= GeoTiff.width merged /\ 1 <= GeoTiff.height merged /\
     GeoTiff.has_nodata merged = true /\
     GeoTiff.geo_transform_2 merged = 0%float /\
     GeoTiff.geo_transform_4 merged = 0%float) /\
  (let e := merge_extent datasets in
   let sizes := merge_pixel_sizes e resolution in
   Forall RasterFacts.well_formed datasets ->
   is_Some (ceil_to_int ((ext_max_x e - ext_min_x e) / sizes.1)) ->
   is_Some (ceil_to_int ((ext_max_y e - ext_min_y e) / sizes.2)) ->
   Forall (fun src =>
             is_Some (merge_offsets (ext_min_x e) (ext_max_y e)
                        sizes.1 sizes.2 src)) datasets ->
   is_Some (merge_rasters datasets resolution)).
Proof.
  split.
  - intros merged. unfold merge_rasters.
    destruct (ceil_to_int _) as [w|] eqn:Ew; [|done].
    destruct (ceil_to_int _) as [h|] eqn:Eh in |- *; [|done].
    destruct (merge_datasets _ _ _ _ _ _ _ _) as [pixels|] eqn:Em; [|done].
    intros [= <-]. cbn.
    apply MoreFacts.to_int_range in Ew, Eh.
    apply MoreFacts.merge_datasets_length in Em.
    assert (0 <= Z.max w 1 <= int_max /\ 0 <= Z.max h 1 <= int_max)
      as [Hw Hh] by (unfold int_min, int_max in *; lia).
    repeat split; cbn; try lia.
    rewrite Em. by apply MoreFacts.buffer_length.
  - intros e sizes Hsrc [w Ew] [h Eh] Hoff.
    unfold merge_rasters. fold e. unfold sizes, merge_pixel_sizes in *.
    cbn [fst snd] in *. rewrite Ew, Eh.
    apply MoreFacts.to_int_range in Ew, Eh.
    set (out_width := Z.max w 1). set (out_height := Z.max h 1).
    assert (0 <= out_width <= int_max) as Hw
      by (unfold out_width, int_min, int_max in *; lia).
    assert (0 <= out_height <= int_max) as Hh
      by (unfold out_height, int_min, int_max in *; lia).
    pose proof (MoreFacts.buffer_length out_width out_height
                  (ext_nodata_value e) Hw Hh) as Hlen.
    destruct (MoreFacts.merge_datasets_total out_width out_height
                (ext_min_x e) (ext_max_y e)
                (if PrimFloat.ltb 0 resolution && metric_epsg (ext_epsg e)
                 then resolution else ext_pixel_width e)
                (if PrimFloat.ltb 0 resolution && metric_epsg (ext_epsg e)
                 then resolution else ext_pixel_height e)
                datasets _ Hw Hh Hsrc Hoff Hlen) as [pixels ->].
    done.
Qed.

Lemma merged_raster_is_well_formed_witness :
  exists merged,
    merge_rasters [Examples.first_strip; Examples.second_strip] 10
      = Some merged /\
    GeoTiff.data merged = [10; 40]%float /\
    RasterFacts.well_formed merged.
Proof.
  destruct (merged_raster_is_well_formed
              [Examples.first_strip; Examples.second_strip] 10)
    as [Hshape Htotal].
  destruct Htotal as [merged Hmerged].
  - repeat constructor; vm_compute; (reflexivity || discriminate).
  - vm_compute. eexists. reflexivity.
  - vm_compute. eexists. reflexivity.
  - repeat constructor; vm_compute; eexists; reflexivity.
  - exists merged. split; [exact Hmerged|].
    split; [|apply (Hshape merged Hmerged)].
    vm_compute in Hmerged. injection Hmerged as <-. reflexivity.
Defined.

(** X6. Merging a raster a second time changes nothing: after the pixel
    loop of a source raster has run on an output buffer, running it again
    on the result returns the same buffer. *)
Theorem merging_a_raster_again_changes_nothing
    (out_width out_height : Z) (min_x max_y pixel_width pixel_height : float)
    (src : GeoTiff.Data) (output once : list float) :
  RasterFacts.well_formed src ->
  0 <= out_width <= int_max ->
  0 <= out_height <= int_max ->
  Z.of_nat (length output) = out_height * out_width ->
  merge_dataset out_width out_height min_x max_y pixel_width pixel_height
    src output = Some once ->
  merge_dataset out_width out_height min_x max_y pixel_width pixel_height
    src once = Some once /\
  merge_datasets out_width out_height min_x max_y pixel_width pixel_height
    [src; src] output = Some once.
Proof.
  intros Hsrc Hw Hh Hlen Honce.
  assert (merge_dataset out_width out_height min_x max_y pixel_width
            pixel_height src once = Some once) as Hagain.
  { unfold merge_dataset in *.
    destruct (merge_offsets _ _ _ _ src) as [[rs cs]|]; [|done].
    destruct (RasterFacts.merge_loop_spec out_width out_height src rs cs
                Hsrc Hw Hh output once Hlen Honce) as [Hlen1 Hcells1].
    assert (Z.of_nat (length once) = out_height * out_width) as Hlen1'
      by (by rewrite Hlen1).
    destruct (RasterFacts.merge_loop_total out_width out_height src rs cs
                Hsrc Hw Hh once Hlen1') as [twice Htwice].
    destruct (RasterFacts.merge_loop_spec out_width out_height src rs cs
                Hsrc Hw Hh once twice Hlen1' Htwice) as [Hlen2 Hcells2].
    rewrite Htwice. f_equal. symmetry.
    apply (MoreFacts.buffers_equal out_width out_height); [lia|lia|done|done|].
    intros r c Hr Hc. rewrite Hcells2, Hcells1 by done.
    by rewrite MoreFacts.merged_cell_idempotent. }
  split; [done|]. cbn [merge_datasets]. by rewrite Honce, Hagain.
Qed.

Lemma merging_a_raster_again_changes_nothing_witness :
  merge_datasets 2 1 0 1 1 1 [Examples.second_strip; Examples.second_strip]
    [10; 20]%float = Some [10; 40]%float.
Proof.
  assert (RasterFacts.well_formed Examples.second_strip) as Hsrc
    by (split; vm_compute; (reflexivity || (split; discriminate))).
  assert (0 <= 2 <= int_max) as Hw by (vm_compute; split; discriminate).
  assert (0 <= 1 <= int_max) as Hh by (vm_compute; split; discriminate).
  apply (merging_a_raster_again_changes_nothing 2 1 0 1 1 1
           Examples.second_strip [10; 20]%float [10; 40]%float Hsrc Hw Hh).
  - reflexivity.
  - vm_compute. reflexivity.
Defined.

(** X7. Whatever way a run of [resampling] ends, every file of the storage
    other than the output file and the temporary file is left as it was;
    when the target system is equivalent to the source system the whole
    storage is left as it was; and a run that replaced the output file
    leaves no file at the temporary path. *)
Theorem resampling_leaves_other_files_alone
    (env : Environment) (output_path : string) (output_epsg : text)
    (fs fs' : file_system) (out : outcome) :
  resampling env output_path output_epsg fs = (out, fs') ->
  (forall path,
     path <> output_path -> path <> temp_path_of env output_path ->
     fs' !! path = fs !! path) /\
  (proj_is_equivalent_to env src_crs output_epsg = true -> fs' = fs) /\
  (out = Success ->
   proj_is_equivalent_to env src_crs output_epsg = false ->
   temp_path_of env output_path <> output_path ->
   fs' !! temp_path_of env output_path = None).
Proof.
  unfold resampling, reproject, write_geotiff, fs_remove, fs_rename.
  intros Hrun. repeat split.
  - intros path Hp Ht. revert Hrun.
    repeat case_match; intros; simplify_eq; try done;
      rewrite ?lookup_insert_ne, ?lookup_delete_ne, ?lookup_insert_ne by done;
      done.
  - intros Heq. revert Hrun. rewrite Heq.
    repeat case_match; intros; by simplify_eq.
  - intros -> Hne Htemp. revert Hrun. rewrite Hne.
    repeat case_match; intros; simplify_eq.
    rewrite lookup_insert_ne by done. by rewrite lookup_delete_eq.
Qed.

Lemma resampling_leaves_other_files_alone_witness :
  (resampling Examples.all_succeed "dem.tif" (tag "EPSG:3857")
     (<["other.tif"%string := Unreadable]> Examples.storage)).2
    !! "other.tif"%string = Some Unreadable /\
  (resampling Examples.all_succeed "dem.tif" (tag "EPSG:3857")
     (<["other.tif"%string := Unreadable]> Examples.storage)).2
    !! "dem.tmp.tif"%string = None.
Proof.
  destruct (resampling_leaves_other_files_alone Examples.all_succeed "dem.tif"
              (tag "EPSG:3857")
              (<["other.tif"%string := Unreadable]> Examples.storage)
              (resampling Examples.all_succeed "dem.tif" (tag "EPSG:3857")
                 (<["other.tif"%string := Unreadable]> Examples.storage)).2
              Success) as (Hother & _ & Htemp).
  - vm_compute. reflexivity.
  - split.
    + rewrite (Hother "other.tif"%string); [reflexivity|discriminate|discriminate].
    + apply Htemp; [reflexivity|reflexivity|discriminate].
Defined.

(** X8. A run of [resampling] that replaced the output file stored a raster
    of at least one row and one column whose buffer has exactly
    [height * width] samples, with no rotation terms and with the no-data
    value and the no-data declaration of the source raster. *)
Theorem reprojected_raster_is_well_formed
    (env : Environment) (output_path : string) (output_epsg : text)
    (fs fs' : file_system) (src : GeoTiff.Data) :
  read_geotiff fs output_path = Some src ->
  RasterFacts.well_formed src ->
  proj_is_equivalent_to env src_crs output_epsg = false ->
  resampling env output_path output_epsg fs = (Success, fs') ->
  exists dst,
    fs' !! output_path = Some (Raster dst) /\
    RasterFacts.well_formed dst /\
    1 <= GeoTiff.width dst /\ 1 <= GeoTiff.height dst /\
    GeoTiff.nodata_value dst = GeoTiff.nodata_value src /\
    GeoTiff.has_nodata dst = GeoTiff.has_nodata src /\
    GeoTiff.geo_transform_2 dst = 0%float /\
    GeoTiff.geo_transform_4 dst = 0%float.
Proof.
  intros Hread Hsrc Hne. unfold resampling. rewrite Hread, Hne.
  destruct (negb (context_created env)); [done|].
  destruct (negb _); [done|].
  destruct (proj_create_crs_to_crs env src_crs output_epsg) as [forward|];
    [|done].
  destruct (destination_geometry src forward) as [g|] eqn:Eg; [|done].
  destruct (proj_create_crs_to_crs env output_epsg src_crs) as [inverse|];
    [|done].
  destruct (extract_epsg output_epsg) as [code|]; [|done].
  destruct (reproject src inverse g code) as [dst|] eqn:Ed; [|done].
  apply MoreReprojectorFacts.destination_geometry_dimensions in Eg as [Hw Hh].
  destruct (MoreReprojectorFacts.reproject_shape src inverse g code dst
              Hsrc Hw Hh Ed) as (Hwf & Hdw & Hdh & _ & Hnd & Hhas & H2 & H4).
  unfold write_geotiff, fs_remove, fs_rename.
  repeat case_match; intros; simplify_eq.
  exists dst. rewrite lookup_insert_eq.
  match goal with
  | H : delete _ _ !! _ = Some _ |- _ =>
      apply lookup_delete_Some in H as [_ H];
      rewrite lookup_insert_eq in H; simplify_eq
  end.
  repeat split; try done; try apply Hwf; lia.
Qed.

Lemma reprojected_raster_is_well_formed_witness :
  exists dst,
    (resampling Examples.all_succeed "dem.tif" (tag "EPSG:3857")
       Examples.storage).2 !! "dem.tif"%string = Some (Raster dst) /\
    GeoTiff.width dst = 3 /\ GeoTiff.height dst = 3 /\
    length (GeoTiff.data dst) = 9%nat.
Proof.
  assert (RasterFacts.well_formed Examples.raster_3x3) as Hsrc
    by (split; vm_compute; (reflexivity || (split; discriminate))).
  destruct (reprojected_raster_is_well_formed Examples.all_succeed "dem.tif"
              (tag "EPSG:3857") Examples.storage
              (resampling Examples.all_succeed "dem.tif" (tag "EPSG:3857")
                 Examples.storage).2 Examples.raster_3x3)
    as (dst & Hdst & _); [reflexivity|exact Hsrc|reflexivity| |].
  - vm_compute. reflexivity.
  - exists dst. split; [exact Hdst|].
    vm_compute in Hdst. injection Hdst as <-. repeat split.
Defined.

(** X9. [Dem::check_mesh_codes] and [Dem::populate_metadata_list] return on
    every list of documents. The code list holds the codes of the documents
    that have a mesh element, in order; the metadata list has one entry per
    code, not per document; its entry [i] holds the header of the document
    [i] with the code [i] of the code list, which is the code of another
    document as soon as an earlier document has no mesh element; and the
    list of grids has one grid per document. *)
Theorem metadata_pairs_documents_and_codes_by_position
    (from_chars_double : text -> option (float * text))
    (all_content_list : list text) :
  exists codes metas,
    check_mesh_codes from_chars_double all_content_list [] = Some codes /\
    populate_metadata_list from_chars_double all_content_list codes
      = Some metas /\
    codes = omap (document_code from_chars_double) all_content_list /\
    length metas = length codes /\
    (length codes <= length all_content_list)%nat /\
    (Forall (fun xml => is_Some (document_code from_chars_double xml))
            all_content_list ->
     length metas = length all_content_list) /\
    (forall i m,
       metas !! i = Some m ->
       exists xml data code,
         all_content_list !! i = Some xml /\
         XmlParser_new from_chars_double xml = Some (Constructed data) /\
         codes !! i = Some code /\
         m = format_metadata data code) /\
    (forall arrays,
       store_np_array_list from_chars_double all_content_list = Some arrays ->
       length arrays = length all_content_list).
Proof.
  set (codes := omap (document_code from_chars_double) all_content_list).
  destruct (DemFacts.populate_metadata_list_spec from_chars_double
              all_content_list codes) as (metas & Hmetas & Hlen & Hentries).
  pose proof (DemFacts.length_document_codes from_chars_double
                all_content_list) as Hcodes.
  exists codes, metas. repeat split; try done.
  - by rewrite DemFacts.check_mesh_codes_spec.
  - fold codes in Hcodes. lia.
  - intros Hall. rewrite Hlen. unfold codes.
    rewrite DemFacts.document_codes_all by done. lia.
  - clear. induction all_content_list as [|xml contents IH]; intros arrays;
      cbn [store_np_array_list]; [by intros [= <-]|].
    destruct (get_np_array _ xml) as [a|]; [|done].
    destruct (store_np_array_list _ contents) as [rest|]; [|done].
    intros [= <-]. cbn. f_equal. by apply IH.
Qed.

(** X10. When [Converter::make_data_for_geotiff] returns data, the combined
    array has exactly [y_length] rows of [x_length] samples, both lengths
    are not negative and the rotation terms of the geo transform are zero;
    with an empty metadata list or an empty list of grids it returns the
    error [no_such_file_or_directory]. *)
Theorem combined_array_has_its_declared_shape (dem : DemData) :
  (forall g,
     make_data_for_geotiff dem = Some (inr g) ->
     0 <= geo_x_length g /\ 0 <= geo_y_length g /\
     length (geo_np_array g) = Z.to_nat (geo_y_length g) /\
     Forall (fun row => length row = Z.to_nat (geo_x_length g))
            (geo_np_array g) /\
     geo_transform g !! 2%nat = Some 0%float /\
     geo_transform g !! 4%nat = Some 0%float) /\
  (meta_data_list dem = [] \/ np_array_list dem = [] ->
   make_data_for_geotiff dem = Some (inl no_such_file_or_directory)).
Proof.
  split.
  - intros g. unfold make_data_for_geotiff.
    destruct (meta_data_list dem) as [|m0 metas] eqn:Em; [done|].
    destruct (np_array_list dem) as [|a0 arrays] eqn:Ea; [done|].
    unfold combine_meta_data_and_contents.
    destruct (calc_image_size _ _) as [[total_x total_y]|] eqn:Ec; [|done].
    destruct (place_meshes _ _ _ _ _ _ _ _) as [canvas|] eqn:Ep; [|done].
    intros [= <-]. cbn.
    apply DemFacts.calc_image_size_nonneg in Ec as [Hx Hy].
    apply AssemblerFacts.place_meshes_shape in Ep as [Hrows Hcols];
      [|apply AssemblerFacts.canvas_shape_replicate].
    by repeat split.
  - unfold make_data_for_geotiff. intros [-> | ->]; [done|].
    by destruct (meta_data_list dem).
Qed.

Lemma combined_array_has_its_declared_shape_witness :
  exists g,
    make_data_for_geotiff Examples.one_degree_dem = Some (inr g) /\
    geo_x_length g = 4 /\ geo_y_length g = 2 /\
    length (geo_np_array g) = Z.to_nat (geo_y_length g).
Proof.
  destruct (make_data_for_geotiff Examples.one_degree_dem)
    as [[ec|g]|] eqn:E; [by vm_compute in E| |by vm_compute in E].
  exists g. split; [reflexivity|].
  destruct (combined_array_has_its_declared_shape Examples.one_degree_dem)
    as [Hshape _].
  destruct (Hshape g E) as (_ & _ & Hrows & _).
  vm_compute in E. injection E as <-. by repeat split.
Defined.

(** X11. A [FlatArray2D] of [height] rows and [width] columns, with [int]
    dimensions, stores an element at one cell only: after
    [array(row, col) = v] inside the dimensions, [array(row, col)] is [v],
    [to_2d_vector] has [height] rows, and each of its cells holds [v] at
    [(row, col)] and the initial value elsewhere. The column index is not
    checked: [array(row, width) = v] stores at the first cell of the next
    row. *)
Theorem flat_array_stores_one_cell
    (height width row col : Z) (init_value v : float) :
  0 <= height <= int_max -> 0 <= width <= int_max ->
  0 <= row < height -> 0 <= col < width ->
  exists array array' rows,
    FlatArray2D.make height width init_value = Some array /\
    FlatArray2D.set array row col v = Some array' /\
    FlatArray2D_get array' row col = Some v /\
    FlatArray2D.to_2d_vector array' = Some rows /\
    length rows = Z.to_nat height /\
    (forall r c : nat,
       Z.of_nat r < height -> Z.of_nat c < width ->
       rows !! r ≫= (.!! c)
       = Some (if decide (Z.of_nat r = row /\ Z.of_nat c = col)
               then v else init_value)) /\
    (row + 1 < height ->
     exists array'',
       FlatArray2D.set array row width v = Some array'' /\
       FlatArray2D_get array'' (row + 1) 0 = Some v).
Proof.
  intros Hh Hw Hr Hc.
  destruct (GridFacts.make_shaped height width init_value Hh Hw)
    as (array & Hmake & Hshape & Hdata).
  destruct (GridFacts.set_in_shape height width array row col v Hshape Hr Hc)
    as (array' & Hset & Hshape' & Hdata').
  destruct (GridFacts.index_in_shape height width array' row col Hshape' Hr Hc)
    as [Hindex Hbound].
  pose proof Hshape as [Hw0 Hh0 Hlen _ _ Hsmall _].
  exists array, array', (FlatArray2D.row_copy array' <$> seq 0 (Z.to_nat height)).
  split; [done|]. split; [done|]. split; [|split; [|split; [|split]]].
  - unfold FlatArray2D_get. rewrite Hindex, Hdata'.
    apply list_lookup_insert_eq. lia.
  - by apply (GridFacts.to_2d_vector_shaped height width).
  - by rewrite length_fmap, length_seq.
  - intros r c Hr' Hc'. rewrite list_lookup_fmap, lookup_seq_lt by lia.
    cbn [fmap option_fmap option_map mbind option_bind]. rewrite Nat.add_0_l.
    rewrite (GridFacts.row_copy_lookup height width array' r c Hshape' Hr').
    rewrite decide_True by done. rewrite Hdata', Hdata.
    destruct (decide (Z.of_nat r = row /\ Z.of_nat c = col)) as [[<- <-]|Hne].
    + apply list_lookup_insert_eq. rewrite length_replicate. lia.
    + assert (0 <= Z.of_nat r * width + Z.of_nat c < height * width) by nia.
      assert (row * width + col <> Z.of_nat r * width + Z.of_nat c).
      { intros Heq. apply Hne.
        assert (Z.of_nat r = row) by nia. split; [done|]. subst row. lia. }
      rewrite list_lookup_insert_ne by lia.
      apply lookup_replicate_2. lia.
  - intros Hnext.
    assert (forall a r c, FlatArray2D.width_ a = width ->
              0 <= r < height -> 0 <= c <= width ->
              FlatArray2D.index a r c = r * width + c) as Hindex'.
    { intros a r c Ha Hr' Hc'. unfold FlatArray2D.index. rewrite Ha.
      rewrite !GridFacts.to_size_t_small by (unfold int_max in *; lia).
      unfold size_modulus. apply Z.mod_small. unfold int_max in *. nia. }
    unfold FlatArray2D.set. rewrite (Hindex' array row width) by (done || lia).
    destruct (Z.ltb_spec (row * width + width)
                (Z.of_nat (length (FlatArray2D.data_ array)))); [|nia].
    eexists. split; [reflexivity|]. unfold FlatArray2D_get.
    rewrite Hindex' by (done || lia). cbn [FlatArray2D.data_].
    replace ((row + 1) * width + 0) with (row * width + width) by lia.
    apply list_lookup_insert_eq. lia.
Qed.

Lemma flat_array_stores_one_cell_witness :
  exists array array' rows,
    FlatArray2D.make 2 3 sentinel = Some array /\
    FlatArray2D.set array 1 1 5%float = Some array' /\
    FlatArray2D.to_2d_vector array' = Some rows /\
    rows = [[sentinel; sentinel; sentinel]; [sentinel; 5%float; sentinel]].
Proof.
  destruct (flat_array_stores_one_cell 2 3 1 1 sentinel 5%float)
    as (array & array' & rows & Hmake & Hset & _ & Hrows & _);
    [vm_compute; split; discriminate|vm_compute; split; discriminate|lia|lia|].
  exists array, array', rows. repeat split; try done.
  vm_compute in Hmake. injection Hmake as <-.
  vm_compute in Hset. injection Hset as <-.
  vm_compute in Hrows. injection Hrows as <-. reflexivity.
Defined.





(** X14. The two numbers of a [gml:low] or [gml:high] element are read back
    exactly: for every pair of decimal numbers in the range of [int], each
    with an optional minus sign, separated by white space and followed by
    ['<'], [parse_int_pair] returns the two values and the position of the
    ['<'], whatever white space leads; the dispatch of [gml:low] stores them
    as the low corner and the dispatch of [gml:high] as the high corner, and
    [gml:high] alone marks the grid envelope as present. *)
Theorem grid_corner_is_read_back
    (from_chars_double : text -> option (float * text)) (sea_at_zero : bool)
    (lead ws rest : text) (neg1 neg2 : bool) (ds1 ds2 : list Z)
    (data : ParsedData) :
  forallb is_space lead = true ->
  ds1 <> [] -> Forall is_digit ds1 ->
  in_int_range (int_value neg1 ds1) = true ->
  ws <> [] -> forallb is_space ws = true ->
  ds2 <> [] -> Forall is_digit ds2 ->
  in_int_range (int_value neg2 ds2) = true ->
  let body :=
    lead ++ render_int neg1 ds1 ++ ws ++ render_int neg2 ds2
    ++ "<"%byte :: rest in
  (forall val1 val2,
     parse_int_pair body val1 val2
     = ("<"%byte :: rest, int_value neg1 ds1, int_value neg2 ds2)) /\
  dispatch from_chars_double sea_at_zero (tag "gml:low>" ++ body) data
  = Some ("<"%byte :: rest,
          set_grid_low data (int_value neg1 ds1) (int_value neg2 ds2), false) /\
  dispatch from_chars_double sea_at_zero (tag "gml:high>" ++ body) data
  = Some ("<"%byte :: rest,
          set_grid_high data (int_value neg1 ds1) (int_value neg2 ds2), false) /\
  get_grid_envelope
    (set_grid_high data (int_value neg1 ds1) (int_value neg2 ds2))
  = Some (mkGridEnvelope (grid_low_x data) (grid_low_y data)
            (int_value neg1 ds1) (int_value neg2 ds2)).
Proof.
  intros Hlead Hne1 Hds1 Hr1 Hws0 Hws Hne2 Hds2 Hr2 body.
  assert (forall val1 val2,
            parse_int_pair body val1 val2
            = ("<"%byte :: rest, int_value neg1 ds1, int_value neg2 ds2))
    as Hpair by (intros; by apply FieldFacts.parse_int_pair_render).
  split; [done|]. split; [|split; [|done]].
  - unfold dispatch.
    change (starts_with (tag "gml:low>" ++ body) (tag "gml:lowerCorner>"))
      with false.
    change (starts_with (tag "gml:low>" ++ body) (tag "gml:upperCorner>"))
      with false.
    replace (starts_with (tag "gml:low>" ++ body) (tag "gml:low>"))
      with true by (by destruct body).
    change (drop 8 (tag "gml:low>" ++ body)) with body.
    cbn iota. by rewrite Hpair.
  - unfold dispatch.
    change (starts_with (tag "gml:high>" ++ body) (tag "gml:lowerCorner>"))
      with false.
    change (starts_with (tag "gml:high>" ++ body) (tag "gml:upperCorner>"))
      with false.
    change (starts_with (tag "gml:high>" ++ body) (tag "gml:low>"))
      with false.
    replace (starts_with (tag "gml:high>" ++ body) (tag "gml:high>"))
      with true by (by destruct body).
    change (drop 9 (tag "gml:high>" ++ body)) with body.
    cbn iota. by rewrite Hpair.
Qed.

Lemma grid_corner_is_read_back_witness :
  parse_int_pair (tag " -12   0224</gml:high>") 7 7
  = (tag "</gml:high>", -12, 224).
Proof.
  refine (proj1 (grid_corner_is_read_back from_chars_decimal true
                   (tag " ") (tag "   ") (tag "/gml:high>") true false
                   [1; 2] [0; 2; 2; 4] ParsedData_default
                   _ _ _ _ _ _ _ _ _) 7 7);
    try reflexivity; try discriminate;
    repeat constructor; vm_compute; discriminate.
Defined.

(** X15. The text of a [mesh] or [type] element is stored without the
    white space around it and otherwise unchanged: for every text without
    ['<'] that neither begins nor ends with white space, surrounded by any
    white space and followed by ['<'], [parse_simple_text] yields exactly
    that text, and the dispatch of [mesh] makes it the mesh code. *)
Theorem element_text_is_trimmed
    (from_chars_double : text -> option (float * text)) (sea_at_zero : bool)
    (lead core trail rest : text) (data : ParsedData) :
  forallb is_space lead = true ->
  forallb is_space trail = true ->
  forallb (fun c => negb (is_lt c)) core = true ->
  match head core with Some b => is_space b = false | None => True end ->
  match last core with Some b => is_space b = false | None => True end ->
  (parse_simple_text (lead ++ core ++ trail ++ "<"%byte :: rest)).2 = core /\
  exists p,
    dispatch from_chars_double sea_at_zero
      (tag "mesh>" ++ lead ++ core ++ trail ++ "<"%byte :: rest) data
    = Some (p, set_mesh_code data core, false) /\
    get_mesh_code (set_mesh_code data core) = Some core.
Proof.
  intros Hlead Htrail Hcore Hhead Hlast.
  assert (parse_simple_text (lead ++ core ++ trail ++ "<"%byte :: rest)
          = ("<"%byte :: rest, core)) as Htext.
  { unfold parse_simple_text.
    rewrite ParserFacts.skip_whitespace_app by done.
    assert (skip_whitespace (core ++ trail ++ "<"%byte :: rest)
            = skip_whitespace (trail ++ "<"%byte :: rest)
              /\ core = []
            \/ skip_whitespace (core ++ trail ++ "<"%byte :: rest)
               = core ++ trail ++ "<"%byte :: rest) as [[-> ->] | ->].
    { destruct core as [|b core]; [by left|right].
      cbn in Hhead. cbn. by rewrite Hhead. }
    - rewrite ParserFacts.skip_whitespace_app by done.
      cbn. by unfold trim_right.
    - replace (core ++ trail ++ "<"%byte :: rest)
        with ((core ++ trail) ++ "<"%byte :: rest) by (by rewrite <- app_assoc).
      rewrite ParserFacts.span_until_stop;
        [|by rewrite forallb_app, Hcore, FieldFacts.spaces_hold_no_lt|done].
      by rewrite FieldFacts.trim_right_spaces. }
  split; [by rewrite Htext|].
  eexists. split; [|done]. unfold dispatch.
  set (body := lead ++ core ++ trail ++ "<"%byte :: rest) in *.
  change (starts_with (tag "mesh>" ++ body) (tag "gml:lowerCorner>")) with false.
  change (starts_with (tag "mesh>" ++ body) (tag "gml:upperCorner>")) with false.
  change (starts_with (tag "mesh>" ++ body) (tag "gml:low>")) with false.
  change (starts_with (tag "mesh>" ++ body) (tag "gml:high>")) with false.
  change (starts_with (tag "mesh>" ++ body) (tag "gml:startPoint>")) with false.
  replace (starts_with (tag "mesh>" ++ body) (tag "mesh>"))
    with true by (by destruct body).
  change (drop 5 (tag "mesh>" ++ body)) with body.
  cbn iota. by rewrite Htext.
Qed.

Lemma element_text_is_trimmed_witness :
  (parse_simple_text (tag "  5339 46
 </mesh>")).2 = tag "5339 46".
Proof.
  refine (proj1 (element_text_is_trimmed from_chars_decimal true
                   (tag "  ") (tag "5339 46") [x0a; " "%byte] (tag "/mesh>")
                   ParsedData_default _ _ _ _ _)); reflexivity.
Defined.





(** X18. The float branch of [GeoTiff::create] on an array of [y_length]
    rows of [x_length] samples (both [int] and not negative) never reads
    outside the array: with a library that accepts every tile, it hands it
    one buffer of 65536 samples for every tile origin below the dimensions;
    the sample at [(row, col)] of the tile at [(256 i, 256 j)] is the array
    element of row [256 j + row] and column [256 i + col] cast to [float]
    where the array has such an element, and -9999 in the part of an edge
    tile that lies outside the array. *)
Theorem create_tiles_cover_the_array
    (np_array : list (list float)) (x_length y_length : Z) :
  0 <= x_length <= int_max -> 0 <= y_length <= int_max ->
  length np_array = Z.to_nat y_length ->
  Forall (fun row => length row = Z.to_nat x_length) np_array ->
  exists tiles,
    create_tiles (fun _ _ _ => true) np_array x_length y_length
      = Some (true, tiles) /\
    forall i j row col,
      0 <= i -> 256 * i < x_length -> 0 <= j -> 256 * j < y_length ->
      0 <= row < 256 -> 0 <= col < 256 ->
      exists buffer,
        stored_tile tiles (256 * i) (256 * j) = Some buffer /\
        Z.of_nat (length buffer) = 65536 /\
        buffer !! Z.to_nat (row * 256 + col)
        = if (256 * j + row <? y_length) && (256 * i + col <? x_length)
          then array_source np_array (256 * j + row) (256 * i + col)
          else Some (-9999)%float.
Proof.
  intros Hx Hy Hrows Hcols.
  set (px := fun r c => default 0%float (array_source np_array r c)).
  assert (forall r c, 0 <= r < y_length -> 0 <= c < x_length ->
            array_source np_array r c = Some (px r c)) as Hsource.
  { intros r c Hr Hc.
    by apply (TileFacts.array_source_defined np_array x_length y_length). }
  destruct (TileFacts.write_tiles_spec (array_source np_array) x_length
              y_length (-9999)%float px Hx Hy Hsource) as (tiles & Hrun & Hall).
  exists tiles. split; [exact Hrun|].
  intros i j row col Hi Hi' Hj Hj' Hrow Hcol.
  eexists. split; [apply Hall; split; try done; apply TileFacts.tile_count_spec; lia|].
  split; [apply TileFacts.tile_cells_length|].
  rewrite TileFacts.tile_cells_lookup by done.
  destruct (Z.ltb_spec (256 * j + row) y_length); [|done].
  destruct (Z.ltb_spec (256 * i + col) x_length); [|done].
  cbn [andb]. symmetry. apply Hsource; lia.
Qed.

Lemma create_tiles_cover_the_array_witness :
  exists tiles,
    create_tiles (fun _ _ _ => true) Examples.mesh_one_degree_grid 4 2
      = Some (true, tiles) /\
    exists buffer,
      stored_tile tiles 0 0 = Some buffer /\
      buffer !! 257%nat = Some 6%float /\
      buffer !! 4%nat = Some (-9999)%float.
Proof.
  destruct (create_tiles_cover_the_array Examples.mesh_one_degree_grid 4 2)
    as (tiles & Hrun & Hall);
    [vm_compute; split; discriminate|vm_compute; split; discriminate|
     reflexivity|repeat constructor|].
  exists tiles. split; [exact Hrun|].
  destruct (Hall 0 0 1 1) as (buffer & Hb & _ & H11); try lia.
  destruct (Hall 0 0 0 4) as (buffer' & Hb' & _ & H04); try lia.
  rewrite Hb in Hb'. injection Hb' as <-.
  exists buffer. split; [exact Hb|]. split; [exact H11|exact H04].
Defined.

(** X19. A raster written in tiles by [write_geotiff] and read back by the
    tiled branch of [read_geotiff] comes back sample for sample: for every
    raster whose buffer has [height * width] samples, with a library that
    stores the tiles it receives and returns the tile stored at the origin
    it is asked for, the writer writes every tile and the reader returns
    the buffer of the raster. *)
Theorem tiles_written_are_read_back (d : GeoTiff.Data) :
  RasterFacts.well_formed d ->
  exists tiles,
    write_geotiff_tiles (fun _ _ _ => true) d = Some (true, tiles) /\
    read_tiles (stored_tile tiles) (GeoTiff.width d) (GeoTiff.height d)
      tile_width tile_height
    = Some (Some (GeoTiff.data d)).
Proof.
  intros [Hw Hh Hlen].
  set (px := fun r c =>
         default 0%float
           (GeoTiff.data d !! Z.to_nat (r * GeoTiff.width d + c))).
  assert (forall r c, 0 <= r < GeoTiff.height d -> 0 <= c < GeoTiff.width d ->
            GeoTiff.data d !! Z.to_nat (r * GeoTiff.width d + c)
            = Some (px r c)) as Hdata.
  { intros r c Hr Hc. unfold px.
    destruct (lookup_lt_is_Some_2 (GeoTiff.data d)
                (Z.to_nat (r * GeoTiff.width d + c))) as [v ->]; [nia|done]. }
  assert (forall r c, 0 <= r < GeoTiff.height d -> 0 <= c < GeoTiff.width d ->
            raster_source d r c = Some (px r c)) as Hsource.
  { intros r c Hr Hc. unfold raster_source.
    destruct (RasterFacts.flat_index_in_raster r (GeoTiff.width d)
                (GeoTiff.height d) c) as [-> _]; try done.
    by apply Hdata. }
  set (fill := if GeoTiff.has_nodata d then GeoTiff.nodata_value d
               else 0%float).
  destruct (TileFacts.write_tiles_spec (raster_source d) (GeoTiff.width d)
              (GeoTiff.height d) fill px Hw Hh Hsource)
    as (tiles & Hrun & Hall).
  exists tiles. split; [exact Hrun|].
  destruct (TileFacts.read_tiles_spec (GeoTiff.width d) (GeoTiff.height d)
              fill px Hw Hh (stored_tile tiles) Hall)
    as (data & Hread & Hlen' & Hcells).
  unfold tile_width, tile_height. rewrite Hread. do 2 f_equal.
  apply (MoreFacts.buffers_equal (GeoTiff.width d) (GeoTiff.height d));
    [lia|lia|done|lia|].
  intros r c Hr Hc. by rewrite Hcells, Hdata.
Qed.

Lemma tiles_written_are_read_back_witness :
  exists tiles,
    write_geotiff_tiles (fun _ _ _ => true) Examples.raster_3x3
      = Some (true, tiles) /\
    read_tiles (stored_tile tiles) 3 3 tile_width tile_height
    = Some (Some [1; 2; 3; 4; 5; 6; 7; 8; -9999]%float).
Proof.
  apply (tiles_written_are_read_back Examples.raster_3x3).
  split; vm_compute; (reflexivity || (split; discriminate)).
Defined.

(** X20. The array that [Converter::make_data_for_geotiff] returns is one
    that the float branch of [GeoTiff::create] writes without leaving it:
    with a library that accepts every tile, every tile is written, and the
    sample of row [r] and column [c] of the combined array is found, cast
    to [float], at row [r mod 256] and column [c mod 256] of the tile whose
    origin is [(256 (c / 256), 256 (r / 256))]. *)
Theorem combined_array_reaches_the_tiles (dem : DemData) (g : GeoData) :
  make_data_for_geotiff dem = Some (inr g) ->
  exists tiles,
    create_tiles (fun _ _ _ => true) (geo_np_array g) (geo_x_length g)
      (geo_y_length g)
    = Some (true, tiles) /\
    forall r c,
      0 <= r < geo_y_length g -> 0 <= c < geo_x_length g ->
      exists buffer row v,
        stored_tile tiles (256 * (c / 256)) (256 * (r / 256)) = Some buffer /\
        geo_np_array g !! Z.to_nat r = Some row /\
        row !! Z.to_nat c = Some v /\
        buffer !! Z.to_nat (r mod 256 * 256 + c mod 256)
        = Some (double_to_float v).
Proof.
  unfold make_data_for_geotiff.
  destruct (meta_data_list dem) as [|m0 metas] eqn:Em; [done|].
  destruct (np_array_list dem) as [|a0 arrays] eqn:Ea; [done|].
  unfold combine_meta_data_and_contents.
  destruct (calc_image_size _ _) as [[total_x total_y]|] eqn:Ec; [|done].
  destruct (place_meshes _ _ _ _ _ _ _ _) as [canvas|] eqn:Ep; [|done].
  intros [= <-]. cbn.
  pose proof (DemFacts.calc_image_size_nonneg _ _ _ _ Ec) as [Hx Hy].
  pose proof (DemFacts.calc_image_size_int _ _ _ _ Ec) as [Hx' Hy'].
  apply AssemblerFacts.place_meshes_shape in Ep as [Hrows Hcols];
    [|apply AssemblerFacts.canvas_shape_replicate].
  set (px := fun r c => default 0%float (array_source canvas r c)).
  assert (forall r c, 0 <= r < total_y -> 0 <= c < total_x ->
            array_source canvas r c = Some (px r c)) as Hsource.
  { intros r c Hr Hc.
    by apply (TileFacts.array_source_defined canvas total_x total_y). }
  destruct (TileFacts.write_tiles_spec (array_source canvas) total_x total_y
              (-9999)%float px (conj Hx Hx') (conj Hy Hy') Hsource)
    as (tiles & Hrun & Hall).
  exists tiles. split; [exact Hrun|].
  intros r c Hr Hc.
  pose proof (Z.div_mod r 256 ltac:(lia)) as Hrd.
  pose proof (Z.div_mod c 256 ltac:(lia)) as Hcd.
  pose proof (Z.mod_pos_bound r 256 ltac:(lia)) as Hrm.
  pose proof (Z.mod_pos_bound c 256 ltac:(lia)) as Hcm.
  assert (0 <= r / 256) by (apply Z.div_pos; lia).
  assert (0 <= c / 256) by (apply Z.div_pos; lia).
  pose proof (Hsource r c Hr Hc) as Hcell. unfold array_source in Hcell.
  destruct (canvas !! Z.to_nat r) as [row|] eqn:Erow; [|done].
  destruct (row !! Z.to_nat c) as [v|] eqn:Ev; [|done].
  eexists _, row, v. split.
  { apply Hall; split; try done; apply TileFacts.tile_count_spec; lia. }
  split; [done|]. split; [done|].
  rewrite TileFacts.tile_cells_lookup by done.
  replace (256 * (r / 256) + r mod 256) with r by lia.
  replace (256 * (c / 256) + c mod 256) with c by lia.
  destruct (Z.ltb_spec r total_y); [|lia].
  destruct (Z.ltb_spec c total_x); [|lia].
  cbn [andb]. by rewrite <- Hcell.
Qed.

Lemma combined_array_reaches_the_tiles_witness :
  exists g tiles,
    make_data_for_geotiff Examples.one_degree_dem = Some (inr g) /\
    create_tiles (fun _ _ _ => true) (geo_np_array g) (geo_x_length g)
      (geo_y_length g)
    = Some (true, tiles).
Proof.
  destruct (make_data_for_geotiff Examples.one_degree_dem)
    as [[ec|g]|] eqn:E; [by vm_compute in E| |by vm_compute in E].
  destruct (combined_array_reaches_the_tiles Examples.one_degree_dem g E)
    as (tiles & Hrun & _).
  by exists g, tiles.
Defined.

(** X21. The loop of [merge_tif_files] over the directory collects the
    paths of the regular files whose name holds [pattern1] or [pattern2],
    in the order of the directory, and [latest_date] is the latest of their
    dates: it is empty exactly when no collected file has a date, it is
    otherwise the date of a collected file, and as a number it is not below
    the date of any collected file. *)
Theorem latest_date_is_the_latest
    (dem_type : text) (entries : list directory_entry) :
  exists latest_date,
    collect_input_files dem_type entries
    = (path_string <$> List.filter (MergeInputFacts.selected dem_type) entries,
       latest_date) /\
    (latest_date = [] <->
     forall e, e ∈ entries -> MergeInputFacts.selected dem_type e = true ->
               filename_date dem_type (path_filename e) = None) /\
    (latest_date <> [] ->
     exists e, e ∈ entries /\ MergeInputFacts.selected dem_type e = true /\
               filename_date dem_type (path_filename e) = Some latest_date) /\
    (forall e date,
       e ∈ entries -> MergeInputFacts.selected dem_type e = true ->
       filename_date dem_type (path_filename e) = Some date ->
       MergeInputFacts.date_value date
       <= MergeInputFacts.date_value latest_date).
Proof.
  destruct (MergeInputFacts.collect_input_files_spec dem_type entries)
    as (latest & Hrun & Hfrom & Hmax).
  exists latest. split; [exact Hrun|]. split; [|split].
  - split.
    + intros -> e He Hs.
      destruct (filename_date dem_type (path_filename e)) as [date|] eqn:Ed;
        [|done].
      by destruct (Hmax e date He Hs Ed).
    + intros Hnone. destruct Hfrom as [->|(e & He & Hs & Hd)]; [done|].
      by rewrite (Hnone e He Hs) in Hd.
  - intros Hne. by destruct Hfrom.
  - intros e date He Hs Hd. by destruct (Hmax e date He Hs Hd).
Qed.

(** X22. The default name of the merged file is a name that the merge
    itself collects: when the collected files have a latest date, the
    output is named [FG-GML-merged-DEM<type>-<date>.tif], and a directory
    that holds a regular file of that name yields that file as input, with
    the same latest date. *)
Theorem merged_file_is_collected_again
    (to_string : Z -> text) (dem_type : text) (resolution : float)
    (entries : list directory_entry) (input_files : list text)
    (latest_date : text) :
  collect_input_files dem_type entries = (input_files, latest_date) ->
  latest_date <> [] ->
  exists name,
    default_output_file to_string dem_type resolution latest_date
    = Some name /\
    name = tag "FG-GML-merged-DEM" ++ dem_type ++ tag "-" ++ latest_date
           ++ tag ".tif" /\
    forall path,
      collect_input_files dem_type [mkDirectoryEntry true name path]
      = ([path], latest_date).
Proof.
  intros Hrun Hne.
  destruct (MergeInputFacts.collect_input_files_spec dem_type entries)
    as (latest & Hrun' & Hfrom & _).
  rewrite Hrun in Hrun'. injection Hrun' as _ <-.
  destruct Hfrom as [->|(e & _ & _ & Hd)]; [done|].
  apply MergeInputFacts.filename_date_shape in Hd as [Hlen Hdig].
  destruct (MergeInputFacts.dated_name_date dem_type latest_date Hlen Hdig)
    as [Hfind Hdate].
  eexists. split; [by destruct latest_date|]. split; [done|].
  intros path. unfold collect_input_files. cbn [foldl].
  rewrite MergeInputFacts.collect_entry_eq.
  unfold MergeInputFacts.selected.
  cbn [is_regular_file path_filename path_string andb].
  rewrite (MergeInputFacts.contains_find _ (pattern2 dem_type)), Hfind.
  rewrite orb_true_r, Hdate. by destruct latest_date.
Qed.

Lemma merged_file_is_collected_again_witness :
  exists name,
    default_output_file (fun _ => []) (tag "5A") 5
      (tag "20240131") = Some name /\
    name = tag "FG-GML-merged-DEM5A-20240131.tif" /\
    collect_input_files (tag "5A")
      [mkDirectoryEntry true name (tag "out/FG-GML-merged-DEM5A-20240131.tif")]
    = ([tag "out/FG-GML-merged-DEM5A-20240131.tif"], tag "20240131").
Proof.
  destruct (merged_file_is_collected_again (fun _ => []) (tag "5A") 5
              [mkDirectoryEntry true (tag "FG-GML-5339-45-DEM5A-20240131.tif")
                 (tag "in/FG-GML-5339-45-DEM5A-20240131.tif")]
              [tag "in/FG-GML-5339-45-DEM5A-20240131.tif"] (tag "20240131"))
    as (name & Hname & Heq & Hagain); [reflexivity|discriminate|].
  exists name. split; [exact Hname|]. split; [exact Heq|]. apply Hagain.
Defined.

(** X23. The strip branch of [read_geotiff], for a raster of [uint32_t]
    dimensions whose last row starts below 2^32 samples (the row offset
    [row * width] is a [uint32_t] product): when the library returns [width]
    samples for every row, the raster read has [height * width] samples and
    holds the sample [col] of the scanline of [row] at [row * width + col];
    when the rows before some row are read and that row fails,
    [read_geotiff] returns [false]. *)
Theorem strips_are_read_row_by_row
    (TIFFReadScanline : Z -> option (list float)) (width height : Z) :
  0 <= width < uint32_modulus -> 0 <= height < uint32_modulus ->
  (height - 1) * width < uint32_modulus ->
  ((forall row, 0 <= row < height ->
      exists scanline, TIFFReadScanline row = Some scanline /\
                       Z.of_nat (length scanline) = width) ->
   exists data,
     read_strips TIFFReadScanline width height = Some (Some data) /\
     Z.of_nat (length data) = height * width /\
     forall row col, 0 <= row < height -> 0 <= col < width ->
       exists scanline,
         TIFFReadScanline row = Some scanline /\
         data !! Z.to_nat (row * width + col) = scanline !! Z.to_nat col) /\
  (forall failing,
     0 <= failing < height ->
     (forall row, 0 <= row < failing ->
        exists scanline, TIFFReadScanline row = Some scanline /\
                         Z.of_nat (length scanline) = width) ->
     TIFFReadScanline failing = None ->
     read_strips TIFFReadScanline width height = Some None).
Proof.
  intros Hwidth Hheight Hlast. split.
  - intros Hrows.
    destruct (TileFacts.read_strips_run TIFFReadScanline width height
                Hwidth Hheight Hlast height ltac:(lia) Hrows ltac:(lia))
      as (state & Hrun & _ & Hdone).
    destruct (Hdone eq_refl) as (data & -> & Hlen & Hcells).
    by exists data.
  - intros failing Hfailing Hrows Hfails.
    destruct (TileFacts.read_strips_run TIFFReadScanline width height
                Hwidth Hheight Hlast failing ltac:(lia) Hrows
                (fun _ => Hfails))
      as (state & Hrun & Hnone & _).
    by rewrite Hrun, (Hnone ltac:(lia)).
Qed.

Lemma strips_are_read_row_by_row_witness :
  read_strips (fun row => if row =? 0 then Some [1; 2]%float
                          else if row =? 1 then Some [3; 4]%float else None)
    2 2
  = Some (Some [1; 2; 3; 4]%float) /\
  read_strips (fun row => if row =? 0 then Some [1; 2]%float else None) 2 2
  = Some None.
Proof.
  split.
  - destruct (strips_are_read_row_by_row
                (fun row => if row =? 0 then Some [1; 2]%float
                            else if row =? 1 then Some [3; 4]%float else None)
                2 2) as [Hall _]; [by vm_compute|by vm_compute|by vm_compute|].
    destruct Hall as (data & Hrun & _).
    + intros row Hrow. assert (row = 0 \/ row = 1) as [-> | ->] by lia;
        eexists; split; reflexivity.
    + reflexivity.
  - destruct (strips_are_read_row_by_row
                (fun row => if row =? 0 then Some [1; 2]%float else None)
                2 2) as [_ Hfail]; [by vm_compute|by vm_compute|by vm_compute|].
    apply (Hfail 1); [lia| |reflexivity].
    intros row Hrow. assert (row = 0) as -> by lia.
    eexists; split; reflexivity.
Defined.
